(** * pdf-to-json.py: a shallow embedding and its verified properties

    The program scrapes recipe text that a PDF library extracted from a
    vendor's export and turns it into JSON records.  All of its logic is
    string scanning and regular expressions, so the embedding has three
    layers:

    - [Python strings]: the [str] operations the program calls
      ([lower], [strip], [split], [join], [startswith], [in], [int]);
    - [Regular expressions]: a backtracking matcher with the priority order
      of Python's [re] (ordered alternation, greedy and lazy repetition,
      capturing groups, [^] and [$]) and [re.match], [re.search], [re.sub]
      on top of it;
    - the functions of [pdf-to-json.py], one definition per source function.

    A Python [str] is a sequence of code points.  Here a string is a
    [string] whose characters are the code points U+0000 to U+00FF; the
    character classes below are Python's own tables on that range
    ([str.isspace], [re]'s [\w], [\d] and [\s] for [str] patterns,
    [str.lower]).  Code points above U+00FF are outside the model.
    Python integers are unbounded and are modelled by [N] and [nat]; the
    conversion [int] of a digit string is CPython's, which refuses more
    than 4300 digits ([sys.int_max_str_digits], the default) with a
    [ValueError].  File names and paths are POSIX ones. *)

From Stdlib Require Import Ascii String List Bool Arith NArith ZArith QArith Lia.
From Stdlib Require Import Permutation.
From Stdlib Require OrderedTypeEx.
Import ListNotations.
Open Scope nat_scope.
Open Scope list_scope.
Open Scope string_scope.

(* ================================================================== *)
(** * Python strings *)
(* ================================================================== *)

Definition code (c : ascii) : N := N_of_ascii c.

Definition in_range (lo hi : N) (c : ascii) : bool :=
  (N.leb lo (code c) && N.leb (code c) hi)%bool.

Definition is_code (n : N) (c : ascii) : bool := N.eqb (code c) n.

(** [str.isspace] and [\s]: TAB..CR, FS..US, SPACE, NEL, NBSP. *)
Definition is_space (c : ascii) : bool :=
  in_range 9 13 c || in_range 28 32 c || is_code 133 c || is_code 160 c.

(** [\d]: the decimal digits; on this range only [0-9]. *)
Definition is_digit (c : ascii) : bool := in_range 48 57 c.

Definition is_ascii_upper (c : ascii) : bool := in_range 65 90 c.
Definition is_ascii_lower (c : ascii) : bool := in_range 97 122 c.

(** Characters that [str.lower] changes. *)
Definition is_upper (c : ascii) : bool :=
  is_ascii_upper c || in_range 192 214 c || in_range 216 222 c.

(** [\w]: alphanumeric code points and the underscore. *)
Definition is_word (c : ascii) : bool :=
  is_digit c || is_ascii_upper c || is_ascii_lower c || is_code 95 c
  || is_code 170 c || in_range 178 179 c || is_code 181 c
  || in_range 185 186 c || in_range 188 190 c
  || in_range 192 214 c || in_range 216 246 c || in_range 248 255 c.

Definition is_ascii_char (c : ascii) : bool := N.ltb (code c) 128.

Definition lower_char (c : ascii) : ascii :=
  if is_upper c then ascii_of_N (code c + 32) else c.

Definition NLc : ascii := ascii_of_N 10.
Definition NL : string := String NLc "".
Definition hyphen : ascii := "-"%char.

(** [all p s]: every character of [s] satisfies [p]. *)
Fixpoint all (p : ascii -> bool) (s : string) : bool :=
  match s with
  | "" => true
  | String c s' => p c && all p s'
  end.

Fixpoint str_filter (p : ascii -> bool) (s : string) : string :=
  match s with
  | "" => ""
  | String c s' => if p c then String c (str_filter p s') else str_filter p s'
  end.

(** [s.lower()]: on the code points of this model it maps character by
    character and keeps the length. *)
Fixpoint lower (s : string) : string :=
  match s with
  | "" => ""
  | String c s' => String (lower_char c) (lower s')
  end.

Fixpoint lstrip_by (p : ascii -> bool) (s : string) : string :=
  match s with
  | "" => ""
  | String c s' => if p c then lstrip_by p s' else s
  end.

Fixpoint rstrip_by (p : ascii -> bool) (s : string) : string :=
  match s with
  | "" => ""
  | String c s' =>
      match rstrip_by p s' with
      | "" => if p c then "" else String c ""
      | r => String c r
      end
  end.

Definition strip_by (p : ascii -> bool) (s : string) : string :=
  rstrip_by p (lstrip_by p s).

(** [s.strip()] removes leading and trailing white space. *)
Definition strip (s : string) : string := strip_by is_space s.

Fixpoint mem_char (c : ascii) (chars : string) : bool :=
  match chars with
  | "" => false
  | String d chars' => Ascii.eqb c d || mem_char c chars'
  end.

(** [s.strip(chars)] removes leading and trailing characters of [chars]. *)
Definition strip_chars (chars s : string) : string :=
  strip_by (fun c => mem_char c chars) s.

(** [s.split(sep)] for a one-character separator. *)
Fixpoint split (sep : ascii) (s : string) : list string :=
  match s with
  | "" => [""]
  | String c s' =>
      if Ascii.eqb c sep then "" :: split sep s'
      else match split sep s' with
           | h :: t => String c h :: t
           | [] => [String c ""]
           end
  end.

(** [sep.join(parts)] *)
Fixpoint join (sep : string) (parts : list string) : string :=
  match parts with
  | [] => ""
  | [p] => p
  | p :: rest => p ++ sep ++ join sep rest
  end.

(** [s.startswith(p)] *)
Definition startswith (s p : string) : bool := prefix p s.

(** [needle in hay] *)
Fixpoint contains (needle hay : string) : bool :=
  prefix needle hay ||
  match hay with
  | "" => false
  | String _ hay' => contains needle hay'
  end.

(** The exceptions the program can meet. *)
Inductive exn : Type :=
| AttributeError
| TypeError
| ZeroDivisionError
| ValueError.

(** A value, or the exception raised instead. *)
Inductive result (A : Type) : Type :=
| Ok : A -> result A
| Raise : exn -> result A.
Arguments Ok {A} _.
Arguments Raise {A} _.

Definition digit_value (c : ascii) : N := (code c - 48)%N.

Fixpoint int_acc (acc : N) (s : string) : N :=
  match s with
  | "" => acc
  | String c s' => int_acc (acc * 10 + digit_value c)%N s'
  end.

(** The number that a string of decimal digits denotes. *)
Definition int_value (s : string) : N := int_acc 0 s.

(** [sys.get_int_max_str_digits()]: CPython's default limit. *)
Definition int_max_str_digits : N := 4300.

(** More digits than [int] accepts; leading zeros count. *)
Definition too_long (s : string) : bool :=
  N.ltb int_max_str_digits (N.of_nat (String.length s)).

(** [int(s)] on a string of decimal digits: a [ValueError] when the
    string has more than [int_max_str_digits] digits. *)
Definition int (s : string) : result N :=
  if too_long s then Raise ValueError else Ok (int_value s).

(** [x or d] on an optional string: [None] and [""] are falsy. *)
Definition or_str (x : option string) (d : string) : string :=
  match x with
  | Some (String c s) => String c s
  | _ => d
  end.

(** [x or d] on an optional integer: [None] and [0] are falsy. *)
Definition or_int (x : option N) (d : N) : N :=
  match x with
  | Some (Npos p) => Npos p
  | _ => d
  end.

(* ================================================================== *)
(** * Regular expressions *)
(* ================================================================== *)

(** The patterns of the program repeat single characters only
    ([\d+], [\s*], [.*?], [[^)]+]), so repetition is over a character
    class.  [Alt] is ordered and [Star true] is greedy, [Star false] lazy,
    as in a backtracking matcher. *)
Inductive regex : Type :=
| Eps : regex
| Cls : (ascii -> bool) -> regex
| Seq : regex -> regex -> regex
| Alt : regex -> regex -> regex
| Star : bool -> (ascii -> bool) -> regex
| Grp : nat -> regex -> regex
| Bol : regex
| Eol : regex.

Definition captures : Type := list (nat * string).

Fixpoint lookup (n : nat) (g : captures) : option string :=
  match g with
  | [] => None
  | (m, s) :: g' => if Nat.eqb n m then Some s else lookup n g'
  end.

(** [$] without MULTILINE: at the end, or before a final newline. *)
Definition at_eol (s : string) : bool := String.eqb s "" || String.eqb s NL.

Section Matcher.
Variable A : Type.

(** A continuation receives the position reached, the text that is left
    and the groups captured so far; [None] asks for backtracking. *)
Definition cont : Type := nat -> string -> captures -> option A.

Fixpoint star_greedy (p : ascii -> bool) (k : cont)
         (pos : nat) (s : string) (g : captures) : option A :=
  match s with
  | String c s' =>
      if p c then
        match star_greedy p k (S pos) s' g with
        | Some x => Some x
        | None => k pos s g
        end
      else k pos s g
  | "" => k pos s g
  end.

Fixpoint star_lazy (p : ascii -> bool) (k : cont)
         (pos : nat) (s : string) (g : captures) : option A :=
  match k pos s g with
  | Some x => Some x
  | None =>
      match s with
      | String c s' => if p c then star_lazy p k (S pos) s' g else None
      | "" => None
      end
  end.

Fixpoint run (r : regex) (k : cont)
         (pos : nat) (s : string) (g : captures) : option A :=
  match r with
  | Eps => k pos s g
  | Cls p =>
      match s with
      | String c s' => if p c then k (S pos) s' g else None
      | "" => None
      end
  | Seq r1 r2 => run r1 (run r2 k) pos s g
  | Alt r1 r2 =>
      match run r1 k pos s g with
      | Some x => Some x
      | None => run r2 k pos s g
      end
  | Star true p => star_greedy p k pos s g
  | Star false p => star_lazy p k pos s g
  | Grp n r1 =>
      run r1 (fun pos' s' g' =>
                k pos' s' ((n, substring 0 (pos' - pos) s) :: g'))
          pos s g
  | Bol => if Nat.eqb pos 0 then k pos s g else None
  | Eol => if at_eol s then k pos s g else None
  end.
End Matcher.

Arguments star_greedy {A} p k pos s g.
Arguments star_lazy {A} p k pos s g.
Arguments run {A} r k pos s g.

(** A match object: where the match starts and ends, and its groups. *)
Record match_obj : Type := mkMatch {
  m_start : nat;
  m_end : nat;
  m_groups : captures
}.

(** [m.group(n)] for a group that took part in the match. *)
Definition group (n : nat) (m : match_obj) : string :=
  match lookup n (m_groups m) with
  | Some s => s
  | None => ""
  end.

Definition match_at (r : regex) (pos : nat) (s : string) : option match_obj :=
  run r (fun pos' _ g => Some (mkMatch pos pos' g)) pos s [].

(** [re.match(r, s)] *)
Definition re_match (r : regex) (s : string) : option match_obj :=
  match_at r 0 s.

Fixpoint search_from (r : regex) (pos : nat) (s : string) : option match_obj :=
  match match_at r pos s with
  | Some m => Some m
  | None =>
      match s with
      | "" => None
      | String _ s' => search_from r (S pos) s'
      end
  end.

(** [re.search(r, s)]: the leftmost match. *)
Definition re_search (r : regex) (s : string) : option match_obj :=
  search_from r 0 s.

(** [re.sub(r, repl, s)] for a replacement without back-references:
    leftmost non-overlapping matches are replaced; [skip] counts the
    characters of the current match that are still to be passed over. *)
Fixpoint sub_from (r : regex) (repl : string)
         (pos skip : nat) (s : string) : string :=
  match s with
  | "" =>
      match skip, match_at r pos "" with
      | 0, Some _ => repl
      | _, _ => ""
      end
  | String c s' =>
      match skip with
      | S n => sub_from r repl (S pos) n s'
      | 0 =>
          match match_at r pos s with
          | Some m =>
              match m_end m - pos with
              | 0 => repl ++ String c (sub_from r repl (S pos) 0 s')
              | S n => repl ++ sub_from r repl (S pos) n s'
              end
          | None => String c (sub_from r repl (S pos) 0 s')
          end
      end
  end.

Definition re_sub (r : regex) (repl s : string) : string :=
  sub_from r repl 0 0 s.

(** Pattern syntax. *)
Fixpoint lit (w : string) : regex :=
  match w with
  | "" => Eps
  | String c w' => Seq (Cls (Ascii.eqb c)) (lit w')
  end.

Definition plus (p : ascii -> bool) : regex := Seq (Cls p) (Star true p).
Definition opt (r : regex) : regex := Alt r Eps.

Fixpoint seqs (rs : list regex) : regex :=
  match rs with
  | [] => Eps
  | [r] => r
  | r :: rs' => Seq r (seqs rs')
  end.

Fixpoint alts (r : regex) (rs : list regex) : regex :=
  match rs with
  | [] => r
  | r' :: rs' => Alt r (alts r' rs')
  end.

Definition any_char : ascii -> bool := fun _ => true.          (* [.] with DOTALL *)
Definition not_newline : ascii -> bool := fun c => negb (Ascii.eqb c NLc). (* [.] *)
Definition is_char (d : ascii) : ascii -> bool := fun c => Ascii.eqb c d.

(* ================================================================== *)
(** * generate_recipe_id *)
(* ================================================================== *)

(** [[^\w\s-]] *)
Definition non_slug_char (c : ascii) : bool :=
  negb (is_word c || is_space c || is_char hyphen c).
Definition re_non_slug : regex := Cls non_slug_char.

(** [[-\s]+] *)
Definition hyphen_or_space (c : ascii) : bool := is_char hyphen c || is_space c.
Definition re_hyphen_run : regex := plus hyphen_or_space.

Definition generate_recipe_id (title : string) : string :=
  let recipe_id := re_sub re_non_slug "" (lower title) in
  let recipe_id := re_sub re_hyphen_run "-" recipe_id in
  strip_chars "-" recipe_id.

(* ================================================================== *)
(** * parse_title_and_metadata *)
(* ================================================================== *)

(** [(\d+)\s*minutes] *)
Definition re_time : regex :=
  seqs [Grp 1 (plus is_digit); Star true is_space; lit "minutes"].

(** [(\d+)\s*servings?] *)
Definition re_servings : regex :=
  seqs [Grp 1 (plus is_digit); Star true is_space; lit "serving"; opt (lit "s")].

Record Metadata : Type := mkMetadata {
  meta_title : string;
  meta_cookTime : string;
  meta_servings : N
}.

(** The local variables [title], [cook_time] and [servings] of the loop. *)
Record MetaVars : Type := mkMetaVars {
  v_title : option string;
  v_cook_time : option string;
  v_servings : option N
}.

Definition no_meta : MetaVars := mkMetaVars None None None.

(** The body of [if 'minutes' in next_line and 'servings' in next_line];
    [int] may raise. *)
Definition read_metadata (line next_line : string) : result MetaVars :=
  let time_match := re_search re_time next_line in
  let servings_match := re_search re_servings next_line in
  let cook_time :=
    match time_match with
    | Some m => Some (group 1 m ++ " minutes")
    | None => None
    end in
  match servings_match with
  | Some m =>
      match int (group 1 m) with
      | Ok servings => Ok (mkMetaVars (Some line) cook_time (Some servings))
      | Raise e => Raise e
      end
  | None => Ok (mkMetaVars (Some line) cook_time None)
  end.

(** [for i, line in enumerate(lines)]: [lines] is the list from index [i]
    on, so its second element is [lines[i + 1]] when that exists.  [title]
    is still [None] whenever the loop body runs, because the only
    assignment to it is followed by [break]. *)
Fixpoint title_loop (lines : list string) : result MetaVars :=
  match lines with
  | [] => Ok no_meta
  | line0 :: rest =>
      let line := strip line0 in
      if Nat.ltb 20 (String.length line) && negb (startswith line "Find cookware") then
        match rest with
        | next0 :: _ =>
            let next_line := strip next0 in
            if contains "minutes" next_line && contains "servings" next_line
            then read_metadata line next_line
            else title_loop rest
        | [] => title_loop rest
        end
      else title_loop rest
  end.

Definition parse_title_and_metadata (text : string) : result Metadata :=
  let lines := split NLc text in
  match title_loop lines with
  | Ok vars =>
      Ok (mkMetadata
            (or_str (v_title vars) "Unknown Recipe")
            (or_str (v_cook_time vars) "30 minutes")
            (or_int (v_servings vars) 2))
  | Raise e => Raise e
  end.

(* ================================================================== *)
(** * parse_cookware *)
(* ================================================================== *)

(** [Find cookware\n(.*?)\nGrab ingredients] with DOTALL *)
Definition re_cookware : regex :=
  seqs [lit "Find cookware"; Cls (is_char NLc); Grp 1 (Star false any_char);
        Cls (is_char NLc); lit "Grab ingredients"].

(** [\s*\(optional\)] *)
Definition re_optional : regex := seqs [Star true is_space; lit "(optional)"].

Fixpoint cookware_loop (items : list string) : list string :=
  match items with
  | [] => []
  | item0 :: rest =>
      let item := strip item0 in
      if negb (String.eqb item "") && negb (startswith item "Find")
         && Nat.ltb 2 (String.length item)
      then re_sub re_optional "" item :: cookware_loop rest
      else cookware_loop rest
  end.

Definition parse_cookware (text : string) : list string :=
  match re_search re_cookware text with
  | None => []
  | Some cookware_match => cookware_loop (split NLc (group 1 cookware_match))
  end.

(* ================================================================== *)
(** * categorize_ingredient *)
(* ================================================================== *)

Definition produce_words : list string :=
  ["carrot"; "celery"; "onion"; "garlic"; "tomato";
   "pepper"; "kale"; "lettuce"; "spinach"; "bean";
   "apple"; "kiwi"; "berry"; "fruit"; "lime"; "lemon"].

Definition protein_words : list string :=
  ["chicken"; "beef"; "pork"; "fish"; "turkey";
   "salmon"; "tuna"; "shrimp"; "tofu"].

Definition dairy_words : list string :=
  ["milk"; "cheese"; "yogurt"; "butter"; "cream";
   "cheddar"; "mozzarella"; "parmesan"].

Definition spices_words : list string :=
  ["salt"; "pepper"; "cumin"; "paprika"; "oregano";
   "basil"; "thyme"; "cinnamon"; "turmeric";
   "chili powder"; "italian seasoning"].

(** [any(word in s for word in words)] *)
Definition any_in (words : list string) (s : string) : bool :=
  existsb (fun word => contains word s) words.

Definition categorize_ingredient (ingredient : string) : string :=
  let ingredient_lower := lower ingredient in
  if any_in produce_words ingredient_lower then "produce"
  else if any_in protein_words ingredient_lower then "protein"
  else if any_in dairy_words ingredient_lower then "dairy"
  else if any_in spices_words ingredient_lower then "spices"
  else "pantry".

(* ================================================================== *)
(** * parse_ingredients *)
(* ================================================================== *)

(** [Grab ingredients\n(.*?)\n(?:Cook & enjoy|$)] with DOTALL *)
Definition re_ingredients : regex :=
  seqs [lit "Grab ingredients"; Cls (is_char NLc); Grp 1 (Star false any_char);
        Cls (is_char NLc); Alt (lit "Cook & enjoy") Eol].

(** [[\d\/\.\s]] *)
Definition numeric_char (c : ascii) : bool :=
  is_digit c || is_char "/" c || is_char "." c || is_space c.

Definition unit_words : list string :=
  ["tbsp"; "tsp"; "oz"; "lb"; "fl oz"; "pkg"; "can"; "bunch"; "stick";
   "clove"; "medium"; "small"; "large"].

(** [(?:cup|tbsp|tsp|oz|lb|fl oz|pkg|can|bunch|stick|clove|medium|small|large)] *)
Definition re_unit : regex := alts (lit "cup") (map lit unit_words).

(** [(?:\([^)]+\))] *)
Definition re_parenthetical : regex :=
  seqs [lit "("; plus (fun c => negb (is_char ")" c)); lit ")"].

(** [[\d\/\.\s]+(?:\([^)]+\))?\s*(?:cup|...|large)?s?], the first group *)
Definition re_quantity_prefix : regex :=
  seqs [plus numeric_char; opt re_parenthetical; Star true is_space;
        opt re_unit; opt (lit "s")].

(** [^(<prefix>)\s+(.+)$] *)
Definition re_quantity : regex :=
  seqs [Bol; Grp 1 re_quantity_prefix; plus is_space;
        Grp 2 (plus not_newline); Eol].

Record Ingredient : Type := mkIngredient {
  ing_name : string;
  ing_quantity : string;
  ing_category : string;
  ing_original : string
}.

(** The part of the loop body after the [continue] test, on the stripped
    line. *)
Definition ingredient_of_line (line : string) : Ingredient :=
  let category := categorize_ingredient line in
  let quantity_match := re_match re_quantity line in
  let '(quantity, name) :=
    match quantity_match with
    | Some m => (strip (group 1 m), strip (group 2 m))
    | None => ("", line)
    end in
  mkIngredient (lower name) quantity category line.

(** [not line or line.startswith('Grab') or len(line) < 3] *)
Definition skip_ingredient_line (line : string) : bool :=
  String.eqb line "" || startswith line "Grab" || Nat.ltb (String.length line) 3.

Fixpoint ingredients_loop (lines : list string) : list Ingredient :=
  match lines with
  | [] => []
  | line0 :: rest =>
      let line := strip line0 in
      if skip_ingredient_line line then ingredients_loop rest
      else ingredient_of_line line :: ingredients_loop rest
  end.

Definition parse_ingredients (text : string) : list Ingredient :=
  match re_search re_ingredients text with
  | None => []
  | Some ingredients_match =>
      ingredients_loop (split NLc (group 1 ingredients_match))
  end.

(* ================================================================== *)
(** * parse_instructions *)
(* ================================================================== *)

(** [Cook & enjoy\n(.*?)(?:\n\d+\sof\s\d+|$)] with DOTALL *)
Definition re_instructions : regex :=
  seqs [lit "Cook & enjoy"; Cls (is_char NLc); Grp 1 (Star false any_char);
        Alt (seqs [Cls (is_char NLc); plus is_digit; Cls is_space; lit "of";
                   Cls is_space; plus is_digit])
            Eol].

(** [^(\d+)\s*$] *)
Definition re_step : regex :=
  seqs [Bol; Grp 1 (plus is_digit); Star true is_space; Eol].

Record InstructionStep : Type := mkStep {
  step : N;
  text : string
}.

(** The loop variables [current_step], [current_text], [instructions]. *)
Record StepVars : Type := mkStepVars {
  current_step : option N;
  current_text : list string;
  instructions : list InstructionStep
}.

(** [if current_step is not None and current_text: instructions.append(...)] *)
Definition save_step (st : StepVars) : list InstructionStep :=
  match current_step st, current_text st with
  | Some n, _ :: _ =>
      (instructions st ++ [mkStep n (strip (join " " (current_text st)))])%list
  | _, _ => instructions st
  end.

(** The body of [for line in lines]; [int] may raise. *)
Definition instruction_line (st : StepVars) (line0 : string) : result StepVars :=
  let line := strip line0 in
  if String.eqb line "" then Ok st
  else
    match re_match re_step line with
    | Some step_match =>
        match int (group 1 step_match) with
        | Ok n => Ok (mkStepVars (Some n) [] (save_step st))
        | Raise e => Raise e
        end
    | None =>
        match current_step st with
        | Some _ =>
            Ok (mkStepVars (current_step st) (current_text st ++ [line])%list
                           (instructions st))
        | None => Ok st
        end
    end.

(** The loop stops at the first line that raises. *)
Fixpoint instructions_loop (lines : list string) (st : StepVars)
  : result StepVars :=
  match lines with
  | [] => Ok st
  | line :: rest =>
      match instruction_line st line with
      | Ok st' => instructions_loop rest st'
      | Raise e => Raise e
      end
  end.

(** The loop over the lines of the section and the last [save_step]. *)
Definition instruction_steps (lines : list string)
  : result (list InstructionStep) :=
  match instructions_loop lines (mkStepVars None [] []) with
  | Ok st => Ok (save_step st)
  | Raise e => Raise e
  end.

Definition parse_instructions (text : string)
  : result (list InstructionStep) :=
  match re_search re_instructions text with
  | None => Ok []
  | Some instructions_match =>
      instruction_steps (split NLc (group 1 instructions_match))
  end.

(* ================================================================== *)
(** * parse_recipe_pdf and process_directory *)
(* ================================================================== *)

Record Recipe : Type := mkRecipe {
  r_id : string;
  r_title : string;
  r_cookTime : string;
  r_servings : N;
  r_cookware : list string;
  r_ingredients : list Ingredient;
  r_instructions : list InstructionStep;
  r_tags : list string
}.

(** The [metadata] entry of the output document. *)
Record DocMetadata : Type := mkDocMetadata {
  total : nat;
  generated : string;
  source : string
}.

Record OutputDocument : Type := mkDocument {
  recipes : list Recipe;
  metadata : DocMetadata
}.

(** What the program prints, one constructor per [print] call.  Only the
    data of a message is kept, not its wording. *)
Inductive event : Type :=
| Processing (base_name : string)
| WarnNoText (pdf_path : string)
| WarnMissing (pdf_path : string) (n_ingredients n_instructions : nat)
| Extracted (n_ingredients n_steps : nat)
| ErrorProcessing (name : string) (e : exn)
| ErrorNoDirectory (input_dir : string)
| ErrorNoPdf (input_dir : string)
| Found (n : nat)
| Processed (n : nat)
| FailedFiles (names : list string)
| OutputWritten (output_file : string).

(** [os.path.basename(p)]: what follows the last [/]. *)
Definition basename (p : string) : string := last (split "/" p) "".

(** Insertion into a list sorted by code points, for [sorted(pdf_files)]. *)
Fixpoint insert_sorted (x : string) (l : list string) : list string :=
  match l with
  | [] => [x]
  | y :: l' => if String.leb x y then x :: l else y :: insert_sorted x l'
  end.

Definition sorted (l : list string) : list string :=
  fold_right insert_sorted [] l.

(** What [process_directory] leaves behind: the document it wrote (if any),
    the names it recorded as failed and what it printed. *)
Record Outcome : Type := mkOutcome {
  written : option OutputDocument;
  failed_files : list string;
  printed : list event
}.

Section Pipeline.
(** [extract_text_from_pdf] wraps the PDF library: it returns the text of
    the pages, each followed by a newline, or [""] when the library
    fails.  The library is outside the program, so the function is an
    input here. *)
Variable extract_text_from_pdf : string -> string.

(** The entries that [input_path.glob('*.pdf')] yields are [Path] objects
    of one directory.  An entry is given by its name, [pdf_file.name];
    [str_path name] is [str(pdf_file)], the path of the directory joined
    with the name.  The join is [pathlib]'s, so it is an input here, and
    [pathlib] orders the entries of one directory by their names. *)
Variable str_path : string -> string.

(** What was printed, and the value returned ([None] without text) or the
    exception that a parser raised. *)
Definition parse_recipe_pdf (pdf_path : string)
  : list event * result (option Recipe) :=
  let text := extract_text_from_pdf pdf_path in
  if String.eqb text "" then
    ([Processing (basename pdf_path); WarnNoText pdf_path], Ok None)
  else
    match parse_title_and_metadata text with
    | Raise e => ([Processing (basename pdf_path)], Raise e)
    | Ok metadata =>
        let cookware := parse_cookware text in
        let ingredients := parse_ingredients text in
        match parse_instructions text with
        | Raise e => ([Processing (basename pdf_path)], Raise e)
        | Ok instructions =>
            let warning :=
              match ingredients, instructions with
              | _ :: _, _ :: _ => []
              | _, _ => [WarnMissing pdf_path (List.length ingredients)
                                     (List.length instructions)]
              end in
            let recipe :=
              mkRecipe (generate_recipe_id (meta_title metadata))
                       (meta_title metadata)
                       (meta_cookTime metadata)
                       (meta_servings metadata)
                       cookware ingredients instructions [] in
            (([Processing (basename pdf_path)] ++ warning
              ++ [Extracted (List.length ingredients)
                            (List.length instructions)])%list,
             Ok (Some recipe))
        end
    end.

(** The loop variables [recipes] and [failed], and the output so far. *)
Record BatchVars : Type := mkBatch {
  b_recipes : list Recipe;
  b_failed : list string;
  b_printed : list event
}.

(** One iteration of [for pdf_file in sorted(pdf_files)], with its [try]:
    a recipe is a non-empty [dict], so [if recipe] asks whether one was
    returned; an exception is printed and the file recorded as failed. *)
Definition batch_step (b : BatchVars) (pdf_file : string) : BatchVars :=
  match parse_recipe_pdf (str_path pdf_file) with
  | (out, Ok (Some recipe)) =>
      mkBatch (b_recipes b ++ [recipe])%list (b_failed b)
              (b_printed b ++ out)%list
  | (out, Ok None) =>
      mkBatch (b_recipes b) (b_failed b ++ [pdf_file])%list
              (b_printed b ++ out)%list
  | (out, Raise e) =>
      mkBatch (b_recipes b) (b_failed b ++ [pdf_file])%list
              (b_printed b ++ out ++ [ErrorProcessing pdf_file e])%list
  end.

(** [dir_exists] is [input_path.exists()] and [pdf_files] the names of
    the entries that [input_path.glob('*.pdf')] yields; writing the file
    is assumed to succeed. *)
Definition process_directory (dir_exists : bool) (pdf_files : list string)
           (input_dir output_file : string) : Outcome :=
  if negb dir_exists then mkOutcome None [] [ErrorNoDirectory input_dir]
  else
    match pdf_files with
    | [] => mkOutcome None [] [ErrorNoPdf input_dir]
    | _ :: _ =>
        let b := fold_left batch_step (sorted pdf_files)
                           (mkBatch [] [] [Found (List.length pdf_files)]) in
        let output_data :=
          mkDocument (b_recipes b)
                     (mkDocMetadata (List.length (b_recipes b))
                                    "Generated by pdf_to_json.py"
                                    input_dir) in
        mkOutcome (Some output_data) (b_failed b)
                  (b_printed b
                   ++ [Processed (List.length (b_recipes b))]
                   ++ match b_failed b with
                      | [] => []
                      | _ :: _ => [FailedFiles (b_failed b)]
                      end
                   ++ [OutputWritten output_file])%list
    end.
End Pipeline.

(* ================================================================== *)
(** * JSON documents *)
(* ================================================================== *)

(** The values [json.load] returns: [None], [bool], [int], [str], [list]
    and [dict] (floats do not occur in the documents of this program).  A
    [dict] is an association list; [get] reads the first binding of a key. *)
#[warnings="-register-all"]
Inductive json : Type :=
| JNull : json
| JBool : bool -> json
| JInt : Z -> json
| JStr : string -> json
| JList : list json -> json
| JDict : list (string * json) -> json.

Definition json_of_ingredient (i : Ingredient) : json :=
  JDict [("name", JStr (ing_name i));
         ("quantity", JStr (ing_quantity i));
         ("category", JStr (ing_category i));
         ("original", JStr (ing_original i))].

Definition json_of_step (s : InstructionStep) : json :=
  JDict [("step", JInt (Z.of_N (step s))); ("text", JStr (text s))].

Definition json_of_recipe (r : Recipe) : json :=
  JDict [("id", JStr (r_id r));
         ("title", JStr (r_title r));
         ("cookTime", JStr (r_cookTime r));
         ("servings", JInt (Z.of_N (r_servings r)));
         ("cookware", JList (map JStr (r_cookware r)));
         ("ingredients", JList (map json_of_ingredient (r_ingredients r)));
         ("instructions", JList (map json_of_step (r_instructions r)));
         ("tags", JList (map JStr (r_tags r)))].

(** The tree that [json.dump(output_data, f, ...)] serialises.  The text
    layer is the [json] library's: [json.load] of what [json.dump] wrote
    is taken to give this tree back. *)
Definition json_dump (d : OutputDocument) : json :=
  JDict [("recipes", JList (map json_of_recipe (recipes d)));
         ("metadata",
          JDict [("total", JInt (Z.of_nat (total (metadata d))));
                 ("generated", JStr (generated (metadata d)));
                 ("source", JStr (source (metadata d)))])].

(* ================================================================== *)
(** * validate_json *)
(* ================================================================== *)

(** A message of the [issues] list: the recipe number [i+1], the value of
    [recipe.get('id', 'unknown')] and the names of the missing fields. *)
Record Issue : Type := mkIssue {
  issue_number : nat;
  issue_id : json;
  issue_missing : list string
}.

Inductive vevent : Type :=
| ValidJson (n : nat)
| Warnings (shown : list Issue)
| AndMore (n : nat)
| AllRequiredFields
| Statistics
| TotalRecipes (n : nat)
| TotalIngredients (n : nat)
| TotalSteps (n : nat)
| AvgIngredients (q : Q)
| AvgSteps (q : Q)
| InvalidJson
| ErrorValidating (e : exn).

(** Computations that print and may raise. *)
Definition M (A : Type) : Type := list vevent -> list vevent * result A.

Definition ret {A} (a : A) : M A := fun out => (out, Ok a).

Definition bind {A B} (m : M A) (f : A -> M B) : M B :=
  fun out =>
    match m out with
    | (out', Ok a) => f a out'
    | (out', Raise e) => (out', Raise e)
    end.

Definition print (e : vevent) : M unit := fun out => ((out ++ [e])%list, Ok tt).

Definition lift {A} (r : result A) : M A := fun out => (out, r).

Notation "x <- m ;; k" := (bind m (fun x => k))
  (at level 61, m at next level, right associativity).
Notation "m ;;; k" := (bind m (fun _ => k))
  (at level 61, right associativity).

(** [v.get(key, default)]; only a [dict] has [get]. *)
Fixpoint assoc (key : string) (d : list (string * json)) : option json :=
  match d with
  | [] => None
  | (k, v) :: d' => if String.eqb key k then Some v else assoc key d'
  end.

Definition py_get (v : json) (key : string) (default : json) : result json :=
  match v with
  | JDict d =>
      match assoc key d with
      | Some x => Ok x
      | None => Ok default
      end
  | _ => Raise AttributeError
  end.

(** Truth value of a value, as [not v] tests it. *)
Definition truthy (v : json) : bool :=
  match v with
  | JNull => false
  | JBool b => b
  | JInt z => negb (Z.eqb z 0)
  | JStr s => negb (String.eqb s "")
  | JList l => match l with [] => false | _ :: _ => true end
  | JDict d => match d with [] => false | _ :: _ => true end
  end.

(** [len(v)] *)
Definition py_len (v : json) : result nat :=
  match v with
  | JStr s => Ok (String.length s)
  | JList l => Ok (List.length l)
  | JDict d => Ok (List.length d)
  | _ => Raise TypeError
  end.

Fixpoint chars (s : string) : list json :=
  match s with
  | "" => []
  | String c s' => JStr (String c "") :: chars s'
  end.

(** The items a [for] loop over [v] visits. *)
Definition py_iter (v : json) : result (list json) :=
  match v with
  | JList l => Ok l
  | JDict d => Ok (map (fun kv => JStr (fst kv)) d)
  | JStr s => Ok (chars s)
  | _ => Raise TypeError
  end.

(** [a / b] on integers; the quotient is kept exact (the program only
    prints it, rounded to one decimal). *)
Definition py_truediv (a b : nat) : result Q :=
  match b with
  | 0 => Raise ZeroDivisionError
  | S _ => Ok (Qmake (Z.of_nat a) (Pos.of_nat b))
  end.

(** The body of [for i, recipe in enumerate(recipes)]. *)
Definition check_recipe (i : nat) (recipe : json) : result (option Issue) :=
  match py_get recipe "title" JNull with
  | Raise e => Raise e
  | Ok t =>
  match py_get recipe "ingredients" JNull with
  | Raise e => Raise e
  | Ok ing =>
  match py_get recipe "instructions" JNull with
  | Raise e => Raise e
  | Ok ins =>
      let missing :=
        ((if truthy t then [] else ["title"])
         ++ (if truthy ing then [] else ["ingredients"])
         ++ (if truthy ins then [] else ["instructions"]))%list in
      match missing with
      | [] => Ok None
      | _ :: _ =>
          match py_get recipe "id" (JStr "unknown") with
          | Raise e => Raise e
          | Ok id => Ok (Some (mkIssue (i + 1) id missing))
          end
      end
  end end end.

Fixpoint check_loop (i : nat) (items : list json) (issues : list Issue)
  : result (list Issue) :=
  match items with
  | [] => Ok issues
  | recipe :: rest =>
      match check_recipe i recipe with
      | Raise e => Raise e
      | Ok None => check_loop (S i) rest issues
      | Ok (Some issue) => check_loop (S i) rest (issues ++ [issue])%list
      end
  end.

(** [sum(len(r.get(key, [])) for r in recipes)] *)
Fixpoint sum_len (key : string) (items : list json) (acc : nat) : result nat :=
  match items with
  | [] => Ok acc
  | r :: rest =>
      match py_get r key (JList []) with
      | Raise e => Raise e
      | Ok v =>
          match py_len v with
          | Raise e => Raise e
          | Ok n => sum_len key rest (acc + n)
          end
      end
  end.

Record Stats : Type := mkStats {
  stat_recipes : nat;
  stat_ingredients : nat;
  stat_steps : nat;
  avg_ingredients : Q;
  avg_steps : Q
}.

(** What the validator found: the [issues] list and the statistics. *)
Record Report : Type := mkReport {
  issues : list Issue;
  stats : Stats
}.

(** The [try] block of [validate_json], after [json.load]. *)
Definition validate_body (data : json) : M Report :=
  recipes <- lift (py_get data "recipes" (JList [])) ;;
  n <- lift (py_len recipes) ;;
  print (ValidJson n) ;;;
  items <- lift (py_iter recipes) ;;
  issues <- lift (check_loop 0 items []) ;;
  match issues with
  | _ :: _ =>
      print (Warnings (firstn 10 issues)) ;;;
      (if Nat.ltb 10 (List.length issues)
       then print (AndMore (List.length issues - 10))
       else ret tt)
  | [] => print AllRequiredFields
  end ;;;
  total_ingredients <- lift (sum_len "ingredients" items 0) ;;
  total_steps <- lift (sum_len "instructions" items 0) ;;
  print Statistics ;;;
  print (TotalRecipes n) ;;;
  print (TotalIngredients total_ingredients) ;;;
  print (TotalSteps total_steps) ;;;
  a <- lift (py_truediv total_ingredients n) ;;
  print (AvgIngredients a) ;;;
  b <- lift (py_truediv total_steps n) ;;
  print (AvgSteps b) ;;;
  ret (mkReport issues (mkStats n total_ingredients total_steps a b)).

(** [validate_json] on the outcome of [json.load]: [None] stands for a
    [JSONDecodeError].  Every exception of the body is caught and
    reported. *)
Definition validate_json (loaded : option json) : list vevent * option Report :=
  match loaded with
  | None => ([InvalidJson], None)
  | Some data =>
      match validate_body data [] with
      | (out, Ok r) => (out, Some r)
      | (out, Raise e) => ((out ++ [ErrorValidating e])%list, None)
      end
  end.

(* ================================================================== *)
(** * Specification vocabulary *)
(* ================================================================== *)

(** Length of the longest prefix of [s] whose characters satisfy [p]. *)
Fixpoint span_len (p : ascii -> bool) (s : string) : nat :=
  match s with
  | "" => 0
  | String c s' => if p c then S (span_len p s') else 0
  end.

(** What [re.sub('[-\s]+', '-', s)] computes, written as a scan with one
    flag: inside a run of hyphens and white space or not. *)
Fixpoint collapse (in_run : bool) (s : string) : string :=
  match s with
  | "" => ""
  | String c s' =>
      if hyphen_or_space c then
        if in_run then collapse true s' else String hyphen (collapse true s')
      else String c (collapse false s')
  end.

(** No two adjacent hyphens. *)
Fixpoint no_hyphen_pair (s : string) : bool :=
  match s with
  | String c ((String d _) as s') =>
      negb (is_char hyphen c && is_char hyphen d) && no_hyphen_pair s'
  | _ => true
  end.

Definition head_is (p : ascii -> bool) (s : string) : bool :=
  match s with
  | "" => false
  | String c _ => p c
  end.

Fixpoint last_is (p : ascii -> bool) (s : string) : bool :=
  match s with
  | "" => false
  | String c "" => p c
  | String _ s' => last_is p s'
  end.

(** [[a-z0-9-]], the alphabet the specification names. *)
Definition plain_slug_char (c : ascii) : bool :=
  is_ascii_lower c || is_digit c || is_char hyphen c.

(** [[a-z0-9_-]] *)
Definition ascii_slug_char (c : ascii) : bool :=
  plain_slug_char c || is_char "_" c.

(** A word character that [lower] leaves alone, or a hyphen. *)
Definition slug_char (c : ascii) : bool :=
  (is_word c && negb (is_upper c)) || is_char hyphen c.

(** ** What a pattern matches

    [Matches r pos m rest gs]: at position [pos] of the subject, with
    [m ++ rest] still to be read, pattern [r] can match exactly [m] and
    capture the groups [gs] (latest first).  This is the declarative
    reading of a pattern; the matcher [run] is a search strategy for it. *)
Inductive Matches : regex -> nat -> string -> string -> captures -> Prop :=
| MEps pos rest : Matches Eps pos "" rest []
| MCls p pos c rest : p c = true -> Matches (Cls p) pos (String c "") rest []
| MSeq r1 r2 pos m1 m2 rest gs1 gs2 :
    Matches r1 pos m1 (m2 ++ rest) gs1 ->
    Matches r2 (pos + String.length m1) m2 rest gs2 ->
    Matches (Seq r1 r2) pos (m1 ++ m2) rest (gs2 ++ gs1)%list
| MAltL r1 r2 pos m rest gs :
    Matches r1 pos m rest gs -> Matches (Alt r1 r2) pos m rest gs
| MAltR r1 r2 pos m rest gs :
    Matches r2 pos m rest gs -> Matches (Alt r1 r2) pos m rest gs
| MStar b p pos m rest : all p m = true -> Matches (Star b p) pos m rest []
| MGrp n r pos m rest gs :
    Matches r pos m rest gs -> Matches (Grp n r) pos m rest ((n, m) :: gs)
| MBol rest : Matches Bol 0 "" rest []
| MEol pos rest : at_eol rest = true -> Matches Eol pos "" rest [].

(** [number_before word line d]: in [line] the digits [d] stand before
    [word], separated from it by white space only, and [d] is a whole
    number (no digit precedes it). *)
Definition number_before (word line d : string) : Prop :=
  exists pre ws post,
    line = pre ++ d ++ ws ++ word ++ post /\
    d <> "" /\ all is_digit d = true /\ all is_space ws = true /\
    last_is is_digit pre = false.

(** [qualifies lines i]: line [i] is a title candidate.  Its stripped
    length exceeds 20, it does not start with "Find cookware", and the
    line after it contains "minutes" and "servings". *)
Definition qualifies (lines : list string) (i : nat) : bool :=
  match nth_error lines i, nth_error lines (S i) with
  | Some line, Some next =>
      Nat.ltb 20 (String.length (strip line))
      && negb (startswith (strip line) "Find cookware")
      && contains "minutes" next
      && contains "servings" next
  | _, _ => false
  end.

(** A number, optional white space, then [tail]: the frame of [re_time]
    and [re_servings]. *)
Definition re_number_then (tail : regex) : regex :=
  Seq (Grp 1 (plus is_digit)) (Seq (Star true is_space) tail).

Definition soup_text : string :=
  join NL ["Mealime"; "Creamy Tomato Basil Soup"; "25 minutes, 4 servings";
           "Find cookware"].

Definition zero_servings_text : string :=
  join NL ["Creamy Tomato Basil Soup"; "25 minutes, 0 servings"].

Definition no_servings_text : string :=
  join NL ["Creamy Tomato Basil Soup"; "25 minutes, servings"].

Fixpoint repeat_char (c : ascii) (n : nat) : string :=
  match n with
  | 0 => ""
  | S n' => String c (repeat_char c n')
  end.

(** A number of 4301 digits. *)
Definition long_number : string := repeat_char "1" 4301.

(** A title line followed by a servings count that [int] refuses. *)
Definition long_servings_text : string :=
  join NL ["Creamy Tomato Basil Soup";
           "25 minutes, " ++ long_number ++ " servings"].

(** ** Lines of the instructions section *)

Definition blank (l : string) : bool := String.eqb (strip l) "".

(** A line of one or more digits with only white space around them. *)
Definition is_step_line (l : string) : bool :=
  negb (blank l) && all is_digit (strip l).

(** The text lines of a step: its non-blank lines, stripped. *)
Definition body_text (body : list string) : list string :=
  map strip (filter (fun l => negb (blank l)) body).

(** A block is a step line with the lines that follow it up to the next
    step line. *)
Definition block : Type := (string * list string)%type.

Definition render_block (b : block) : list string := fst b :: snd b.

Definition well_formed_block (b : block) : Prop :=
  is_step_line (fst b) = true /\
  Forall (fun l => is_step_line l = false) (snd b).

(** The step a block yields; a block without text lines yields none. *)
Definition steps_of_block (b : block) : list InstructionStep :=
  match body_text (snd b) with
  | [] => []
  | ls => [mkStep (int_value (strip (fst b))) (strip (join " " ls))]
  end.

(** The step line of a block has more digits than [int] accepts. *)
Definition long_step (b : block) : bool := too_long (strip (fst b)).

Definition oven_text : string :=
  join NL ["Cook & enjoy"; "1"; "Preheat oven."; "2"; "Bake for 20 minutes."].

(** A section whose first step number [int] refuses. *)
Definition long_step_text : string :=
  join NL ["Cook & enjoy"; long_number; "Preheat oven."].

(** ** Shape of an ingredient line *)

(** [(...)] around a non-empty text without a closing parenthesis. *)
Definition parenthetical (s : string) : Prop :=
  exists inner,
    s = "(" ++ inner ++ ")" /\ inner <> "" /\
    all (fun c => negb (is_char ")" c)) inner = true.

(** A quantity prefix: numeric characters (digits, [/], [.], white
    space), an optional parenthetical, optional white space, an optional
    unit keyword and an optional plural [s]. *)
Definition quantity_prefix (q : string) : Prop :=
  exists num par ws unit s,
    q = num ++ par ++ ws ++ unit ++ s /\
    num <> "" /\ all numeric_char num = true /\
    (par = "" \/ parenthetical par) /\
    all is_space ws = true /\
    (unit = "" \/ In unit ("cup" :: unit_words)) /\
    (s = "" \/ s = "s").

(** [splits_as line q sep nm]: the line is a quantity prefix, white space
    and a name. *)
Definition splits_as (line q sep nm : string) : Prop :=
  line = q ++ sep ++ nm /\ quantity_prefix q /\
  sep <> "" /\ all is_space sep = true /\
  nm <> "" /\ all not_newline nm = true.

Definition flour_text : string :=
  join NL ["Grab ingredients"; "1 cup flour"; "2 medium carrots";
           "Cook & enjoy"].

(** The same section with white space around the first line. *)
Definition padded_flour_text : string :=
  join NL ["Grab ingredients"; " 1 cup flour "; "Cook & enjoy"].

(** [occurs_in w s]: [w] is a substring of [s]. *)
Definition occurs_in (w s : string) : Prop :=
  exists pre post, s = pre ++ w ++ post.

(** Some keyword of [words] occurs in [s]. *)
Definition mentions (words : list string) (s : string) : Prop :=
  exists w, In w words /\ occurs_in w s.

Definition categories : list string :=
  ["produce"; "protein"; "dairy"; "spices"; "pantry"].

(** ** Batches of files *)

(** The text of a file could be extracted. *)
Definition has_text (extract : string -> string) (pdf_path : string) : bool :=
  negb (String.eqb (extract pdf_path) "").

(** The recipe that a file of the directory gives, if it gives one. *)
Definition recipe_of (extract str_path : string -> string)
           (pdf_file : string) : option Recipe :=
  match snd (parse_recipe_pdf extract (str_path pdf_file)) with
  | Ok (Some recipe) => Some recipe
  | _ => None
  end.

Definition gives_recipe (extract str_path : string -> string)
           (pdf_file : string) : bool :=
  match recipe_of extract str_path pdf_file with
  | Some _ => true
  | None => false
  end.

(** What one turn of the loop of [process_directory] prints for a file. *)
Definition file_events (extract str_path : string -> string)
           (pdf_file : string) : list event :=
  match parse_recipe_pdf extract (str_path pdf_file) with
  | (out, Raise e) => (out ++ [ErrorProcessing pdf_file e])%list
  | (out, Ok _) => out
  end.

(** The directory [in]: the path of the entry with a given name. *)
Definition in_dir (name : string) : string := "in/" ++ name.

Definition option_list {A} (x : option A) : list A :=
  match x with
  | Some a => [a]
  | None => []
  end.

(** A recipe misses one of its essentials. *)
Definition incomplete (r : Recipe) : Prop :=
  r_ingredients r = [] \/ r_instructions r = [].

Definition bare_text : string := "A page without any recipe on it".

Definition bare_extract (pdf_path : string) : string :=
  if String.eqb pdf_path "in/bare.pdf" then bare_text else "".

(** A directory in which [long.pdf] has a text that makes a parser raise. *)
Definition long_extract (pdf_path : string) : string :=
  if String.eqb pdf_path "in/long.pdf" then long_servings_text else "".

(** ** Documents and their validation *)

(** A recipe with the three required fields filled in. *)
Definition complete (r : Recipe) : Prop :=
  r_title r <> "" /\ r_ingredients r <> [] /\ r_instructions r <> [].

Definition count_ingredients (rs : list Recipe) : nat :=
  list_sum (map (fun r => List.length (r_ingredients r)) rs).

Definition count_steps (rs : list Recipe) : nat :=
  list_sum (map (fun r => List.length (r_instructions r)) rs).

(** The validator printed no missing-field message. *)
Definition no_warnings (out : list vevent) : Prop :=
  forall e, In e out ->
            match e with
            | Warnings _ | AndMore _ => False
            | _ => True
            end.

Definition soup_extract (pdf_path : string) : string :=
  if String.eqb pdf_path "in/soup.pdf" then
    join NL ["Creamy Tomato Basil Soup"; "25 minutes, 4 servings";
             "Grab ingredients"; "2 medium tomatoes"; "1 cup cream";
             "Cook & enjoy"; "1"; "Simmer the tomatoes."; "2";
             "Stir in the cream."; ""]
  else "".

(** The document written for a directory that holds [soup.pdf] only. *)
Definition soup_doc : OutputDocument :=
  match written (process_directory soup_extract in_dir true ["soup.pdf"]
                                   "in" "out.json") with
  | Some doc => doc
  | None => mkDocument [] (mkDocMetadata 0 "" "")
  end.

(* ================================================================== *)
(** * Further vocabulary *)
(* ================================================================== *)

(** The characters [strip('-')] removes. *)
Definition is_hyphen (c : ascii) : bool := mem_char c "-".

Definition not_word (c : ascii) : bool := negb (is_word c).

(** ** Sections of the text

    The three section parsers use one pattern frame: an anchor line, then
    the section (a lazy [.*?] with DOTALL in group 1), then a pattern for
    what must follow. *)
Definition re_section (anchor : string) (tail : regex) : regex :=
  Seq (lit anchor)
      (Seq (Cls (is_char NLc)) (Seq (Grp 1 (Star false any_char)) tail)).

(** [section_of anchor ends text sec]: [sec] stands in [text] after the
    first line break that follows the first occurrence of [anchor] and a
    newline, and it is the shortest text there after which [ends] holds. *)
Definition section_of (anchor : string) (ends : string -> Prop)
           (text sec : string) : Prop :=
  exists pre rest,
    text = pre ++ anchor ++ NL ++ sec ++ rest /\
    ends rest /\
    (forall pre' post', text = pre' ++ anchor ++ NL ++ post' ->
                        String.length pre <= String.length pre') /\
    (forall sec' rest', sec ++ rest = sec' ++ rest' -> ends rest' ->
                        String.length sec <= String.length sec').

(** No occurrence of the anchor is followed by an end of section. *)
Definition no_section (anchor : string) (ends : string -> Prop)
           (text : string) : Prop :=
  forall pre sec rest, text = pre ++ anchor ++ NL ++ sec ++ rest -> ~ ends rest.

(** What ends the cookware section: a line break and "Grab ingredients". *)
Definition cookware_ends (s : string) : Prop :=
  exists post, s = NL ++ "Grab ingredients" ++ post.

(** What ends the ingredients section: a line break followed by
    "Cook & enjoy" or by the end of the text (a last newline allowed). *)
Definition ingredients_ends (s : string) : Prop :=
  exists r, s = NL ++ r /\
            ((exists post, r = "Cook & enjoy" ++ post) \/ at_eol r = true).

(** A page footer: a line break, a number, one white space character,
    "of", one white space character and a number. *)
Definition page_footer (s : string) : Prop :=
  exists d1 w1 w2 d2 post,
    s = NL ++ d1 ++ String w1 ("of" ++ String w2 (d2 ++ post)) /\
    d1 <> "" /\ all is_digit d1 = true /\
    is_space w1 = true /\ is_space w2 = true /\
    d2 <> "" /\ all is_digit d2 = true.

(** What ends the instructions section: a page footer or the end of the
    text (a last newline allowed). *)
Definition instructions_ends (s : string) : Prop :=
  page_footer s \/ at_eol s = true.

(** The patterns that follow the section in [re_cookware],
    [re_ingredients] and [re_instructions]. *)
Definition re_cookware_tail : regex :=
  Seq (Cls (is_char NLc)) (lit "Grab ingredients").

Definition re_ingredients_tail : regex :=
  Seq (Cls (is_char NLc)) (Alt (lit "Cook & enjoy") Eol).

Definition re_footer : regex :=
  seqs [Cls (is_char NLc); plus is_digit; Cls is_space; lit "of";
        Cls is_space; plus is_digit].

Definition re_instructions_tail : regex := Alt re_footer Eol.

(** The characters a quantity can start with on a stripped line. *)
Definition starts_number (c : ascii) : bool :=
  is_digit c || is_char "/" c || is_char "." c.

(** A non-empty text without white space at its ends and without a
    newline: what a stripped, non-blank line is. *)
Definition clean_line (l : string) : Prop :=
  l <> "" /\ head_is is_space l = false /\ last_is is_space l = false /\
  all not_newline l = true.

(** ** Order of the files *)

(** Every element precedes the ones after it. *)
Fixpoint ascending (l : list string) : Prop :=
  match l with
  | [] => True
  | x :: rest => Forall (fun y => String.leb x y = true) rest /\ ascending rest
  end.

(** ** What the validator should find *)

(** The required fields a recipe lacks, in the order the validator tests
    them. *)
Definition missing_fields (r : Recipe) : list string :=
  ((if String.eqb (r_title r) "" then ["title"] else [])
   ++ (match r_ingredients r with [] => ["ingredients"] | _ :: _ => [] end)
   ++ (match r_instructions r with [] => ["instructions"] | _ :: _ => [] end))%list.

(** The issue the validator raises for the recipe at index [k]. *)
Definition issue_for (k : nat) (r : Recipe) : Issue :=
  mkIssue (k + 1) (JStr (r_id r)) (missing_fields r).

Fixpoint expected_issues (i : nat) (rs : list Recipe) : list Issue :=
  match rs with
  | [] => []
  | r :: rest =>
      (match missing_fields r with
       | [] => []
       | _ :: _ => [issue_for i r]
       end ++ expected_issues (S i) rest)%list
  end.

(** A value that is a [dict]. *)
Definition is_dict (v : json) : Prop :=
  match v with
  | JDict _ => True
  | _ => False
  end.

(** A value [len] cannot be taken of: [None], a boolean or a number. *)
Definition unsized (v : json) : Prop := py_len v = Raise TypeError.

(* ================================================================== *)
(** * extract_text_from_pdf *)
(* ================================================================== *)

(** What the PDF library gives for a file: [None] when [PdfReader] raises,
    otherwise for each page the text [page.extract_text()] returns, or
    [None] when that call raises. *)
Definition pdf : Type := option (list (option string)).

(** [for page in reader.pages: text += page.extract_text() + "\n"];
    [None] when a page raises. *)
Fixpoint pages_loop (pages : list (option string)) (text : string)
  : option string :=
  match pages with
  | [] => Some text
  | Some page_text :: rest => pages_loop rest (text ++ page_text ++ NL)
  | None :: _ => None
  end.

(** Any exception is caught and turned into the empty text. *)
Definition extract_text_from_pdf (reader : pdf) : string :=
  match reader with
  | None => ""
  | Some pages =>
      match pages_loop pages "" with
      | Some text => text
      | None => ""
      end
  end.

(** A file that opens, has at least one page, and whose pages can all be
    read. *)
Definition readable (reader : pdf) : Prop :=
  exists texts, texts <> [] /\ reader = Some (map Some texts).

(** The text of the pages, each followed by a newline. *)
Fixpoint pages_text (texts : list string) : string :=
  match texts with
  | [] => ""
  | t :: rest => t ++ NL ++ pages_text rest
  end.

(** A library in which [in/blank.pdf] opens and has one page without
    text. *)
Definition blank_library (path : string) : pdf :=
  if String.eqb path "in/blank.pdf" then Some [Some ""] else None.

(** ** Cookware items *)

(** [if item and not item.startswith('Find') and len(item) > 2] *)
Definition kept_item (item : string) : bool :=
  negb (String.eqb item "") && negb (startswith item "Find")
  && Nat.ltb 2 (String.length item).

Definition not_paren (c : ascii) : bool := negb (is_char "(" c).

(** ** Titles made of words *)

(** The ASCII letters, the digits and the underscore. *)
Definition ascii_word_char (c : ascii) : bool :=
  is_digit c || is_ascii_upper c || is_ascii_lower c || is_code 95 c.

(** A non-empty run of ASCII letters, digits and underscores. *)
Definition word (w : string) : Prop :=
  w <> "" /\ all ascii_word_char w = true.

(** ** Priority of the categories *)

Definition category_rank (c : string) : nat :=
  if String.eqb c "produce" then 0
  else if String.eqb c "protein" then 1
  else if String.eqb c "dairy" then 2
  else if String.eqb c "spices" then 3
  else 4.

(* ================================================================== *)
(** * Facts about strings *)
(* ================================================================== *)

Ltac each_char c :=
  destruct c as [[] [] [] [] [] [] [] []]; vm_compute; try reflexivity;
  try discriminate; auto.

Lemma all_impl (p q : ascii -> bool) s :
  (forall c, p c = true -> q c = true) -> all p s = true -> all q s = true.
Proof.
  intros H; induction s as [|c s IH]; simpl; auto.
  rewrite !andb_true_iff; intros [Hc Hs]; auto.
Qed.

Lemma all_and (p q : ascii -> bool) s :
  all p s = true -> all q s = true -> all (fun c => p c && q c) s = true.
Proof.
  induction s as [|c s IH]; simpl; auto.
  rewrite !andb_true_iff; intros [? ?] [? ?]; auto.
Qed.

Lemma all_app p s t : all p (s ++ t) = all p s && all p t.
Proof.
  induction s as [|c s IH]; simpl; auto. now rewrite IH, andb_assoc.
Qed.

Lemma all_filter p s : all p (str_filter p s) = true.
Proof.
  induction s as [|c s IH]; simpl; auto.
  destruct (p c) eqn:E; simpl; auto. now rewrite E.
Qed.

Lemma all_filter_keeps p q s :
  all q s = true -> all q (str_filter p s) = true.
Proof.
  induction s as [|c s IH]; simpl; auto.
  rewrite andb_true_iff; intros [Hc Hs].
  destruct (p c); simpl; auto. now rewrite Hc, IH.
Qed.

Lemma lower_char_not_upper c : is_upper (lower_char c) = false.
Proof. each_char c. Qed.

Lemma lower_char_ascii c :
  is_ascii_char c = true -> is_ascii_char (lower_char c) = true.
Proof. each_char c. Qed.

Lemma all_lower_not_upper s : all (fun c => negb (is_upper c)) (lower s) = true.
Proof.
  induction s as [|c s IH]; simpl; auto.
  now rewrite lower_char_not_upper, IH.
Qed.

Lemma all_lower_ascii s :
  all is_ascii_char s = true -> all is_ascii_char (lower s) = true.
Proof.
  induction s as [|c s IH]; simpl; auto.
  rewrite !andb_true_iff; intros [? ?]; auto using lower_char_ascii.
Qed.

Lemma all_lstrip p q s : all q s = true -> all q (lstrip_by p s) = true.
Proof.
  induction s as [|c s IH]; simpl; auto.
  rewrite andb_true_iff; intros [Hc Hs].
  destruct (p c); simpl; auto. now rewrite Hc, Hs.
Qed.

Lemma all_rstrip p q s : all q s = true -> all q (rstrip_by p s) = true.
Proof.
  induction s as [|c s IH]; simpl; auto.
  rewrite andb_true_iff; intros [Hc Hs]. specialize (IH Hs).
  destruct (rstrip_by p s) as [|d r].
  - destruct (p c); simpl; auto. now rewrite Hc.
  - cbn [all] in *. now rewrite Hc, IH.
Qed.

Lemma head_lstrip p s : head_is p (lstrip_by p s) = false.
Proof.
  induction s as [|c s IH]; simpl; auto.
  destruct (p c) eqn:E; simpl; auto.
Qed.

Lemma last_rstrip p s : last_is p (rstrip_by p s) = false.
Proof.
  induction s as [|c s IH]; simpl; auto.
  destruct (rstrip_by p s) as [|d r] eqn:E.
  - destruct (p c) eqn:Ec; simpl; auto.
  - cbn [last_is]. exact IH.
Qed.

Lemma head_rstrip p s : head_is p s = false -> head_is p (rstrip_by p s) = false.
Proof.
  destruct s as [|c s]; simpl; auto. intros Hc.
  destruct (rstrip_by p s); [rewrite Hc|]; simpl; auto.
Qed.

Lemma no_hyphen_pair_tail c s :
  no_hyphen_pair (String c s) = true -> no_hyphen_pair s = true.
Proof.
  destruct s as [|d s]; auto. cbn [no_hyphen_pair].
  rewrite andb_true_iff; tauto.
Qed.

Lemma no_hyphen_pair_lstrip p s :
  no_hyphen_pair s = true -> no_hyphen_pair (lstrip_by p s) = true.
Proof.
  induction s as [|c s IH]; auto. intros H. simpl.
  destruct (p c); auto. apply IH. eapply no_hyphen_pair_tail; eauto.
Qed.

Lemma rstrip_head p c s :
  rstrip_by p (String c s) = "" \/
  exists r, rstrip_by p (String c s) = String c r.
Proof.
  simpl. destruct (rstrip_by p s).
  - destruct (p c); eauto.
  - eauto.
Qed.

Lemma no_hyphen_pair_rstrip p s :
  no_hyphen_pair s = true -> no_hyphen_pair (rstrip_by p s) = true.
Proof.
  induction s as [|c s IH]; auto. intros H.
  pose proof (no_hyphen_pair_tail _ _ H) as Ht. specialize (IH Ht).
  destruct s as [|d s].
  - simpl. destruct (p c); auto.
  - destruct (rstrip_head p d s) as [E|[r E]].
    + cbn [rstrip_by] in *. rewrite E. destruct (p c); auto.
    + change (rstrip_by p (String c (String d s)))
        with (match rstrip_by p (String d s) with
              | "" => if p c then "" else String c ""
              | r => String c r
              end).
      rewrite E in *. cbn [no_hyphen_pair] in *.
      apply andb_true_iff in H as [H _]. now rewrite H, IH.
Qed.

(* ================================================================== *)
(** * Facts about the matcher *)
(* ================================================================== *)

Lemma succ_minus pos n : S pos + n - pos = S n.
Proof. lia. Qed.

Lemma re_sub_cls p s pos :
  sub_from (Cls p) "" pos 0 s = str_filter (fun c => negb (p c)) s.
Proof.
  revert pos; induction s as [|c s IH]; intros pos.
  - reflexivity.
  - cbn [sub_from match_at run str_filter].
    destruct (p c); cbn [negb m_end].
    + replace (S pos - pos) with 1 by lia. cbn [append]. apply IH.
    + now rewrite IH.
Qed.

(** A greedy repetition whose continuation accepts everything takes the
    whole run. *)
Lemma star_greedy_all p pos0 s pos g :
  star_greedy p (fun pos' _ g' => Some (mkMatch pos0 pos' g')) pos s g
  = Some (mkMatch pos0 (pos + span_len p s) g).
Proof.
  revert pos; induction s as [|c s IH]; intros pos; cbn [star_greedy span_len].
  - now rewrite Nat.add_0_r.
  - destruct (p c).
    + rewrite IH. now rewrite Nat.add_succ_r.
    + now rewrite Nat.add_0_r.
Qed.

Lemma match_at_plus p pos c s :
  match_at (plus p) pos (String c s)
  = if p c then Some (mkMatch pos (S pos + span_len p s) []) else None.
Proof.
  unfold match_at, plus. cbn [run].
  destruct (p c); auto. apply star_greedy_all.
Qed.

Lemma sub_hyphen_run s :
  forall pos,
    sub_from re_hyphen_run "-" pos 0 s = collapse false s /\
    sub_from re_hyphen_run "-" pos (span_len hyphen_or_space s) s
    = collapse true s.
Proof.
  induction s as [|c s IH]; intros pos.
  - split; reflexivity.
  - assert (H0 : sub_from re_hyphen_run "-" pos 0 (String c s)
                 = collapse false (String c s)).
    { cbn [sub_from collapse]. unfold re_hyphen_run.
      rewrite match_at_plus.
      destruct (hyphen_or_space c).
      - cbn [m_end]. rewrite succ_minus.
        cbn [append]. f_equal. apply IH.
      - f_equal. apply IH. }
    split; [exact H0|].
    cbn [span_len]. destruct (hyphen_or_space c) eqn:E.
    + cbn [sub_from collapse]. rewrite E. apply IH.
    + rewrite H0. cbn [collapse]. now rewrite E.
Qed.

Lemma collapse_head b s :
  b = true -> head_is (is_char hyphen) (collapse b s) = false.
Proof.
  intros ->. induction s as [|c s IH]; simpl; auto.
  destruct (hyphen_or_space c) eqn:E; simpl; auto.
  unfold hyphen_or_space in E. apply orb_false_iff in E. tauto.
Qed.

Lemma no_hyphen_pair_cons c s :
  no_hyphen_pair (String c s)
  = negb (is_char hyphen c && head_is (is_char hyphen) s) && no_hyphen_pair s.
Proof.
  destruct s as [|d r]; cbn [no_hyphen_pair head_is]; auto.
  now rewrite andb_false_r.
Qed.

Lemma collapse_no_pair b s : no_hyphen_pair (collapse b s) = true.
Proof.
  revert b; induction s as [|c s IH]; intros b; [reflexivity|].
  cbn [collapse]. destruct (hyphen_or_space c) eqn:E.
  - destruct b; auto.
    rewrite no_hyphen_pair_cons, IH, (collapse_head true s eq_refl).
    now rewrite andb_false_r.
  - rewrite no_hyphen_pair_cons, IH.
    unfold hyphen_or_space in E. apply orb_false_iff in E as [-> _].
    reflexivity.
Qed.

Lemma collapse_chars (q : ascii -> bool) b s :
  q hyphen = true ->
  all (fun c => hyphen_or_space c || q c) s = true ->
  all q (collapse b s) = true.
Proof.
  intros Hh. revert b; induction s as [|c s IH]; intros b; simpl; auto.
  rewrite andb_true_iff; intros [Hc Hs].
  destruct (hyphen_or_space c) eqn:E.
  - destruct b; auto. simpl. now rewrite Hh, IH.
  - simpl in *. now rewrite Hc, IH.
Qed.

Lemma head_is_false p s c rest :
  head_is p s = false -> p c = true -> s <> String c rest.
Proof. intros H Hc ->. simpl in H. congruence. Qed.

Lemma last_is_snoc p front c : last_is p (front ++ String c "") = p c.
Proof.
  induction front as [|d front IH]; auto.
  cbn [append last_is]. rewrite <- IH.
  destruct front; reflexivity.
Qed.

Lemma last_is_false p s c front :
  last_is p s = false -> p c = true -> s <> front ++ String c "".
Proof. intros H Hc ->. rewrite last_is_snoc in H. congruence. Qed.

Lemma no_hyphen_pair_false s front rest :
  no_hyphen_pair s = true -> s <> front ++ "--" ++ rest.
Proof.
  intros H ->. induction front as [|c front IH].
  - cbn in H. discriminate.
  - apply IH. eapply no_hyphen_pair_tail. exact H.
Qed.

(* ================================================================== *)
(** * generate_recipe_id: the shape of an identifier *)
(* ================================================================== *)

Lemma generate_recipe_id_unfold title :
  generate_recipe_id title
  = strip_chars "-"
      (collapse false
         (str_filter (fun c => negb (non_slug_char c)) (lower title))).
Proof.
  unfold generate_recipe_id, re_sub, re_non_slug.
  rewrite re_sub_cls. now rewrite (proj1 (sub_hyphen_run _ 0)).
Qed.

Lemma kept_char_slug c :
  negb (non_slug_char c) && negb (is_upper c) = true ->
  hyphen_or_space c || slug_char c = true.
Proof. each_char c. Qed.

Lemma kept_char_ascii_slug c :
  is_ascii_char c && (negb (non_slug_char c) && negb (is_upper c)) = true ->
  hyphen_or_space c || ascii_slug_char c = true.
Proof. each_char c. Qed.

Lemma strip_chars_all q chars s :
  all q s = true -> all q (strip_chars chars s) = true.
Proof. intros H. apply all_rstrip, all_lstrip, H. Qed.

(** C1, the counterexample: an underscore is a word character, so it
    survives both substitutions and the identifier leaves [[a-z0-9-]]. *)
Lemma generate_recipe_id_keeps_underscore :
  generate_recipe_id "a_b" = "a_b" /\
  all plain_slug_char (generate_recipe_id "a_b") = false.
Proof. split; reflexivity. Qed.

(** C1, as amended: for every title the identifier consists of word
    characters that are not upper case and of hyphens (for a title of
    ASCII characters: of [[a-z0-9_-]]), it neither starts nor ends with a
    hyphen and it has no two hyphens in a row. *)
Theorem generate_recipe_id_slug (title : string) :
  let id := generate_recipe_id title in
  all slug_char id = true /\
  (all is_ascii_char title = true -> all ascii_slug_char id = true) /\
  (forall rest, id <> String hyphen rest) /\
  (forall front, id <> front ++ "-") /\
  (forall front rest, id <> front ++ "--" ++ rest).
Proof.
  cbv zeta. rewrite generate_recipe_id_unfold.
  set (kept := str_filter (fun c => negb (non_slug_char c)) (lower title)).
  assert (Hkept : all (fun c => negb (non_slug_char c) && negb (is_upper c))
                      kept = true).
  { apply all_and; [apply all_filter|].
    apply all_filter_keeps, all_lower_not_upper. }
  repeat split.
  - apply strip_chars_all, collapse_chars; [reflexivity|].
    eapply all_impl; [|exact Hkept]. exact kept_char_slug.
  - intros Hascii.
    apply strip_chars_all, collapse_chars; [reflexivity|].
    eapply all_impl; [exact kept_char_ascii_slug|].
    apply all_and; [|exact Hkept].
    apply all_filter_keeps, all_lower_ascii, Hascii.
  - intros rest. apply head_is_false with (p := fun c => mem_char c "-");
      [|reflexivity].
    apply head_rstrip, head_lstrip.
  - intros front. apply last_is_false with (p := fun c => mem_char c "-");
      [|reflexivity].
    apply last_rstrip.
  - intros front rest. apply no_hyphen_pair_false.
    apply no_hyphen_pair_rstrip, no_hyphen_pair_lstrip, collapse_no_pair.
Qed.

Lemma generate_recipe_id_slug_witness :
  all is_ascii_char "Lemon Pie_2 -- (easy)" = true /\
  all ascii_slug_char (generate_recipe_id "Lemon Pie_2 -- (easy)") = true.
Proof.
  split; [reflexivity|].
  apply (proj1 (proj2 (generate_recipe_id_slug "Lemon Pie_2 -- (easy)"))).
  reflexivity.
Defined.

(* ================================================================== *)
(** * The matcher is sound and complete for [Matches] *)
(* ================================================================== *)

Lemma append_assoc_s (a b c : string) : (a ++ b) ++ c = a ++ (b ++ c).
Proof. induction a as [|x a IH]; simpl; congruence. Qed.

Lemma append_nil_r (a : string) : a ++ "" = a.
Proof. induction a as [|x a IH]; simpl; congruence. Qed.

Lemma length_append (a b : string) :
  String.length (a ++ b) = String.length a + String.length b.
Proof. induction a as [|x a IH]; simpl; congruence. Qed.

Lemma take_app (a b : string) : substring 0 (String.length a) (a ++ b) = a.
Proof.
  induction a as [|x a IH]; simpl.
  - destruct b; reflexivity.
  - now rewrite IH.
Qed.

Section MatcherCorrect.
Variable A : Type.
Implicit Types k : cont A.

Lemma star_greedy_sound p k s : forall pos g x,
  star_greedy p k pos s g = Some x ->
  exists m rest, s = m ++ rest /\ all p m = true /\
                 k (pos + String.length m) rest g = Some x.
Proof.
  induction s as [|c s IH]; intros pos g x H; cbn [star_greedy] in H.
  - exists "", "". rewrite Nat.add_0_r. auto.
  - assert (Hstop : k pos (String c s) g = Some x ->
                    exists m rest, String c s = m ++ rest /\ all p m = true /\
                                   k (pos + String.length m) rest g = Some x).
    { intros Hk. exists "", (String c s). rewrite Nat.add_0_r. auto. }
    destruct (p c) eqn:Hc; auto.
    destruct (star_greedy p k (S pos) s g) eqn:Hin; auto.
    injection H as ->.
    destruct (IH _ _ _ Hin) as (m & rest & -> & Hm & Hk).
    exists (String c m), rest. cbn [append all String.length].
    rewrite Hc, Hm, Nat.add_succ_r. auto.
Qed.

Lemma star_greedy_complete p k s : forall pos g,
  star_greedy p k pos s g = None ->
  forall m rest, s = m ++ rest -> all p m = true ->
                 k (pos + String.length m) rest g = None.
Proof.
  induction s as [|c s IH]; intros pos g H m rest E Hm;
    cbn [star_greedy] in H.
  - destruct m; [|discriminate]. simpl in E. subst rest.
    now rewrite Nat.add_0_r.
  - destruct m as [|d m].
    + simpl in E. subst rest. rewrite Nat.add_0_r.
      destruct (p c); auto.
      destruct (star_greedy p k (S pos) s g); [discriminate|auto].
    + cbn [append] in E. injection E as <- ->.
      cbn [all] in Hm. apply andb_true_iff in Hm as [Hc Hm].
      rewrite Hc in H.
      destruct (star_greedy p k (S pos) (m ++ rest) g) eqn:Hin;
        [discriminate|].
      cbn [String.length]. rewrite Nat.add_succ_r.
      exact (IH _ _ Hin m rest eq_refl Hm).
Qed.

Lemma star_lazy_sound p k s : forall pos g x,
  star_lazy p k pos s g = Some x ->
  exists m rest, s = m ++ rest /\ all p m = true /\
                 k (pos + String.length m) rest g = Some x.
Proof.
  induction s as [|c s IH]; intros pos g x H; cbn [star_lazy] in H.
  - exists "", "". rewrite Nat.add_0_r.
    destruct (k pos "" g); [auto|discriminate].
  - destruct (k pos (String c s) g) eqn:Hk.
    + exists "", (String c s). rewrite Nat.add_0_r, Hk. auto.
    + destruct (p c) eqn:Hc; [|discriminate].
      destruct (IH _ _ _ H) as (m & rest & -> & Hm & Hk').
      exists (String c m), rest. cbn [append all String.length].
      rewrite Hc, Hm, Nat.add_succ_r. auto.
Qed.

Lemma star_lazy_complete p k s : forall pos g,
  star_lazy p k pos s g = None ->
  forall m rest, s = m ++ rest -> all p m = true ->
                 k (pos + String.length m) rest g = None.
Proof.
  induction s as [|c s IH]; intros pos g H m rest E Hm;
    cbn [star_lazy] in H.
  - destruct m; [|discriminate]. simpl in E. subst rest.
    rewrite Nat.add_0_r. destruct (k pos "" g); [discriminate|auto].
  - destruct (k pos (String c s) g) eqn:Hk; [discriminate|].
    destruct m as [|d m].
    + simpl in E. subst rest. now rewrite Nat.add_0_r.
    + cbn [append] in E. injection E as <- ->.
      cbn [all] in Hm. apply andb_true_iff in Hm as [Hc Hm].
      rewrite Hc in H.
      cbn [String.length]. rewrite Nat.add_succ_r.
      exact (IH _ _ H m rest eq_refl Hm).
Qed.

(** Whatever [run] returns comes from a continuation called after a
    match of the pattern. *)
Theorem run_sound r : forall k pos s g x,
  run r k pos s g = Some x ->
  exists m rest gs,
    s = m ++ rest /\ Matches r pos m rest gs /\
    k (pos + String.length m) rest (gs ++ g)%list = Some x.
Proof.
  induction r as [|p|r1 IH1 r2 IH2|r1 IH1 r2 IH2|b p|n r IH| |];
    intros k pos s g x H; cbn [run] in H.
  - exists "", s, []. rewrite Nat.add_0_r. repeat split; auto. constructor.
  - destruct s as [|c s]; [discriminate|].
    destruct (p c) eqn:Hc; [|discriminate].
    exists (String c ""), s, []. cbn [String.length].
    rewrite Nat.add_1_r. repeat split; auto. now constructor.
  - destruct (IH1 _ _ _ _ _ H) as (m1 & rest1 & gs1 & -> & M1 & H1).
    destruct (IH2 _ _ _ _ _ H1) as (m2 & rest & gs2 & -> & M2 & H2).
    exists (m1 ++ m2), rest, (gs2 ++ gs1)%list.
    rewrite append_assoc_s, length_append, Nat.add_assoc, <- app_assoc.
    repeat split; auto. now constructor.
  - destruct (run r1 k pos s g) eqn:E1.
    + injection H as ->.
      destruct (IH1 _ _ _ _ _ E1) as (m & rest & gs & -> & M & Hk).
      exists m, rest, gs. repeat split; auto. now apply MAltL.
    + destruct (IH2 _ _ _ _ _ H) as (m & rest & gs & -> & M & Hk).
      exists m, rest, gs. repeat split; auto. now apply MAltR.
  - assert (Hs : exists m rest, s = m ++ rest /\ all p m = true /\
                                k (pos + String.length m) rest g = Some x).
    { destruct b; [eapply star_greedy_sound|eapply star_lazy_sound]; eauto. }
    destruct Hs as (m & rest & -> & Hm & Hk).
    exists m, rest, []. repeat split; auto. now constructor.
  - destruct (IH _ _ _ _ _ H) as (m & rest & gs & -> & M & Hk).
    exists m, rest, ((n, m) :: gs). repeat split; auto.
    + now constructor.
    + replace (pos + String.length m - pos) with (String.length m) in Hk
        by lia.
      now rewrite take_app in Hk.
  - destruct (Nat.eqb pos 0) eqn:E; [|discriminate].
    apply Nat.eqb_eq in E. subst pos.
    exists "", s, []. repeat split; auto. constructor.
  - destruct (at_eol s) eqn:E; [|discriminate].
    exists "", s, []. rewrite Nat.add_0_r. repeat split; auto.
    now constructor.
Qed.

(** When [run] fails, every match of the pattern leads to a failing
    continuation: backtracking tries them all. *)
Theorem run_complete r : forall k pos s g,
  run r k pos s g = None ->
  forall m rest gs,
    s = m ++ rest -> Matches r pos m rest gs ->
    k (pos + String.length m) rest (gs ++ g)%list = None.
Proof.
  induction r as [|p|r1 IH1 r2 IH2|r1 IH1 r2 IH2|b p|n r IH| |];
    intros k pos s g H m rest gs E M; cbn [run] in H;
    inversion M; subst; clear M.
  - now rewrite Nat.add_0_r.
  - cbn [append] in H. cbn [String.length]. rewrite Nat.add_1_r.
    match goal with Hc : p _ = true |- _ => now rewrite Hc in H end.
  - rewrite append_assoc_s in H.
    rewrite length_append, Nat.add_assoc, <- app_assoc.
    eapply IH2; eauto.
  - destruct (run r1 k pos (m ++ rest) g) eqn:E1; [discriminate|].
    eapply IH1; eauto.
  - destruct (run r1 k pos (m ++ rest) g) eqn:E1; [discriminate|].
    eapply IH2; eauto.
  - destruct b;
      [eapply star_greedy_complete|eapply star_lazy_complete]; eauto.
  - match goal with M' : Matches r _ _ _ _ |- _ =>
      pose proof (IH _ _ _ _ H _ _ _ eq_refl M') as Hk end.
    cbv beta in Hk.
    replace (pos + String.length m - pos) with (String.length m) in Hk
      by lia.
    now rewrite take_app in Hk.
  - exact H.
  - rewrite Nat.add_0_r. cbn [append] in H.
    match goal with He : at_eol _ = true |- _ => now rewrite He in H end.
Qed.
End MatcherCorrect.

Lemma match_at_sound r pos s m :
  match_at r pos s = Some m ->
  exists mt rest,
    s = mt ++ rest /\ Matches r pos mt rest (m_groups m) /\
    m_start m = pos /\ m_end m = pos + String.length mt.
Proof.
  unfold match_at. intros H.
  destruct (run_sound _ _ _ _ _ _ _ H) as (mt & rest & gs & -> & M & Hk).
  injection Hk as <-. rewrite app_nil_r. cbn. eauto 7.
Qed.

Lemma match_at_complete r pos s :
  match_at r pos s = None ->
  forall mt rest gs, s = mt ++ rest -> ~ Matches r pos mt rest gs.
Proof.
  unfold match_at. intros H mt rest gs E M.
  pose proof (run_complete _ _ _ _ _ _ H _ _ _ E M) as Hk. discriminate.
Qed.

(** [re.search] returns a match, and the leftmost one. *)
Lemma search_from_sound r s : forall pos m,
  search_from r pos s = Some m ->
  exists pre mt rest,
    s = pre ++ mt ++ rest /\
    Matches r (pos + String.length pre) mt rest (m_groups m) /\
    m_start m = pos + String.length pre /\
    m_end m = pos + String.length pre + String.length mt /\
    forall pre' mt' rest' gs',
      s = pre' ++ mt' ++ rest' -> String.length pre' < String.length pre ->
      ~ Matches r (pos + String.length pre') mt' rest' gs'.
Proof.
  induction s as [|c s IH]; intros pos m H; cbn [search_from] in H.
  - destruct (match_at r pos "") eqn:E; [|discriminate]. injection H as ->.
    destruct (match_at_sound _ _ _ _ E) as (mt & rest & E' & M & Hs & He).
    exists "", mt, rest. cbn [append String.length]. rewrite Nat.add_0_r.
    repeat split; auto. intros ? ? ? ? _ Hlt. inversion Hlt.
  - destruct (match_at r pos (String c s)) eqn:E.
    + injection H as ->.
      destruct (match_at_sound _ _ _ _ E) as (mt & rest & E' & M & Hs & He).
      exists "", mt, rest. cbn [append String.length]. rewrite Nat.add_0_r.
      repeat split; auto. intros ? ? ? ? _ Hlt. inversion Hlt.
    + destruct (IH _ _ H) as (pre & mt & rest & -> & M & Hs & He & Hleft).
      exists (String c pre), mt, rest. cbn [append String.length].
      rewrite Nat.add_succ_r. repeat split; auto.
      intros pre' mt' rest' gs' E' Hlt M'.
      destruct pre' as [|c' pre'].
      * cbn [append String.length] in *. rewrite Nat.add_0_r in M'.
        exact (match_at_complete _ _ _ E _ _ _ E' M').
      * cbn [append String.length] in *. injection E' as _ E'.
        rewrite Nat.add_succ_r in M'.
        apply (Hleft pre' mt' rest' gs' E'); [lia|exact M'].
Qed.

Lemma search_from_complete r s : forall pos,
  search_from r pos s = None ->
  forall pre mt rest gs,
    s = pre ++ mt ++ rest -> ~ Matches r (pos + String.length pre) mt rest gs.
Proof.
  induction s as [|c s IH]; intros pos H pre mt rest gs E M;
    cbn [search_from] in H;
    destruct (match_at r pos _) eqn:Em; try discriminate.
  - destruct pre; [|discriminate]. cbn [append String.length] in *.
    rewrite Nat.add_0_r in M. exact (match_at_complete _ _ _ Em _ _ _ E M).
  - destruct pre as [|c' pre]; cbn [append String.length] in *.
    + rewrite Nat.add_0_r in M. exact (match_at_complete _ _ _ Em _ _ _ E M).
    + injection E as _ E. rewrite Nat.add_succ_r in M.
      exact (IH _ H pre mt rest gs E M).
Qed.

(** ** Shapes of the building blocks *)

Lemma Matches_eps_inv pos m rest gs :
  Matches Eps pos m rest gs -> m = "" /\ gs = [].
Proof. intros M; inversion M; auto. Qed.

Lemma Matches_cls_inv p pos m rest gs :
  Matches (Cls p) pos m rest gs ->
  exists c, m = String c "" /\ p c = true /\ gs = [].
Proof. intros M; inversion M; eauto. Qed.

Lemma Matches_seq_inv r1 r2 pos m rest gs :
  Matches (Seq r1 r2) pos m rest gs ->
  exists m1 m2 gs1 gs2,
    m = m1 ++ m2 /\ gs = (gs2 ++ gs1)%list /\
    Matches r1 pos m1 (m2 ++ rest) gs1 /\
    Matches r2 (pos + String.length m1) m2 rest gs2.
Proof. intros M; inversion M; subst. eauto 10. Qed.

Lemma Matches_alt_inv r1 r2 pos m rest gs :
  Matches (Alt r1 r2) pos m rest gs ->
  Matches r1 pos m rest gs \/ Matches r2 pos m rest gs.
Proof. intros M; inversion M; auto. Qed.

Lemma Matches_grp_inv n r pos m rest gs :
  Matches (Grp n r) pos m rest gs ->
  exists gs', gs = (n, m) :: gs' /\ Matches r pos m rest gs'.
Proof. intros M; inversion M; eauto. Qed.

Lemma Matches_bol_inv pos m rest gs :
  Matches Bol pos m rest gs -> pos = 0 /\ m = "" /\ gs = [].
Proof. intros M; inversion M; auto. Qed.

Lemma Matches_eol_inv pos m rest gs :
  Matches Eol pos m rest gs -> at_eol rest = true /\ m = "" /\ gs = [].
Proof. intros M; inversion M; auto. Qed.

Lemma Matches_lit_inv w : forall pos m rest gs,
  Matches (lit w) pos m rest gs -> m = w /\ gs = [].
Proof.
  induction w as [|c w IH]; intros pos m rest gs M; cbn [lit] in M;
    inversion M; subst; auto.
  match goal with M1 : Matches (Cls _) _ _ _ _ |- _ =>
    inversion M1; subst end.
  match goal with M2 : Matches (lit w) _ _ _ _ |- _ =>
    destruct (IH _ _ _ _ M2) as [-> ->] end.
  match goal with Hc : Ascii.eqb _ _ = true |- _ =>
    apply Ascii.eqb_eq in Hc; subst end.
  auto.
Qed.

Lemma Matches_lit w : forall pos rest, Matches (lit w) pos w rest [].
Proof.
  induction w as [|c w IH]; intros pos rest; cbn [lit].
  - constructor.
  - change (String c w) with (String c "" ++ w).
    change (@nil (nat * string)) with (([] : captures) ++ [])%list.
    constructor; [constructor; apply Ascii.eqb_refl|apply IH].
Qed.

Lemma Matches_plus_inv p pos m rest gs :
  Matches (plus p) pos m rest gs -> m <> "" /\ all p m = true /\ gs = [].
Proof.
  intros M. unfold plus in M. inversion M; subst.
  match goal with M1 : Matches (Cls _) _ _ _ _ |- _ => inversion M1; subst end.
  match goal with M2 : Matches (Star _ _) _ _ _ _ |- _ => inversion M2; subst end.
  cbn [append all]. repeat split; auto; try discriminate.
  apply andb_true_iff; auto.
Qed.

Lemma Matches_plus p pos m rest :
  m <> "" -> all p m = true -> Matches (plus p) pos m rest [].
Proof.
  intros Hne Hm. destruct m as [|c m]; [congruence|].
  cbn [all] in Hm. apply andb_true_iff in Hm as [Hc Hm].
  change (String c m) with (String c "" ++ m).
  change (@nil (nat * string)) with (([] : captures) ++ [])%list.
  constructor; now constructor.
Qed.

Lemma Matches_star_inv b p pos m rest gs :
  Matches (Star b p) pos m rest gs -> all p m = true /\ gs = [].
Proof. intros M; inversion M; subst; auto. Qed.

Lemma Matches_number_then_inv tail pos m rest gs :
  Matches (re_number_then tail) pos m rest gs ->
  exists d ws t gst,
    m = d ++ ws ++ t /\ gs = (gst ++ [(1, d)])%list /\
    d <> "" /\ all is_digit d = true /\ all is_space ws = true /\
    Matches tail (pos + String.length d + String.length ws) t rest gst.
Proof.
  intros M. unfold re_number_then in M. inversion M; subst.
  match goal with M1 : Matches (Grp _ _) _ _ _ _ |- _ => inversion M1; subst end.
  match goal with M1 : Matches (plus _) _ _ _ _ |- _ =>
    apply Matches_plus_inv in M1 as (Hne & Hd & ->) end.
  match goal with M2 : Matches (Seq (Star _ _) _) _ _ _ _ |- _ =>
    inversion M2; subst end.
  match goal with M3 : Matches (Star _ _) _ _ _ _ |- _ =>
    apply Matches_star_inv in M3 as (Hws & ->) end.
  rewrite app_nil_r. eauto 12.
Qed.

Lemma Matches_number_then tail pos d ws t rest gst :
  d <> "" -> all is_digit d = true -> all is_space ws = true ->
  Matches tail (pos + String.length d + String.length ws) t rest gst ->
  Matches (re_number_then tail) pos (d ++ ws ++ t) rest (gst ++ [(1, d)])%list.
Proof.
  intros Hne Hd Hws Mt. unfold re_number_then.
  constructor.
  - constructor. now apply Matches_plus.
  - rewrite <- (app_nil_r gst). constructor; [now constructor|exact Mt].
Qed.

Lemma last_is_true_inv p s :
  last_is p s = true -> exists s0 c, s = s0 ++ String c "" /\ p c = true.
Proof.
  induction s as [|c s IH]; [discriminate|].
  destruct s as [|d s].
  - intros H. exists "", c. auto.
  - intros H. destruct (IH H) as (s0 & e & E & He).
    exists (String c s0), e. cbn [append]. rewrite <- E. auto.
Qed.

Section NumberThen.
Variables (tail : regex) (word : string).
Hypothesis tail_inv : forall pos t rest gst,
  Matches tail pos t rest gst -> gst = [] /\ exists u, t = word ++ u.
Hypothesis tail_word : forall pos rest, Matches tail pos word rest [].

Lemma search_number_some line m :
  re_search (re_number_then tail) line = Some m ->
  number_before word line (group 1 m).
Proof.
  intros H. apply search_from_sound in H
    as (pre & mt & rest & -> & M & _ & _ & Hleft).
  apply Matches_number_then_inv in M
    as (d & ws & t & gst & -> & Hg & Hne & Hd & Hws & Mt).
  destruct (tail_inv _ _ _ _ Mt) as (-> & u & ->).
  unfold group. rewrite Hg. cbn [app lookup Nat.eqb].
  exists pre, ws, (u ++ rest). repeat split; auto.
  - now rewrite !append_assoc_s.
  - destruct (last_is is_digit pre) eqn:El; auto. exfalso.
    apply last_is_true_inv in El as (pre0 & c & -> & Hc).
    apply (Hleft pre0 (String c d ++ ws ++ word) (u ++ rest) [(1, String c d)]).
    + rewrite !append_assoc_s. reflexivity.
    + rewrite length_append. cbn. lia.
    + apply (Matches_number_then tail _ (String c d) ws word (u ++ rest) []).
      * discriminate.
      * cbn [all]. now rewrite Hc, Hd.
      * exact Hws.
      * apply tail_word.
Qed.

Lemma search_number_none line :
  re_search (re_number_then tail) line = None ->
  forall d, ~ number_before word line d.
Proof.
  intros H d (pre & ws & post & -> & Hne & Hd & Hws & _).
  apply (search_from_complete _ _ _ H pre (d ++ ws ++ word) post [(1, d)]).
  - now rewrite !append_assoc_s.
  - apply (Matches_number_then tail _ d ws word post []); auto.
Qed.
End NumberThen.

Lemma search_time_some line m :
  re_search re_time line = Some m -> number_before "minutes" line (group 1 m).
Proof.
  apply (search_number_some (lit "minutes")).
  - intros pos t rest gst M. apply Matches_lit_inv in M as [-> ->].
    split; auto. exists "". reflexivity.
  - intros. apply Matches_lit.
Qed.

Lemma search_time_none line :
  re_search re_time line = None -> forall d, ~ number_before "minutes" line d.
Proof.
  apply (search_number_none (lit "minutes")). intros. apply Matches_lit.
Qed.

Lemma Matches_serving_inv pos t rest gst :
  Matches (Seq (lit "serving") (opt (lit "s"))) pos t rest gst ->
  gst = [] /\ exists u, t = "serving" ++ u.
Proof.
  intros M.
  apply Matches_seq_inv in M as (m1 & m2 & gs1 & gs2 & -> & -> & M1 & M2).
  apply Matches_lit_inv in M1 as [-> ->].
  apply Matches_alt_inv in M2 as [M2|M2].
  - apply Matches_lit_inv in M2 as [-> ->]. eauto.
  - apply Matches_eps_inv in M2 as [-> ->]. eauto.
Qed.

Lemma Matches_serving pos rest :
  Matches (Seq (lit "serving") (opt (lit "s"))) pos "serving" rest [].
Proof.
  change "serving" with ("serving" ++ "") at 2.
  change (@nil (nat * string)) with (([] : captures) ++ [])%list.
  constructor; [apply Matches_lit|]. apply MAltR. constructor.
Qed.

Lemma search_servings_some line m :
  re_search re_servings line = Some m ->
  number_before "serving" line (group 1 m).
Proof.
  apply (search_number_some (Seq (lit "serving") (opt (lit "s")))).
  - exact Matches_serving_inv.
  - exact Matches_serving.
Qed.

Lemma search_servings_none line :
  re_search re_servings line = None ->
  forall d, ~ number_before "serving" line d.
Proof.
  apply (search_number_none (Seq (lit "serving") (opt (lit "s")))).
  exact Matches_serving.
Qed.

Lemma prefix_spec w s : prefix w s = true <-> exists post, s = w ++ post.
Proof.
  revert s; induction w as [|c w IH]; intros s.
  - split; [intros _; exists s; reflexivity|destruct s; reflexivity].
  - destruct s as [|d s]; cbn [prefix].
    + split; [discriminate|]. intros (post & H). discriminate.
    + destruct (ascii_dec c d) as [->|Hne].
      * rewrite IH. split; intros (post & H); exists post.
        -- cbn. now rewrite H.
        -- cbn in H. now injection H.
      * split; [discriminate|]. intros (post & H). cbn in H.
        injection H as H _. congruence.
Qed.

Lemma contains_spec w s : contains w s = true <-> occurs_in w s.
Proof.
  unfold occurs_in. induction s as [|c s IH]; cbn [contains].
  - rewrite orb_false_r, prefix_spec. split.
    + intros (post & H). exists "", post. exact H.
    + intros (pre & post & H). destruct pre; [|discriminate]. eauto.
  - rewrite orb_true_iff, prefix_spec, IH. split.
    + intros [(post & H)|(pre & post & H)].
      * exists "", post. exact H.
      * exists (String c pre), post. cbn. now rewrite H.
    + intros ([|d pre] & post & H).
      * left. eauto.
      * right. cbn in H. injection H as _ H. eauto.
Qed.


(** Stripping a line does not change which words without white space at
    their ends occur in it. *)
Lemma contains_lstrip p w s :
  head_is p w = false -> w <> "" ->
  contains w (lstrip_by p s) = contains w s.
Proof.
  intros Hh Hne. destruct w as [|h w]; [congruence|]. cbn [head_is] in Hh.
  induction s as [|c s IH]; [reflexivity|].
  cbn [lstrip_by]. destruct (p c) eqn:Hc; [|reflexivity].
  rewrite IH. cbn [contains prefix].
  destruct (ascii_dec h c) as [->|_]; [congruence|reflexivity].
Qed.

Lemma rstrip_decomp p s :
  exists t, s = rstrip_by p s ++ t /\ all p t = true.
Proof.
  induction s as [|c s (t & E & Ht)].
  - exists "". auto.
  - cbn [rstrip_by]. destruct (rstrip_by p s) as [|d r] eqn:Er.
    + destruct (p c) eqn:Hc.
      * exists (String c s). cbn [append all]. rewrite Hc.
        cbn [append] in E. subst t. auto.
      * exists t. cbn [append] in *. subst t. auto.
    + exists t. cbn [append] in *. now rewrite <- E.
Qed.

Lemma rstrip_app_keep p a b :
  a <> "" -> last_is p a = false ->
  rstrip_by p (a ++ b) = a ++ rstrip_by p b.
Proof.
  induction a as [|c a IH]; [congruence|]. intros _ Hl.
  destruct a as [|d a].
  - cbn [append rstrip_by last_is] in *. rewrite Hl.
    destruct (rstrip_by p b); reflexivity.
  - assert (E : rstrip_by p (String d a ++ b) = String d a ++ rstrip_by p b)
      by (apply IH; [discriminate|exact Hl]).
    change (rstrip_by p (String c (String d a) ++ b))
      with (match rstrip_by p (String d a ++ b) with
            | "" => if p c then "" else String c ""
            | r => String c r
            end).
    rewrite E. reflexivity.
Qed.

Lemma last_is_app_keep p a w :
  w <> "" -> last_is p (a ++ w) = last_is p w.
Proof.
  intros Hne. induction a as [|c a IH]; [reflexivity|].
  cbn [append]. rewrite <- IH.
  destruct (a ++ w) eqn:E; [|reflexivity].
  destruct a; [cbn in E; congruence|discriminate].
Qed.

Lemma occurs_in_rstrip p w s :
  w <> "" -> last_is p w = false ->
  occurs_in w (rstrip_by p s) <-> occurs_in w s.
Proof.
  intros Hne Hl. split.
  - intros (pre & post & E).
    destruct (rstrip_decomp p s) as (t & Es & _).
    exists pre, (post ++ t). rewrite Es, E. now rewrite !append_assoc_s.
  - intros (pre & post & ->). exists pre, (rstrip_by p post).
    rewrite <- !append_assoc_s. apply rstrip_app_keep.
    + destruct pre; [exact Hne|discriminate].
    + now rewrite last_is_app_keep.
Qed.

Lemma contains_strip w s :
  w <> "" -> head_is is_space w = false -> last_is is_space w = false ->
  contains w (strip s) = contains w s.
Proof.
  intros Hne Hh Hl. unfold strip, strip_by.
  rewrite <- (contains_lstrip is_space w s Hh Hne).
  pose proof (occurs_in_rstrip is_space w (lstrip_by is_space s) Hne Hl) as H.
  rewrite <- !contains_spec in H.
  destruct (contains w (rstrip_by is_space (lstrip_by is_space s))),
    (contains w (lstrip_by is_space s)); intuition congruence.
Qed.

Lemma contains_minutes_strip s :
  contains "minutes" (strip s) = contains "minutes" s.
Proof. apply contains_strip; [discriminate|reflexivity|reflexivity]. Qed.

Lemma contains_servings_strip s :
  contains "servings" (strip s) = contains "servings" s.
Proof. apply contains_strip; [discriminate|reflexivity|reflexivity]. Qed.

(* ================================================================== *)
(** * parse_title_and_metadata: the first qualifying line wins *)
(* ================================================================== *)

Lemma qualifies_tail line lines j :
  qualifies (line :: lines) (S j) = qualifies lines j.
Proof. reflexivity. Qed.

Lemma int_cases d :
  int d = if too_long d then Raise ValueError else Ok (int_value d).
Proof. reflexivity. Qed.

Lemma title_loop_none lines :
  (forall i, qualifies lines i = false) -> title_loop lines = Ok no_meta.
Proof.
  induction lines as [|line rest IH]; intros H; [reflexivity|].
  assert (Hrest : title_loop rest = Ok no_meta).
  { apply IH. intros i. rewrite <- (qualifies_tail line). apply H. }
  cbn [title_loop]. rewrite Hrest.
  destruct (Nat.ltb 20 (String.length (strip line))
            && negb (startswith (strip line) "Find cookware")) eqn:E1; auto.
  destruct rest as [|next rest']; auto.
  destruct (contains "minutes" (strip next)
            && contains "servings" (strip next)) eqn:E2; auto.
  specialize (H 0). unfold qualifies in H. cbn [nth_error] in H.
  rewrite <- contains_minutes_strip, <- (contains_servings_strip next) in H.
  rewrite <- andb_assoc, E1, E2 in H. discriminate.
Qed.

Lemma title_loop_first lines : forall i line next,
  nth_error lines i = Some line ->
  nth_error lines (S i) = Some next ->
  qualifies lines i = true ->
  (forall j, j < i -> qualifies lines j = false) ->
  title_loop lines = read_metadata (strip line) (strip next).
Proof.
  induction lines as [|l rest IH]; intros i line next Hi Hn Hq Hfirst.
  - destruct i; discriminate.
  - destruct i as [|i].
    + cbn [nth_error] in Hi, Hn. injection Hi as ->.
      destruct rest as [|n rest']; [discriminate|].
      cbn [nth_error] in Hn. injection Hn as ->.
      unfold qualifies in Hq. cbn [nth_error] in Hq.
      rewrite <- contains_minutes_strip, <- (contains_servings_strip next) in Hq.
      rewrite <- andb_assoc in Hq. apply andb_true_iff in Hq as [E1 E2].
      cbn [title_loop]. now rewrite E1, E2.
    + assert (Hrest : title_loop rest
                      = read_metadata (strip line) (strip next)).
      { apply (IH i); auto. intros j Hj.
        rewrite <- (qualifies_tail l). apply Hfirst. lia. }
      pose proof (Hfirst 0 ltac:(lia)) as H0.
      cbn [title_loop nth_error] in *. rewrite Hrest.
      destruct (Nat.ltb 20 (String.length (strip l))
                && negb (startswith (strip l) "Find cookware")) eqn:E1; auto.
      destruct rest as [|n rest']; [destruct i; discriminate|].
      unfold qualifies in H0. cbn [nth_error] in H0.
      rewrite <- contains_minutes_strip, <- (contains_servings_strip n) in H0.
      rewrite <- andb_assoc, E1 in H0. cbn [andb] in H0. now rewrite H0.
Qed.

Lemma or_str_some s d : s <> "" -> or_str (Some s) d = s.
Proof. destruct s; [congruence|reflexivity]. Qed.

Lemma or_int_some n d : or_int (Some n) d = if N.eqb n 0 then d else n.
Proof. destruct n; reflexivity. Qed.

Lemma qualifies_title_nonempty lines i line :
  nth_error lines i = Some line -> qualifies lines i = true ->
  strip line <> "".
Proof.
  unfold qualifies. intros -> H E.
  destruct (nth_error lines (S i)); [|discriminate].
  rewrite E in H. discriminate.
Qed.

(** What [read_metadata] returns when it returns. *)
Lemma read_metadata_ok line next vars :
  read_metadata line next = Ok vars ->
  v_title vars = Some line /\
  v_cook_time vars
  = match re_search re_time next with
    | Some m => Some (group 1 m ++ " minutes")
    | None => None
    end /\
  match re_search re_servings next with
  | Some m => too_long (group 1 m) = false /\
              v_servings vars = Some (int_value (group 1 m))
  | None => v_servings vars = None
  end.
Proof.
  unfold read_metadata.
  destruct (re_search re_servings next) as [m|].
  - rewrite int_cases. destruct (too_long (group 1 m)); [discriminate|].
    intros H. injection H as <-. cbn. auto.
  - intros H. injection H as <-. cbn. auto.
Qed.

Lemma read_metadata_raises line next e :
  read_metadata line next = Raise e ->
  e = ValueError /\
  exists m, re_search re_servings next = Some m /\ too_long (group 1 m) = true.
Proof.
  unfold read_metadata.
  destruct (re_search re_servings next) as [m|]; [|discriminate].
  rewrite int_cases. destruct (too_long (group 1 m)) eqn:E; [|discriminate].
  intros H. injection H as <-. eauto.
Qed.

(** C2, as amended: [parse_title_and_metadata] takes its title from the
    first line that qualifies (stripped length above 20, not starting with
    "Find cookware" once stripped, next line containing "minutes" and
    "servings") and looks no further; the title is that line, stripped.
    The cook time is the number standing before "minutes" in the next
    line followed by " minutes", the servings the number standing before
    "serving"/"servings"; a number that is missing (or a servings count
    of zero) falls back to "30 minutes" and 2.  A servings number of more
    than 4300 digits makes the function raise a [ValueError] instead of
    returning.  When no line qualifies the result is "Unknown Recipe",
    "30 minutes", 2. *)
Theorem parse_title_and_metadata_first_qualifying (text : string) :
  let lines := split NLc text in
  (forall i line next,
      nth_error lines i = Some line ->
      nth_error lines (S i) = Some next ->
      qualifies lines i = true ->
      (forall j, j < i -> qualifies lines j = false) ->
      exists cook_time,
        ((exists d, number_before "minutes" (strip next) d /\
                    cook_time = d ++ " minutes")
         \/ ((forall d, ~ number_before "minutes" (strip next) d) /\
             cook_time = "30 minutes")) /\
        ((exists d,
             number_before "serving" (strip next) d /\
             parse_title_and_metadata text
             = if too_long d then Raise ValueError
               else Ok (mkMetadata (strip line) cook_time
                                   (if N.eqb (int_value d) 0 then 2%N
                                    else int_value d)))
         \/ ((forall d, ~ number_before "serving" (strip next) d) /\
             parse_title_and_metadata text
             = Ok (mkMetadata (strip line) cook_time 2))))
  /\
  ((forall i, qualifies lines i = false) ->
   parse_title_and_metadata text
   = Ok (mkMetadata "Unknown Recipe" "30 minutes" 2)).
Proof.
  cbv zeta. split.
  - intros i line next Hi Hn Hq Hfirst.
    unfold parse_title_and_metadata.
    rewrite (title_loop_first _ _ _ _ Hi Hn Hq Hfirst).
    assert (Hne : strip line <> "")
      by (eapply qualifies_title_nonempty; eauto).
    unfold read_metadata.
    exists (or_str match re_search re_time (strip next) with
                   | Some m => Some (group 1 m ++ " minutes")
                   | None => None
                   end "30 minutes").
    split.
    + destruct (re_search re_time (strip next)) as [m|] eqn:E.
      * left. exists (group 1 m). split; [now apply search_time_some|].
        apply or_str_some. destruct (group 1 m); discriminate.
      * right. split; [now apply search_time_none|reflexivity].
    + destruct (re_search re_servings (strip next)) as [m|] eqn:E.
      * left. exists (group 1 m). split; [now apply search_servings_some|].
        rewrite int_cases. destruct (too_long (group 1 m)); [reflexivity|].
        cbn [v_title v_cook_time v_servings].
        now rewrite (or_str_some _ _ Hne), or_int_some.
      * right. split; [now apply search_servings_none|].
        cbn [v_title v_cook_time v_servings or_int].
        now rewrite (or_str_some _ _ Hne).
  - intros H. unfold parse_title_and_metadata.
    now rewrite (title_loop_none _ H).
Qed.

Lemma parse_title_and_metadata_first_qualifying_witness :
  parse_title_and_metadata soup_text
  = Ok (mkMetadata "Creamy Tomato Basil Soup" "25 minutes" 4) /\
  exists cook_time,
    (exists d, number_before "serving" (strip "25 minutes, 4 servings") d /\
               parse_title_and_metadata soup_text
               = if too_long d then Raise ValueError
                 else Ok (mkMetadata (strip "Creamy Tomato Basil Soup")
                                     cook_time
                                     (if N.eqb (int_value d) 0 then 2%N
                                      else int_value d)))
    \/ ((forall d, ~ number_before "serving"
                                   (strip "25 minutes, 4 servings") d) /\
        parse_title_and_metadata soup_text
        = Ok (mkMetadata (strip "Creamy Tomato Basil Soup") cook_time 2)).
Proof.
  split; [reflexivity|].
  destruct (proj1 (parse_title_and_metadata_first_qualifying soup_text)
                  1 "Creamy Tomato Basil Soup" "25 minutes, 4 servings"
                  eq_refl eq_refl eq_refl) as (cook_time & _ & H).
  - intros j Hj. destruct j as [|j]; [reflexivity|lia].
  - exists cook_time. exact H.
Defined.

(** C2, the counterexample: a servings number of 4301 digits after a
    qualifying line makes [int] raise, so no title, cook time or servings
    is returned. *)
Lemma parse_title_and_metadata_long_servings :
  qualifies (split NLc long_servings_text) 0 = true /\
  number_before "serving" ("25 minutes, " ++ long_number ++ " servings")
                long_number /\
  parse_title_and_metadata long_servings_text = Raise ValueError.
Proof.
  split; [vm_compute; reflexivity|]. split; [|vm_compute; reflexivity].
  exists "25 minutes, ", " ", "s".
  split; [vm_compute; reflexivity|].
  split; [intros E; apply (f_equal String.length) in E; vm_compute in E;
          discriminate|].
  repeat split; vm_compute; reflexivity.
Qed.

(** C9: when the line after the first qualifying line yields a servings
    count of zero, the result has servings 2, exactly as when the pattern
    finds no number at all. *)
Theorem parse_title_and_metadata_zero_servings (text : string) :
  forall i line next,
    nth_error (split NLc text) i = Some line ->
    nth_error (split NLc text) (S i) = Some next ->
    qualifies (split NLc text) i = true ->
    (forall j, j < i -> qualifies (split NLc text) j = false) ->
    (re_search re_servings (strip next) = None \/
     exists m, re_search re_servings (strip next) = Some m /\
               int (group 1 m) = Ok 0%N) ->
    exists md, parse_title_and_metadata text = Ok md /\
               meta_servings md = 2%N.
Proof.
  intros i line next Hi Hn Hq Hfirst H.
  unfold parse_title_and_metadata.
  rewrite (title_loop_first _ _ _ _ Hi Hn Hq Hfirst).
  unfold read_metadata.
  destruct H as [->|(m & -> & ->)]; eexists; split; reflexivity.
Qed.

Lemma parse_title_and_metadata_zero_servings_witness :
  (exists m, re_search re_servings (strip "25 minutes, 0 servings") = Some m /\
             group 1 m = "0" /\ int (group 1 m) = Ok 0%N) /\
  (exists md, parse_title_and_metadata zero_servings_text = Ok md /\
              meta_servings md = 2%N) /\
  parse_title_and_metadata zero_servings_text
  = parse_title_and_metadata no_servings_text.
Proof.
  split; [eexists; repeat split; reflexivity|]. split; [|reflexivity].
  refine (parse_title_and_metadata_zero_servings zero_servings_text
            0 "Creamy Tomato Basil Soup" "25 minutes, 0 servings"
            eq_refl eq_refl eq_refl _ _).
  - intros j Hj. lia.
  - right. eexists. split; reflexivity.
Defined.

(* ================================================================== *)
(** * parse_instructions: numbered steps *)
(* ================================================================== *)

Lemma MSeq' r1 r2 pos m m1 m2 rest gs gs1 gs2 :
  Matches r1 pos m1 (m2 ++ rest) gs1 ->
  Matches r2 (pos + String.length m1) m2 rest gs2 ->
  m = m1 ++ m2 -> gs = (gs2 ++ gs1)%list ->
  Matches (Seq r1 r2) pos m rest gs.
Proof. intros M1 M2 -> ->. now constructor. Qed.

Lemma Matches_step_inv pos m rest gs :
  Matches re_step pos m rest gs ->
  exists d ws,
    m = d ++ ws /\ gs = [(1, d)] /\ d <> "" /\ all is_digit d = true /\
    all is_space ws = true /\ at_eol rest = true.
Proof.
  unfold re_step. cbn [seqs]. intros M.
  apply Matches_seq_inv in M as (m0 & m1 & g0 & g1 & -> & -> & M0 & M).
  apply Matches_bol_inv in M0 as (_ & -> & ->).
  apply Matches_seq_inv in M as (d & m2 & gd & g2 & -> & -> & Md & M).
  apply Matches_grp_inv in Md as (gd' & -> & Md).
  apply Matches_plus_inv in Md as (Hne & Hd & ->).
  apply Matches_seq_inv in M as (ws & m3 & gw & g3 & -> & -> & Mw & M).
  apply Matches_star_inv in Mw as (Hws & ->).
  apply Matches_eol_inv in M as (He & -> & ->).
  exists d, ws. rewrite append_nil_r. cbn. auto 7.
Qed.

Lemma Matches_step d :
  d <> "" -> all is_digit d = true -> Matches re_step 0 d "" [(1, d)].
Proof.
  intros Hne Hd. unfold re_step. cbn [seqs].
  eapply (MSeq' _ _ _ _ "" d).
  - apply MBol.
  - eapply (MSeq' _ _ _ _ d "").
    + apply MGrp. now apply Matches_plus.
    + eapply (MSeq' _ _ _ _ "" "").
      * now apply MStar.
      * now apply MEol.
      * reflexivity.
      * reflexivity.
    + now rewrite append_nil_r.
    + reflexivity.
  - reflexivity.
  - reflexivity.
Qed.

Lemma digit_not_space c : is_digit c = true -> is_space c = false.
Proof. each_char c. Qed.

Lemma digits_and_spaces w :
  all is_digit w = true -> all is_space w = true -> w = "".
Proof.
  destruct w as [|c w]; auto. cbn [all].
  rewrite !andb_true_iff. intros [Hd _] [Hs _].
  apply digit_not_space in Hd. congruence.
Qed.

Lemma at_eol_space rest : at_eol rest = true -> all is_space rest = true.
Proof.
  unfold at_eol. rewrite orb_true_iff, !String.eqb_eq.
  intros [->| ->]; reflexivity.
Qed.

Lemma last_is_app_all p a w :
  last_is p (a ++ w) = false -> all p w = true -> w = "".
Proof.
  induction a as [|c a IH]; cbn [append].
  - induction w as [|c w IHw]; auto. cbn [all last_is].
    rewrite andb_true_iff. intros Hl [Hc Hw].
    destruct w as [|d w]; [congruence|]. specialize (IHw Hl Hw). discriminate.
  - intros Hl Hw. apply IH; auto.
    destruct (a ++ w) eqn:E; [|exact Hl].
    destruct a; [|discriminate]. simpl in E. subst w. reflexivity.
Qed.

(** On a stripped line the pattern [^(\d+)\s*$] matches exactly the lines
    made of digits, and its group is the whole line. *)
Lemma re_step_digits l :
  l <> "" -> all is_digit l = true ->
  exists m, re_match re_step l = Some m /\ group 1 m = l.
Proof.
  intros Hne Hd. destruct (re_match re_step l) as [m|] eqn:E.
  - exists m. split; auto.
    apply match_at_sound in E as (mt & rest & -> & M & _).
    apply Matches_step_inv in M as (d & ws & -> & Hg & _ & _ & Hws & He).
    unfold group. rewrite Hg. cbn [lookup Nat.eqb].
    rewrite !all_app in Hd. apply andb_true_iff in Hd as [Hd Hrest].
    apply andb_true_iff in Hd as [_ Hdw].
    rewrite (digits_and_spaces ws Hdw Hws).
    rewrite (digits_and_spaces rest Hrest (at_eol_space _ He)).
    now rewrite !append_nil_r.
  - exfalso.
    apply (match_at_complete _ _ _ E l "" [(1, l)]).
    + now rewrite append_nil_r.
    + now apply Matches_step.
Qed.

Lemma re_step_other l :
  last_is is_space l = false -> all is_digit l = false ->
  re_match re_step l = None.
Proof.
  intros Hl Hd. destruct (re_match re_step l) as [m|] eqn:E; auto. exfalso.
  apply match_at_sound in E as (mt & rest & -> & M & _).
  apply Matches_step_inv in M as (d & ws & -> & _ & _ & Hdd & Hws & He).
  rewrite append_assoc_s in Hl.
  assert (Hw : ws ++ rest = "").
  { apply (last_is_app_all is_space d); auto.
    rewrite all_app, Hws. now apply at_eol_space. }
  rewrite append_assoc_s, Hw, append_nil_r in Hd. congruence.
Qed.

Lemma strip_last l : last_is is_space (strip l) = false.
Proof. apply last_rstrip. Qed.

Lemma instruction_line_step st l :
  is_step_line l = true ->
  instruction_line st l
  = if too_long (strip l) then Raise ValueError
    else Ok (mkStepVars (Some (int_value (strip l))) [] (save_step st)).
Proof.
  unfold is_step_line, blank, instruction_line. intros H.
  apply andb_true_iff in H as [Hb Hd]. apply negb_true_iff in Hb.
  rewrite Hb.
  destruct (re_step_digits (strip l)) as (m & -> & ->); auto.
  - intros E. rewrite E in Hb. discriminate.
  - rewrite int_cases. now destruct (too_long (strip l)).
Qed.

Lemma instruction_line_text st l :
  is_step_line l = false ->
  instruction_line st l =
  Ok (if blank l then st
      else match current_step st with
           | Some _ => mkStepVars (current_step st)
                                  (current_text st ++ [strip l])%list
                                  (instructions st)
           | None => st
           end).
Proof.
  unfold is_step_line, blank, instruction_line. intros H.
  destruct (String.eqb (strip l) ""); auto. cbn [negb andb] in H.
  rewrite (re_step_other _ (strip_last l) H).
  now destruct (current_step st).
Qed.

Lemma instructions_loop_app a : forall b st,
  instructions_loop (a ++ b) st
  = match instructions_loop a st with
    | Ok st' => instructions_loop b st'
    | Raise e => Raise e
    end.
Proof.
  induction a as [|l a IH]; intros b st; cbn [app instructions_loop].
  - reflexivity.
  - destruct (instruction_line st l); [apply IH|reflexivity].
Qed.

Lemma loop_outside_step pre acc :
  Forall (fun l => is_step_line l = false) pre ->
  instructions_loop pre (mkStepVars None [] acc) = Ok (mkStepVars None [] acc).
Proof.
  induction 1 as [|l pre Hl _ IH]; auto.
  cbn [instructions_loop]. rewrite (instruction_line_text _ _ Hl).
  cbn [current_step]. destruct (blank l); exact IH.
Qed.

Lemma loop_inside_step body : forall n txt acc,
  Forall (fun l => is_step_line l = false) body ->
  instructions_loop body (mkStepVars (Some n) txt acc)
  = Ok (mkStepVars (Some n) (txt ++ body_text body)%list acc).
Proof.
  unfold body_text.
  induction body as [|l body IH]; intros n txt acc H.
  - cbn. now rewrite app_nil_r.
  - inversion H as [|? ? Hl Hb]; subst.
    cbn [instructions_loop filter]. rewrite (instruction_line_text _ _ Hl).
    cbn [current_step current_text instructions].
    destruct (blank l); cbn [negb map].
    + now apply IH.
    + rewrite IH by assumption. now rewrite <- app_assoc.
Qed.

Lemma save_step_inside n txt acc :
  save_step (mkStepVars (Some n) txt acc)
  = (acc ++ match txt with
            | [] => []
            | _ :: _ => [mkStep n (strip (join " " txt))]
            end)%list.
Proof. destruct txt; cbn; [now rewrite app_nil_r|reflexivity]. Qed.

(** The loop over blocks: it raises at the first step number that [int]
    refuses and otherwise leaves one step for each block with text. *)
Lemma loop_blocks blocks : forall st,
  Forall well_formed_block blocks ->
  match instructions_loop (concat (map render_block blocks)) st with
  | Ok st' =>
      existsb long_step blocks = false /\
      save_step st' = (save_step st ++ flat_map steps_of_block blocks)%list
  | Raise e => existsb long_step blocks = true /\ e = ValueError
  end.
Proof.
  induction blocks as [|[l body] blocks IH]; intros st H.
  - cbn. now rewrite app_nil_r.
  - inversion H as [|? ? [Hl Hbody] Hrest]; subst. cbn [fst snd] in *.
    cbn [map concat render_block fst snd flat_map existsb].
    unfold render_block at 1. cbn [fst snd app instructions_loop].
    rewrite (instruction_line_step _ _ Hl).
    change (long_step (l, body)) with (too_long (strip l)).
    destruct (too_long (strip l)); [now split|]. cbn [orb].
    rewrite instructions_loop_app, (loop_inside_step body _ _ _ Hbody).
    cbn [app]. specialize (IH (mkStepVars (Some (int_value (strip l)))
                                          (body_text body) (save_step st))
                              Hrest).
    destruct (instructions_loop _ _) as [st'|e]; [|exact IH].
    destruct IH as [Hlong ->]. split; [exact Hlong|].
    rewrite save_step_inside, <- app_assoc.
    unfold steps_of_block. cbn [fst snd].
    destruct (body_text body); reflexivity.
Qed.

(** Every list of lines is a run of lines outside any step followed by
    well-formed blocks. *)
Lemma lines_as_blocks (lines : list string) :
  exists pre blocks,
    lines = (pre ++ concat (map render_block blocks))%list /\
    Forall (fun l => is_step_line l = false) pre /\
    Forall well_formed_block blocks.
Proof.
  induction lines as [|l lines (pre & blocks & -> & Hpre & Hb)].
  - exists [], []. auto.
  - destruct (is_step_line l) eqn:E.
    + exists [], ((l, pre) :: blocks). repeat split; auto.
      constructor; auto. split; auto.
    + exists (l :: pre), blocks. repeat split; auto.
Qed.

Lemma instruction_steps_blocks pre blocks :
  Forall (fun l => is_step_line l = false) pre ->
  Forall well_formed_block blocks ->
  instruction_steps (pre ++ concat (map render_block blocks))%list
  = if existsb long_step blocks then Raise ValueError
    else Ok (flat_map steps_of_block blocks).
Proof.
  intros Hpre Hblocks. unfold instruction_steps.
  rewrite instructions_loop_app, (loop_outside_step pre [] Hpre).
  pose proof (loop_blocks blocks (mkStepVars None [] []) Hblocks) as H.
  destruct (instructions_loop _ _) as [st'|e].
  - destruct H as [-> ->]. reflexivity.
  - destruct H as [-> ->]. reflexivity.
Qed.

(** C3, as amended: the instruction parser walks the lines of the
    section.  A line of digits (white space around them aside) opens a
    step; the non-blank
    lines up to the next such line are the step's text, stripped, joined
    by single spaces and trimmed; a step without text lines is dropped and
    lines before the first step are ignored.  A step line of more than
    4300 digits makes the parser raise a [ValueError] instead of
    returning.  Every section is such a sequence of blocks, so this
    describes the result on every text.  The block of the specification
    gives steps 1 and 2. *)
Theorem parse_instructions_steps :
  (forall text m pre blocks,
      re_search re_instructions text = Some m ->
      split NLc (group 1 m) = (pre ++ concat (map render_block blocks))%list ->
      Forall (fun l => is_step_line l = false) pre ->
      Forall well_formed_block blocks ->
      parse_instructions text
      = if existsb long_step blocks then Raise ValueError
        else Ok (flat_map steps_of_block blocks))
  /\
  (forall text m,
      re_search re_instructions text = Some m ->
      exists pre blocks,
        split NLc (group 1 m) = (pre ++ concat (map render_block blocks))%list /\
        Forall (fun l => is_step_line l = false) pre /\
        Forall well_formed_block blocks)
  /\
  parse_instructions oven_text
  = Ok [mkStep 1 "Preheat oven."; mkStep 2 "Bake for 20 minutes."].
Proof.
  split; [|split; [|reflexivity]].
  - intros text m pre blocks Hm Hsplit Hpre Hblocks.
    unfold parse_instructions. rewrite Hm, Hsplit.
    now apply instruction_steps_blocks.
  - intros text m _. apply lines_as_blocks.
Qed.

Lemma parse_instructions_steps_witness :
  parse_instructions oven_text
  = Ok (flat_map steps_of_block
                 [("1", ["Preheat oven."]); ("2", ["Bake for 20 minutes."])]).
Proof.
  refine (proj1 parse_instructions_steps oven_text _ []
                [("1", ["Preheat oven."]); ("2", ["Bake for 20 minutes."])]
                eq_refl eq_refl _ _).
  - constructor.
  - repeat constructor.
Defined.

(** C3, the counterexample: a step line of 4301 digits does not start a
    step; [int] raises and no steps are returned. *)
Lemma parse_instructions_long_step :
  is_step_line long_number = true /\
  parse_instructions long_step_text = Raise ValueError.
Proof. split; vm_compute; reflexivity. Qed.

(* ================================================================== *)
(** * parse_ingredients: quantity and name *)
(* ================================================================== *)

Lemma Matches_opt_inv r pos m rest gs :
  Matches (opt r) pos m rest gs ->
  Matches r pos m rest gs \/ (m = "" /\ gs = []).
Proof.
  unfold opt. intros M. apply Matches_alt_inv in M as [M|M]; auto.
  apply Matches_eps_inv in M. auto.
Qed.

Lemma Matches_opt_some r pos m rest gs :
  Matches r pos m rest gs -> Matches (opt r) pos m rest gs.
Proof. intros M. now apply MAltL. Qed.

Lemma Matches_opt_none r pos rest : Matches (opt r) pos "" rest [].
Proof. apply MAltR. constructor. Qed.

Lemma Matches_alts_lit_inv ws : forall w pos m rest gs,
  Matches (alts (lit w) (map lit ws)) pos m rest gs ->
  In m (w :: ws) /\ gs = [].
Proof.
  induction ws as [|w' ws IH]; intros w pos m rest gs M; cbn [alts map] in M.
  - apply Matches_lit_inv in M as [-> ->]. cbn; auto.
  - apply Matches_alt_inv in M as [M|M].
    + apply Matches_lit_inv in M as [-> ->]. cbn; auto.
    + apply IH in M as [Hin ->]. split; auto. now right.
Qed.

Lemma Matches_alts_lit ws : forall w u pos rest,
  In u (w :: ws) -> Matches (alts (lit w) (map lit ws)) pos u rest [].
Proof.
  induction ws as [|w' ws IH]; intros w u pos rest Hin; cbn [alts map].
  - destruct Hin as [<-|[]]. apply Matches_lit.
  - destruct Hin as [<-|Hin].
    + apply MAltL, Matches_lit.
    + apply MAltR, IH, Hin.
Qed.

Lemma Matches_parenthetical_inv pos m rest gs :
  Matches re_parenthetical pos m rest gs -> parenthetical m /\ gs = [].
Proof.
  unfold re_parenthetical. cbn [seqs]. intros M.
  apply Matches_seq_inv in M as (a & m1 & ga & g1 & -> & -> & Ma & M).
  apply Matches_lit_inv in Ma as [-> ->].
  apply Matches_seq_inv in M as (inner & b & gi & gb & -> & -> & Mi & Mb).
  apply Matches_plus_inv in Mi as (Hne & Hin & ->).
  apply Matches_lit_inv in Mb as [-> ->].
  split; [|reflexivity]. exists inner. auto.
Qed.

Lemma Matches_parenthetical pos m rest :
  parenthetical m -> Matches re_parenthetical pos m rest [].
Proof.
  intros (inner & -> & Hne & Hin). unfold re_parenthetical. cbn [seqs].
  eapply (MSeq' _ _ _ _ "(" (inner ++ ")")).
  - apply Matches_lit.
  - eapply (MSeq' _ _ _ _ inner ")").
    + now apply Matches_plus.
    + apply Matches_lit.
    + reflexivity.
    + reflexivity.
  - reflexivity.
  - reflexivity.
Qed.

Lemma Matches_prefix_inv pos q rest gs :
  Matches re_quantity_prefix pos q rest gs -> quantity_prefix q /\ gs = [].
Proof.
  unfold re_quantity_prefix. cbn [seqs]. intros M.
  apply Matches_seq_inv in M as (num & m1 & gn & g1 & -> & -> & Mn & M).
  apply Matches_plus_inv in Mn as (Hne & Hnum & ->).
  apply Matches_seq_inv in M as (par & m2 & gp & g2 & -> & -> & Mp & M).
  apply Matches_seq_inv in M as (ws & m3 & gw & g3 & -> & -> & Mw & M).
  apply Matches_star_inv in Mw as (Hws & ->).
  apply Matches_seq_inv in M as (unit & s & gu & gs' & -> & -> & Mu & Ms).
  assert (Hpar : (par = "" \/ parenthetical par) /\ gp = []).
  { apply Matches_opt_inv in Mp as [Mp|[-> ->]]; auto.
    apply Matches_parenthetical_inv in Mp as [Hp ->]. auto. }
  assert (Hunit : (unit = "" \/ In unit ("cup" :: unit_words)) /\ gu = []).
  { apply Matches_opt_inv in Mu as [Mu|[-> ->]]; auto.
    apply Matches_alts_lit_inv in Mu as [Hin ->]. auto. }
  assert (Hs : (s = "" \/ s = "s") /\ gs' = []).
  { apply Matches_opt_inv in Ms as [Ms|[-> ->]]; auto.
    apply Matches_lit_inv in Ms as [-> ->]. auto. }
  destruct Hpar as [Hpar ->], Hunit as [Hunit ->], Hs as [Hs ->].
  split; [|reflexivity]. exists num, par, ws, unit, s. auto 10.
Qed.

Lemma Matches_prefix pos q rest :
  quantity_prefix q -> Matches re_quantity_prefix pos q rest [].
Proof.
  intros (num & par & ws & unit & s & -> & Hne & Hnum & Hpar & Hws & Hunit & Hs).
  unfold re_quantity_prefix. cbn [seqs].
  eapply (MSeq' _ _ _ _ num (par ++ ws ++ unit ++ s)).
  - now apply Matches_plus.
  - eapply (MSeq' _ _ _ _ par (ws ++ unit ++ s)).
    + destruct Hpar as [->|Hpar];
        [apply Matches_opt_none
        |apply Matches_opt_some, Matches_parenthetical, Hpar].
    + eapply (MSeq' _ _ _ _ ws (unit ++ s)).
      * now apply MStar.
      * eapply (MSeq' _ _ _ _ unit s).
        -- destruct Hunit as [->|Hunit];
             [apply Matches_opt_none
             |apply Matches_opt_some, Matches_alts_lit, Hunit].
        -- destruct Hs as [->| ->];
             [apply Matches_opt_none|apply Matches_opt_some, Matches_lit].
        -- reflexivity.
        -- reflexivity.
      * reflexivity.
      * reflexivity.
    + reflexivity.
    + reflexivity.
  - reflexivity.
  - reflexivity.
Qed.

Lemma Matches_quantity_inv pos m rest gs :
  Matches re_quantity pos m rest gs ->
  exists q sep nm,
    splits_as m q sep nm /\ gs = [(2, nm); (1, q)] /\ at_eol rest = true.
Proof.
  unfold re_quantity. cbn [seqs]. intros M.
  apply Matches_seq_inv in M as (m0 & m1 & g0 & g1 & -> & -> & M0 & M).
  apply Matches_bol_inv in M0 as (_ & -> & ->).
  apply Matches_seq_inv in M as (q & m2 & gq & g2 & -> & -> & Mq & M).
  apply Matches_grp_inv in Mq as (gq' & -> & Mq).
  apply Matches_prefix_inv in Mq as (Hq & ->).
  apply Matches_seq_inv in M as (sep & m3 & gsep & g3 & -> & -> & Msep & M).
  apply Matches_plus_inv in Msep as (Hsne & Hsep & ->).
  apply Matches_seq_inv in M as (nm & m4 & gn & g4 & -> & -> & Mn & M).
  apply Matches_grp_inv in Mn as (gn' & -> & Mn).
  apply Matches_plus_inv in Mn as (Hnne & Hnm & ->).
  apply Matches_eol_inv in M as (He & -> & ->).
  exists q, sep, nm. rewrite append_nil_r. cbn [append app].
  repeat split; auto.
Qed.

Lemma Matches_quantity q sep nm :
  splits_as (q ++ sep ++ nm) q sep nm ->
  Matches re_quantity 0 (q ++ sep ++ nm) "" [(2, nm); (1, q)].
Proof.
  intros (_ & Hq & Hsne & Hsep & Hnne & Hnm). unfold re_quantity. cbn [seqs].
  eapply (MSeq' _ _ _ _ "" (q ++ sep ++ nm)).
  - apply MBol.
  - eapply (MSeq' _ _ _ _ q (sep ++ nm)).
    + apply MGrp, Matches_prefix, Hq.
    + eapply (MSeq' _ _ _ _ sep nm).
      * now apply Matches_plus.
      * eapply (MSeq' _ _ _ _ nm "").
        -- apply MGrp. now apply Matches_plus.
        -- now apply MEol.
        -- now rewrite append_nil_r.
        -- reflexivity.
      * reflexivity.
      * reflexivity.
    + reflexivity.
    + reflexivity.
  - reflexivity.
  - reflexivity.
Qed.
(** On a stripped line, [re.match] of the quantity pattern succeeds
    exactly when the line splits, and its groups are the two parts. *)
Lemma re_quantity_some line m :
  last_is is_space line = false ->
  re_match re_quantity line = Some m ->
  exists sep, splits_as line (group 1 m) sep (group 2 m).
Proof.
  intros Hl E.
  apply match_at_sound in E as (mt & rest & -> & M & _).
  apply Matches_quantity_inv in M as (q & sep & nm & Hs & Hg & He).
  unfold group. rewrite Hg. cbn [lookup Nat.eqb].
  rewrite (last_is_app_all is_space mt rest Hl (at_eol_space _ He)).
  rewrite append_nil_r. eauto.
Qed.

Lemma re_quantity_none line :
  re_match re_quantity line = None ->
  forall q sep nm, ~ splits_as line q sep nm.
Proof.
  intros E q sep nm Hs. pose proof Hs as (-> & _).
  apply (match_at_complete _ _ _ E (q ++ sep ++ nm) "" [(2, nm); (1, q)]).
  - now rewrite append_nil_r.
  - now apply Matches_quantity.
Qed.

Lemma ingredients_loop_map lines :
  ingredients_loop lines
  = map ingredient_of_line
        (filter (fun l => negb (skip_ingredient_line l)) (map strip lines)).
Proof.
  induction lines as [|l lines IH]; [reflexivity|].
  cbn [ingredients_loop map filter].
  destruct (skip_ingredient_line (strip l)); cbn [negb map]; congruence.
Qed.

(** C4, the counterexample: white space around an ingredient line is not
    kept, so [original] is not the line as it stands in the text. *)
Lemma parse_ingredients_strips_original :
  In " 1 cup flour " (split NLc padded_flour_text) /\
  map ing_original (parse_ingredients padded_flour_text) = ["1 cup flour"] /\
  ~ In " 1 cup flour " (map ing_original (parse_ingredients padded_flour_text)).
Proof.
  split; [right; left; reflexivity|]. split; [reflexivity|].
  intros [H|[]]. discriminate.
Qed.

(** C4, as amended: every line of the section that is not skipped is
    stripped and turned into one record.  The record keeps the stripped
    line as [original] and is categorised from it.  When the line splits
    into a quantity prefix (numeric characters, optional parenthetical,
    optional unit keyword), white space and a name, the quantity is the
    trimmed prefix and the name the trimmed rest, lowercased; when it does
    not split, the quantity is empty and the name is the lowercased line.
    "1 cup flour" gives quantity "1 cup", name "flour", category "pantry";
    "2 medium carrots" gives category "produce". *)
Theorem parse_ingredients_lines :
  (forall text m,
      re_search re_ingredients text = Some m ->
      parse_ingredients text
      = map ingredient_of_line
            (filter (fun l => negb (skip_ingredient_line l))
                    (map strip (split NLc (group 1 m)))))
  /\
  (forall line0,
      let line := strip line0 in
      let ing := ingredient_of_line line in
      ing_original ing = line /\
      ing_category ing = categorize_ingredient line /\
      ((exists q sep nm,
           splits_as line q sep nm /\
           ing_quantity ing = strip q /\ ing_name ing = lower (strip nm))
       \/ ((forall q sep nm, ~ splits_as line q sep nm) /\
           ing_quantity ing = "" /\ ing_name ing = lower line)))
  /\
  parse_ingredients flour_text
  = [mkIngredient "flour" "1 cup" "pantry" "1 cup flour";
     mkIngredient "carrots" "2 medium" "produce" "2 medium carrots"].
Proof.
  split; [|split; [|reflexivity]].
  - intros text m Hm. unfold parse_ingredients. rewrite Hm.
    apply ingredients_loop_map.
  - intros line0. cbv zeta. unfold ingredient_of_line.
    destruct (re_match re_quantity (strip line0)) as [m|] eqn:E;
      cbn [ing_original ing_category ing_quantity ing_name].
    + split; [reflexivity|]. split; [reflexivity|]. left.
      destruct (re_quantity_some _ _ (strip_last line0) E) as (sep & Hs).
      exists (group 1 m), sep, (group 2 m). auto.
    + split; [reflexivity|]. split; [reflexivity|]. right.
      split; [now apply re_quantity_none|auto].
Qed.

Lemma parse_ingredients_lines_witness :
  parse_ingredients flour_text
  = map ingredient_of_line ["1 cup flour"; "2 medium carrots"].
Proof.
  refine (eq_trans (proj1 parse_ingredients_lines flour_text _ eq_refl) _).
  reflexivity.
Defined.

(* ================================================================== *)
(** * categorize_ingredient: keyword lists in priority order *)
(* ================================================================== *)

Lemma any_in_spec words s : any_in words s = true <-> mentions words s.
Proof.
  unfold any_in, mentions. rewrite existsb_exists.
  split; intros (w & Hin & H); exists w; split; auto;
    now apply contains_spec.
Qed.

Lemma any_in_false words s : any_in words s = false <-> ~ mentions words s.
Proof.
  rewrite <- any_in_spec. destruct (any_in words s); split; congruence.
Qed.

(** C5: [categorize_ingredient] lowercases its argument and answers with
    the first of produce, protein, dairy, spices whose keyword list has a
    word occurring in it, and with pantry when none has; the answer is
    always one of the five categories, and whatever contains "pepper" is
    produce. *)
Theorem categorize_ingredient_priority (ingredient : string) :
  let s := lower ingredient in
  let c := categorize_ingredient ingredient in
  In c categories /\
  (mentions produce_words s -> c = "produce") /\
  (~ mentions produce_words s -> mentions protein_words s -> c = "protein") /\
  (~ mentions produce_words s -> ~ mentions protein_words s ->
   mentions dairy_words s -> c = "dairy") /\
  (~ mentions produce_words s -> ~ mentions protein_words s ->
   ~ mentions dairy_words s -> mentions spices_words s -> c = "spices") /\
  (~ mentions produce_words s -> ~ mentions protein_words s ->
   ~ mentions dairy_words s -> ~ mentions spices_words s -> c = "pantry") /\
  (occurs_in "pepper" s ->
   mentions produce_words s /\ mentions spices_words s /\ c = "produce").
Proof.
  cbv zeta. unfold categorize_ingredient.
  rewrite <- !any_in_false, <- !any_in_spec.
  assert (Hpepper : occurs_in "pepper" (lower ingredient) ->
                    any_in produce_words (lower ingredient) = true /\
                    any_in spices_words (lower ingredient) = true).
  { intros H. split; apply any_in_spec; exists "pepper"; split; auto;
      cbn; auto 10. }
  destruct (any_in produce_words (lower ingredient));
    destruct (any_in protein_words (lower ingredient));
    destruct (any_in dairy_words (lower ingredient));
    destruct (any_in spices_words (lower ingredient));
    repeat match goal with |- _ /\ _ => split end;
    try congruence; try (cbn; tauto);
    intros Hp; apply Hpepper in Hp as [? ?];
    repeat split; congruence.
Qed.

Lemma categorize_ingredient_priority_witness :
  occurs_in "pepper" (lower "1 tsp Black Pepper") /\
  categorize_ingredient "1 tsp Black Pepper" = "produce".
Proof.
  assert (H : occurs_in "pepper" (lower "1 tsp Black Pepper")).
  { exists "1 tsp black ", "". reflexivity. }
  split; [exact H|].
  destruct (categorize_ingredient_priority "1 tsp Black Pepper")
    as (_ & _ & _ & _ & _ & _ & Hp).
  exact (proj2 (proj2 (Hp H))).
Defined.

(* ================================================================== *)
(** * parse_recipe_pdf and process_directory: what is emitted *)
(* ================================================================== *)

Lemma in_insert_sorted x y l : In x (insert_sorted y l) <-> x = y \/ In x l.
Proof.
  induction l as [|z l IH]; cbn [insert_sorted].
  - cbn. intuition.
  - destruct (String.leb y z); cbn [In]; [|rewrite IH]; intuition.
Qed.

Lemma in_sorted x l : In x (sorted l) <-> In x l.
Proof.
  unfold sorted. induction l as [|y l IH]; cbn [fold_right]; [tauto|].
  rewrite in_insert_sorted, IH. cbn. intuition.
Qed.

Lemma filter_insert_sorted (p : string -> bool) y l :
  List.length (filter p (insert_sorted y l))
  = List.length (filter p (y :: l)).
Proof.
  induction l as [|z l IH]; cbn [insert_sorted]; auto.
  destruct (String.leb y z); auto.
  cbn [filter] in *. destruct (p z), (p y); cbn [List.length] in *; lia.
Qed.

Lemma filter_sorted (p : string -> bool) l :
  List.length (filter p (sorted l)) = List.length (filter p l).
Proof.
  unfold sorted. induction l as [|y l IH]; auto. cbn [fold_right].
  rewrite filter_insert_sorted. cbn [filter].
  destruct (p y); cbn [List.length]; congruence.
Qed.

Lemma length_sorted l : List.length (sorted l) = List.length l.
Proof.
  pose proof (filter_sorted (fun _ => true) l) as H.
  assert (Hid : forall l0 : list string, filter (fun _ => true) l0 = l0)
    by (induction l0; cbn; congruence).
  now rewrite !Hid in H.
Qed.

Lemma title_loop_raises lines e :
  title_loop lines = Raise e -> e = ValueError.
Proof.
  induction lines as [|l rest IH]; cbn [title_loop]; [discriminate|].
  destruct (Nat.ltb 20 (String.length (strip l))
            && negb (startswith (strip l) "Find cookware")); [|exact IH].
  destruct rest as [|n rest']; [exact IH|].
  destruct (contains "minutes" (strip n) && contains "servings" (strip n));
    [|exact IH].
  intros H. now apply read_metadata_raises in H.
Qed.

(** The only exception of the two parsers that can raise is the
    [ValueError] of [int]. *)
Lemma parse_title_and_metadata_raises text e :
  parse_title_and_metadata text = Raise e -> e = ValueError.
Proof.
  unfold parse_title_and_metadata.
  destruct (title_loop (split NLc text)) as [vars|e'] eqn:E; [discriminate|].
  intros H. injection H as <-. now apply title_loop_raises in E.
Qed.

Lemma parse_instructions_raises text e :
  parse_instructions text = Raise e -> e = ValueError.
Proof.
  unfold parse_instructions.
  destruct (re_search re_instructions text) as [m|]; [|discriminate].
  destruct (lines_as_blocks (split NLc (group 1 m)))
    as (pre & blocks & -> & Hpre & Hb).
  rewrite (instruction_steps_blocks _ _ Hpre Hb).
  destruct (existsb long_step blocks); [|discriminate].
  intros H. now injection H as <-.
Qed.

Lemma has_text_spec extract pdf_path :
  has_text extract pdf_path = true <-> extract pdf_path <> "".
Proof.
  unfold has_text. rewrite negb_true_iff. apply String.eqb_neq.
Qed.

Section PipelineFacts.
Variables extract str_path : string -> string.

Lemma parse_recipe_pdf_none pdf_path :
  has_text extract pdf_path = false ->
  parse_recipe_pdf extract pdf_path
  = ([Processing (basename pdf_path); WarnNoText pdf_path], Ok None).
Proof.
  unfold has_text, parse_recipe_pdf. intros H.
  apply negb_false_iff in H. now rewrite H.
Qed.

Lemma parse_recipe_pdf_some pdf_path md steps :
  has_text extract pdf_path = true ->
  parse_title_and_metadata (extract pdf_path) = Ok md ->
  parse_instructions (extract pdf_path) = Ok steps ->
  let text := extract pdf_path in
  let recipe :=
    mkRecipe (generate_recipe_id (meta_title md)) (meta_title md)
             (meta_cookTime md) (meta_servings md)
             (parse_cookware text) (parse_ingredients text) steps [] in
  snd (parse_recipe_pdf extract pdf_path) = Ok (Some recipe) /\
  (incomplete recipe <->
   In (WarnMissing pdf_path (List.length (parse_ingredients text))
                   (List.length steps))
      (fst (parse_recipe_pdf extract pdf_path))).
Proof.
  unfold has_text, parse_recipe_pdf, incomplete. intros H Hmd Hsteps.
  apply negb_true_iff in H. cbv zeta. rewrite H, Hmd, Hsteps. cbn [fst snd].
  split; [reflexivity|]. cbn [r_ingredients r_instructions].
  split.
  - intros Hinc. right.
    destruct (parse_ingredients (extract pdf_path)), steps;
      cbn; destruct Hinc; auto; discriminate.
  - destruct (parse_ingredients (extract pdf_path)), steps; auto.
    cbn. intros [Hf|[Hf|[]]]; discriminate.
Qed.

Lemma parse_recipe_pdf_raises pdf_path :
  has_text extract pdf_path = true ->
  (exists e, parse_title_and_metadata (extract pdf_path) = Raise e) \/
  (exists e, parse_instructions (extract pdf_path) = Raise e) ->
  parse_recipe_pdf extract pdf_path
  = ([Processing (basename pdf_path)], Raise ValueError).
Proof.
  unfold has_text, parse_recipe_pdf. intros H Hr.
  apply negb_true_iff in H. rewrite H.
  destruct (parse_title_and_metadata (extract pdf_path)) as [md|e] eqn:Emd.
  - destruct Hr as [(e & He)|(e & He)]; [discriminate|].
    rewrite He. now rewrite (parse_instructions_raises _ _ He).
  - now rewrite (parse_title_and_metadata_raises _ _ Emd).
Qed.

(** A recipe is returned only for a file with text that both parsers
    accept. *)
Lemma parse_recipe_pdf_recipe pdf_path r :
  snd (parse_recipe_pdf extract pdf_path) = Ok (Some r) ->
  has_text extract pdf_path = true /\
  exists md steps,
    parse_title_and_metadata (extract pdf_path) = Ok md /\
    parse_instructions (extract pdf_path) = Ok steps /\
    r = mkRecipe (generate_recipe_id (meta_title md)) (meta_title md)
                 (meta_cookTime md) (meta_servings md)
                 (parse_cookware (extract pdf_path))
                 (parse_ingredients (extract pdf_path)) steps [].
Proof.
  intros Hr. destruct (has_text extract pdf_path) eqn:Ht.
  - split; [reflexivity|].
    destruct (parse_title_and_metadata (extract pdf_path)) as [md|e] eqn:Emd.
    + destruct (parse_instructions (extract pdf_path)) as [steps|e] eqn:Est.
      * destruct (parse_recipe_pdf_some pdf_path md steps Ht Emd Est)
          as [Hs _].
        rewrite Hs in Hr. injection Hr as <-. eauto.
      * rewrite parse_recipe_pdf_raises in Hr; eauto. discriminate.
    + rewrite parse_recipe_pdf_raises in Hr; eauto. discriminate.
  - rewrite (parse_recipe_pdf_none _ Ht) in Hr. discriminate.
Qed.

Lemma batch_step_eq b f :
  batch_step extract str_path b f
  = mkBatch (b_recipes b ++ option_list (recipe_of extract str_path f))%list
            (b_failed b
             ++ if gives_recipe extract str_path f then [] else [f])%list
            (b_printed b ++ file_events extract str_path f)%list.
Proof.
  unfold batch_step, gives_recipe, recipe_of, file_events.
  destruct (parse_recipe_pdf extract (str_path f)) as [out [[r|]|e]];
    cbn [snd option_list]; rewrite ?app_nil_r; reflexivity.
Qed.

(** The loop over the files: the recipes of the files that give one, in
    order; the other files are recorded as failed. *)
Lemma batch_fold files : forall b,
  let b' := fold_left (batch_step extract str_path) files b in
  b_recipes b'
  = (b_recipes b
     ++ flat_map (fun f => option_list (recipe_of extract str_path f))
                 files)%list /\
  b_failed b'
  = (b_failed b
     ++ filter (fun f => negb (gives_recipe extract str_path f)) files)%list /\
  b_printed b'
  = (b_printed b ++ flat_map (file_events extract str_path) files)%list.
Proof.
  induction files as [|f files IH]; intros b; cbv zeta.
  - cbn. now rewrite !app_nil_r.
  - cbn [fold_left flat_map filter].
    destruct (IH (batch_step extract str_path b f)) as (Hr & Hf & Hp).
    rewrite Hr, Hf, Hp, batch_step_eq. cbn [b_recipes b_failed b_printed].
    rewrite <- !app_assoc.
    destruct (gives_recipe extract str_path f); cbn [negb app]; auto.
Qed.

Lemma length_batch_recipes files :
  List.length
    (flat_map (fun f => option_list (recipe_of extract str_path f)) files)
  = List.length (filter (gives_recipe extract str_path) files).
Proof.
  induction files as [|f files IH]; auto. cbn [flat_map filter].
  rewrite List.length_app, IH. unfold gives_recipe.
  destruct (recipe_of extract str_path f); reflexivity.
Qed.

Lemma process_directory_written pdf_files input_dir output_file :
  pdf_files <> [] ->
  let out := process_directory extract str_path true pdf_files
                               input_dir output_file in
  let rs := flat_map (fun f => option_list (recipe_of extract str_path f))
                     (sorted pdf_files) in
  let failed := filter (fun f => negb (gives_recipe extract str_path f))
                       (sorted pdf_files) in
  written out
  = Some (mkDocument rs (mkDocMetadata (List.length rs)
                                       "Generated by pdf_to_json.py"
                                       input_dir)) /\
  failed_files out = failed /\
  printed out
  = ([Found (List.length pdf_files)]
     ++ flat_map (file_events extract str_path) (sorted pdf_files)
     ++ [Processed (List.length rs)]
     ++ match failed with
        | [] => []
        | _ :: _ => [FailedFiles failed]
        end
     ++ [OutputWritten output_file])%list.
Proof.
  intros Hne. cbv zeta. unfold process_directory. cbn [negb].
  destruct pdf_files as [|f files]; [congruence|].
  cbn [written failed_files printed].
  destruct (batch_fold (sorted (f :: files))
              (mkBatch [] [] [Found (List.length (f :: files))]))
    as (Hr & Hf & Hp).
  cbn [b_recipes b_failed b_printed app] in Hr, Hf, Hp.
  rewrite Hr, Hf, Hp. repeat split.
Qed.

Lemma in_failed_files pdf_files input_dir output_file f :
  pdf_files <> [] ->
  In f (failed_files (process_directory extract str_path true pdf_files
                                        input_dir output_file))
  <-> In f pdf_files /\ gives_recipe extract str_path f = false.
Proof.
  intros Hne.
  destruct (process_directory_written pdf_files input_dir output_file Hne)
    as (_ & -> & _).
  rewrite filter_In, in_sorted, negb_true_iff. reflexivity.
Qed.

(** C6, as amended: for a file whose text could be extracted and whose
    parsing raises nothing, a recipe is returned with whatever ingredients and
    instructions the parsers found (none included); the recipe is in the
    document written and the file is not among the failed ones; an
    incomplete recipe only adds a warning to the output.  When a parser
    raises (a [ValueError], see C2 and C3) no recipe is returned and the
    file is recorded as failed. *)
Theorem parse_recipe_pdf_emits_incomplete
        (pdf_files : list string) (input_dir output_file pdf_file : string) :
  In pdf_file pdf_files ->
  extract (str_path pdf_file) <> "" ->
  let text := extract (str_path pdf_file) in
  let run := parse_recipe_pdf extract (str_path pdf_file) in
  let out := process_directory extract str_path true pdf_files
                               input_dir output_file in
  (forall md steps,
      parse_title_and_metadata text = Ok md ->
      parse_instructions text = Ok steps ->
      exists recipe doc,
        snd run = Ok (Some recipe) /\
        r_ingredients recipe = parse_ingredients text /\
        r_instructions recipe = steps /\
        (incomplete recipe <->
         In (WarnMissing (str_path pdf_file)
                         (List.length (r_ingredients recipe))
                         (List.length (r_instructions recipe)))
            (fst run)) /\
        written out = Some doc /\
        In recipe (recipes doc) /\
        ~ In pdf_file (failed_files out))
  /\
  ((exists e, parse_title_and_metadata text = Raise e) \/
   (exists e, parse_instructions text = Raise e) ->
   snd run = Raise ValueError /\
   In (ErrorProcessing pdf_file ValueError) (printed out) /\
   In pdf_file (failed_files out)).
Proof.
  intros Hin Htext. cbv zeta.
  assert (Ht : has_text extract (str_path pdf_file) = true)
    by now apply has_text_spec.
  assert (Hne : pdf_files <> [])
    by (destruct pdf_files; [destruct Hin|discriminate]).
  destruct (process_directory_written pdf_files input_dir output_file Hne)
    as (Hw & Hf & Hp).
  split.
  - intros md steps Hmd Hsteps.
    destruct (parse_recipe_pdf_some _ md steps Ht Hmd Hsteps) as [Hs Hwarn].
    cbv zeta in Hs, Hwarn.
    assert (Hrec : recipe_of extract str_path pdf_file = Some
              (mkRecipe (generate_recipe_id (meta_title md)) (meta_title md)
                 (meta_cookTime md) (meta_servings md)
                 (parse_cookware (extract (str_path pdf_file)))
                 (parse_ingredients (extract (str_path pdf_file))) steps []))
      by (unfold recipe_of; now rewrite Hs).
    eexists. eexists. split; [exact Hs|].
    cbn [r_ingredients r_instructions].
    split; [reflexivity|]. split; [reflexivity|]. split; [exact Hwarn|].
    split; [exact Hw|]. split.
    + cbn [recipes]. apply in_flat_map. exists pdf_file.
      split; [now apply in_sorted|]. rewrite Hrec. now left.
    + rewrite (in_failed_files _ _ _ _ Hne). unfold gives_recipe.
      rewrite Hrec. intros [_ ?]. discriminate.
  - intros Hr.
    pose proof (parse_recipe_pdf_raises _ Ht Hr) as Hrun.
    rewrite Hrun. cbn [snd]. split; [reflexivity|]. split.
    + rewrite Hp. apply in_or_app. right. apply in_or_app. left.
      apply in_flat_map. exists pdf_file. split; [now apply in_sorted|].
      unfold file_events. rewrite Hrun. apply in_or_app. right. now left.
    + rewrite (in_failed_files _ _ _ _ Hne). split; [exact Hin|].
      unfold gives_recipe, recipe_of. now rewrite Hrun.
Qed.
End PipelineFacts.

Lemma parse_recipe_pdf_emits_incomplete_witness :
  bare_extract (in_dir "bare.pdf") <> "" /\
  exists recipe doc,
    snd (parse_recipe_pdf bare_extract (in_dir "bare.pdf"))
    = Ok (Some recipe) /\
    r_ingredients recipe = [] /\ r_instructions recipe = [] /\
    written (process_directory bare_extract in_dir true
                               ["none.pdf"; "bare.pdf"]
                               "in" "out.json") = Some doc /\
    In recipe (recipes doc).
Proof.
  split; [discriminate|].
  destruct (proj1 (parse_recipe_pdf_emits_incomplete bare_extract in_dir
                     ["none.pdf"; "bare.pdf"] "in" "out.json" "bare.pdf"
                     (or_intror (or_introl eq_refl))
                     ltac:(discriminate))
                  _ _ eq_refl eq_refl)
    as (recipe & doc & Hs & Hing & Hins & _ & Hw & Hin & _).
  exists recipe, doc. repeat split; auto.
Defined.

(** C6, the counterexample: a file with text whose servings number
    [int] refuses gives no recipe: the document has none and the file is
    recorded as failed. *)
Lemma parse_recipe_pdf_long_number_fails :
  long_extract (in_dir "long.pdf") <> "" /\
  snd (parse_recipe_pdf long_extract (in_dir "long.pdf")) = Raise ValueError /\
  written (process_directory long_extract in_dir true ["long.pdf"]
                             "in" "out.json")
  = Some (mkDocument []
            (mkDocMetadata 0 "Generated by pdf_to_json.py" "in")) /\
  failed_files (process_directory long_extract in_dir true ["long.pdf"]
                                  "in" "out.json") = ["long.pdf"].
Proof.
  split; [intros E; apply (f_equal String.length) in E; vm_compute in E;
          discriminate|].
  repeat split; vm_compute; reflexivity.
Qed.

(** C10: in every document [process_directory] writes, [total] is the
    length of the recipe list, which holds one recipe for each file that
    [parse_recipe_pdf] returned a recipe for; the failed files are the
    others and are not counted.  The same holds of the JSON tree that is
    written. *)
Theorem process_directory_total
        (extract str_path : string -> string) (dir_exists : bool)
        (pdf_files : list string) (input_dir output_file : string)
        (doc : OutputDocument) :
  let out := process_directory extract str_path dir_exists pdf_files
                               input_dir output_file in
  written out = Some doc ->
  total (metadata doc) = List.length (recipes doc) /\
  List.length (recipes doc)
  = List.length (filter (gives_recipe extract str_path) pdf_files) /\
  (forall f, In f (failed_files out) <->
             In f pdf_files /\ gives_recipe extract str_path f = false) /\
  List.length (recipes doc) + List.length (failed_files out)
  = List.length pdf_files /\
  exists meta rs,
    py_get (json_dump doc) "metadata" JNull = Ok meta /\
    py_get (json_dump doc) "recipes" JNull = Ok (JList rs) /\
    py_get meta "total" JNull = Ok (JInt (Z.of_nat (List.length rs))).
Proof.
  cbv zeta. intros Hw.
  destruct dir_exists; [|discriminate].
  assert (Hne : pdf_files <> []).
  { intros ->. discriminate. }
  split; [|split; [|split; [|split]]].
  - destruct (process_directory_written extract str_path pdf_files input_dir
                                        output_file Hne) as (Hw' & _).
    rewrite Hw' in Hw. now injection Hw as <-.
  - destruct (process_directory_written extract str_path pdf_files input_dir
                                        output_file Hne) as (Hw' & _).
    rewrite Hw' in Hw. injection Hw as <-. cbn [recipes].
    now rewrite length_batch_recipes, filter_sorted.
  - intros f. now apply in_failed_files.
  - destruct (process_directory_written extract str_path pdf_files input_dir
                                        output_file Hne) as (Hw' & Hf & _).
    rewrite Hw' in Hw. injection Hw as <-. rewrite Hf. cbn [recipes].
    rewrite length_batch_recipes, filter_sorted.
    rewrite (filter_sorted (fun f => negb (gives_recipe extract str_path f))).
    clear. induction pdf_files as [|f l IH]; auto. cbn [filter].
    destruct (gives_recipe extract str_path f);
      cbn [negb List.length] in *; lia.
  - destruct (process_directory_written extract str_path pdf_files input_dir
                                        output_file Hne) as (Hw' & _).
    rewrite Hw' in Hw. injection Hw as <-.
    eexists. eexists. repeat split; try reflexivity.
    cbn [py_get assoc String.eqb Ascii.eqb Bool.eqb recipes metadata total].
    cbn. now rewrite length_map.
Qed.

Lemma process_directory_total_witness :
  exists doc,
    written (process_directory soup_extract in_dir true
               ["soup.pdf"; "scan.pdf"] "in" "out.json") = Some doc /\
    total (metadata doc) = 1 /\ List.length (recipes doc) = 1.
Proof.
  eexists. split; [reflexivity|].
  destruct (process_directory_total soup_extract in_dir true
              ["soup.pdf"; "scan.pdf"] "in" "out.json" _ eq_refl)
    as (Ht & Hl & _).
  split; [rewrite Ht|]; exact Hl.
Defined.

(* ================================================================== *)
(** * validate_json on written documents *)
(* ================================================================== *)

Lemma check_recipe_dump i r :
  exists o, check_recipe i (json_of_recipe r) = Ok o.
Proof.
  unfold check_recipe, json_of_recipe. cbn.
  destruct (r_title r), (r_ingredients r), (r_instructions r);
    cbn; eauto.
Qed.

Lemma check_recipe_complete i r :
  complete r -> check_recipe i (json_of_recipe r) = Ok None.
Proof.
  unfold complete, check_recipe, json_of_recipe. intros (Ht & Hing & Hins).
  cbn.
  destruct (r_title r), (r_ingredients r), (r_instructions r);
    try congruence; reflexivity.
Qed.

Lemma check_loop_dump rs : forall i acc,
  exists issues, check_loop i (map json_of_recipe rs) acc = Ok issues.
Proof.
  induction rs as [|r rs IH]; intros i acc; cbn [map check_loop]; eauto.
  destruct (check_recipe_dump i r) as ([issue|] & ->); cbv iota; apply IH.
Qed.

Lemma check_loop_complete rs : forall i acc,
  Forall complete rs -> check_loop i (map json_of_recipe rs) acc = Ok acc.
Proof.
  induction rs as [|r rs IH]; intros i acc H; cbn [map check_loop]; auto.
  inversion H; subst. rewrite check_recipe_complete by assumption. now apply IH.
Qed.

Lemma sum_len_ingredients rs : forall acc,
  sum_len "ingredients" (map json_of_recipe rs) acc
  = Ok (acc + count_ingredients rs).
Proof.
  unfold count_ingredients.
  induction rs as [|r rs IH]; intros acc;
    unfold list_sum; cbn [map sum_len fold_right]; fold list_sum.
  - now rewrite Nat.add_0_r.
  - cbn [json_of_recipe py_get].
    change (assoc "ingredients" _)
      with (Some (JList (map json_of_ingredient (r_ingredients r)))).
    cbn [py_len]. rewrite IH, length_map. f_equal. unfold list_sum. lia.
Qed.

Lemma sum_len_instructions rs : forall acc,
  sum_len "instructions" (map json_of_recipe rs) acc
  = Ok (acc + count_steps rs).
Proof.
  unfold count_steps.
  induction rs as [|r rs IH]; intros acc;
    unfold list_sum; cbn [map sum_len fold_right]; fold list_sum.
  - now rewrite Nat.add_0_r.
  - cbn [json_of_recipe py_get].
    change (assoc "instructions" _)
      with (Some (JList (map json_of_step (r_instructions r)))).
    cbn [py_len]. rewrite IH, length_map. f_equal. unfold list_sum. lia.
Qed.

(** The run of the validator on a written document, given the outcome of
    the required-field loop. *)
Lemma validate_body_dump doc found :
  check_loop 0 (map json_of_recipe (recipes doc)) [] = Ok found ->
  let n := List.length (recipes doc) in
  let ti := count_ingredients (recipes doc) in
  let ts := count_steps (recipes doc) in
  let checked :=
    match found with
    | [] => [AllRequiredFields]
    | _ :: _ =>
        (Warnings (firstn 10 found)
         :: if Nat.ltb 10 (List.length found)
            then [AndMore (List.length found - 10)] else [])
    end in
  let counted :=
    ([ValidJson n] ++ checked
     ++ [Statistics; TotalRecipes n; TotalIngredients ti; TotalSteps ts])%list in
  validate_body (json_dump doc) []
  = match n with
    | 0 => (counted, Raise ZeroDivisionError)
    | S _ =>
        let a := Qmake (Z.of_nat ti) (Pos.of_nat n) in
        let b := Qmake (Z.of_nat ts) (Pos.of_nat n) in
        ((counted ++ [AvgIngredients a; AvgSteps b])%list,
         Ok (mkReport found (mkStats n ti ts a b)))
    end.
Proof.
  intros Hloop. cbv zeta. unfold validate_body, bind, lift, print, ret.
  cbn [json_dump py_get].
  change (assoc "recipes" _)
    with (Some (JList (map json_of_recipe (recipes doc)))).
  cbn [py_len py_iter]. rewrite Hloop, length_map.
  rewrite (sum_len_ingredients _ 0), (sum_len_instructions _ 0).
  cbn [Nat.add].
  destruct found as [|issue found];
    [|destruct (Nat.ltb 10 (List.length (issue :: found)))];
    destruct (recipes doc) as [|r rs]; reflexivity.
Qed.

Lemma validate_json_complete doc :
  Forall complete (recipes doc) ->
  let out := fst (validate_json (Some (json_dump doc))) in
  In AllRequiredFields out /\ no_warnings out /\
  (forall report,
      snd (validate_json (Some (json_dump doc))) = Some report ->
      issues report = []) /\
  (recipes doc <> [] ->
   exists report,
     snd (validate_json (Some (json_dump doc))) = Some report /\
     issues report = []).
Proof.
  intros Hc. cbv zeta. unfold validate_json.
  rewrite (validate_body_dump doc [] (check_loop_complete _ 0 [] Hc)).
  cbv zeta. destruct (recipes doc) as [|r rs]; cbn [List.length fst snd app].
  - repeat split.
    + cbn; auto.
    + intros e He. cbn in He.
      repeat (destruct He as [<-|He]; [exact I|]). destruct He.
    + discriminate.
    + congruence.
  - repeat split.
    + cbn; auto.
    + intros e He. cbn in He.
      repeat (destruct He as [<-|He]; [exact I|]). destruct He.
    + intros report H. injection H as <-. reflexivity.
    + intros _. eexists. split; reflexivity.
Qed.

(** C7: a document written by [process_directory] in which every recipe
    has a title, ingredients and instructions passes the required-field
    check of the validator: the validator prints that all recipes have the
    required fields, prints no warning, and its list of issues is empty. *)
Theorem written_document_validates
        (extract str_path : string -> string) (dir_exists : bool)
        (pdf_files : list string) (input_dir output_file : string)
        (doc : OutputDocument) :
  written (process_directory extract str_path dir_exists pdf_files
                             input_dir output_file) = Some doc ->
  Forall complete (recipes doc) ->
  let out := fst (validate_json (Some (json_dump doc))) in
  In AllRequiredFields out /\ no_warnings out /\
  (forall report,
      snd (validate_json (Some (json_dump doc))) = Some report ->
      issues report = []) /\
  (recipes doc <> [] ->
   exists report,
     snd (validate_json (Some (json_dump doc))) = Some report /\
     issues report = []).
Proof. intros _. apply validate_json_complete. Qed.

Lemma written_document_validates_witness :
  exists report,
    snd (validate_json (Some (json_dump soup_doc))) = Some report /\
    issues report = [].
Proof.
  refine (proj2 (proj2 (proj2
    (written_document_validates soup_extract in_dir true ["soup.pdf"]
       "in" "out.json" soup_doc eq_refl _))) _).
  - repeat constructor; discriminate.
  - discriminate.
Defined.

(* ================================================================== *)
(** * validate_json: the averages *)
(* ================================================================== *)

Lemma check_recipe_raises i v e :
  check_recipe i v = Raise e -> e = AttributeError.
Proof.
  unfold check_recipe. destruct v; cbn [py_get]; try congruence.
  destruct (assoc "title" l), (assoc "ingredients" l), (assoc "instructions" l),
    (assoc "id" l);
    repeat match goal with
           | |- context [if ?b then _ else _] => destruct b
           end; cbn; congruence.
Qed.

Lemma check_loop_raises items : forall i acc e,
  check_loop i items acc = Raise e -> e = AttributeError.
Proof.
  induction items as [|v items IH]; intros i acc e; cbn [check_loop];
    [discriminate|].
  destruct (check_recipe i v) as [[issue|]|e'] eqn:E; eauto.
  intros H. injection H as <-. eapply check_recipe_raises; eauto.
Qed.

Lemma sum_len_raises key items : forall acc e,
  sum_len key items acc = Raise e -> e <> ZeroDivisionError.
Proof.
  induction items as [|v items IH]; intros acc e; cbn [sum_len];
    [discriminate|].
  destruct (py_get v key (JList [])) as [x|e1] eqn:E1.
  - destruct (py_len x) as [n|e2] eqn:E2; eauto.
    intros H. injection H as <-.
    destruct x; cbn in E2; try discriminate E2; injection E2 as <-;
      discriminate.
  - intros H. injection H as <-.
    destruct v; cbn in E1; try (injection E1 as <-; discriminate).
    destruct (assoc key l); discriminate E1.
Qed.

Lemma py_iter_of_len v n : py_len v = Ok n -> exists items, py_iter v = Ok items.
Proof. destruct v; cbn; try discriminate; eauto. Qed.

(** With a positive number of recipes the validator never divides by
    zero, whatever the document looks like. *)
Lemma validate_body_no_zero_division data recipes n :
  py_get data "recipes" (JList []) = Ok recipes ->
  py_len recipes = Ok n ->
  0 < n ->
  snd (validate_body data []) <> Raise ZeroDivisionError.
Proof.
  intros Hget Hlen Hn.
  destruct (py_iter_of_len _ _ Hlen) as (items & Hiter).
  unfold validate_body, bind, lift, print, ret.
  rewrite Hget, Hlen, Hiter.
  destruct (check_loop 0 items []) as [found|e] eqn:El.
  2:{ apply check_loop_raises in El. subst e. discriminate. }
  destruct found as [|issue found];
    [|destruct (Nat.ltb 10 (List.length (issue :: found))) eqn:E10];
    cbv beta iota;
    destruct (sum_len "ingredients" items 0) as [ti|e] eqn:E1;
    try (cbn; intros H; injection H as ->; now apply sum_len_raises in E1);
    destruct (sum_len "instructions" items 0) as [ts|e] eqn:E2;
    try (cbn; intros H; injection H as ->; now apply sum_len_raises in E2);
    (destruct n; [lia|]); cbn; discriminate.
Qed.

(** C8: the averages are computed by dividing by the number of recipes
    with no guard.  On a document with at least one recipe both divisions
    are defined and the validator reports the two quotients; whatever the
    JSON looks like, a positive recipe count rules out a division by zero;
    on a document without recipes the unguarded division raises (and the
    validator reports the error instead of the averages). *)
Theorem validate_json_averages :
  (forall doc,
      recipes doc <> [] ->
      let n := List.length (recipes doc) in
      let a := Qmake (Z.of_nat (count_ingredients (recipes doc))) (Pos.of_nat n) in
      let b := Qmake (Z.of_nat (count_steps (recipes doc))) (Pos.of_nat n) in
      py_truediv (count_ingredients (recipes doc)) n = Ok a /\
      py_truediv (count_steps (recipes doc)) n = Ok b /\
      exists out report,
        validate_json (Some (json_dump doc)) = (out, Some report) /\
        avg_ingredients (stats report) = a /\
        avg_steps (stats report) = b /\
        In (AvgIngredients a) out /\ In (AvgSteps b) out)
  /\
  (forall data recipes n,
      py_get data "recipes" (JList []) = Ok recipes ->
      py_len recipes = Ok n ->
      0 < n ->
      snd (validate_body data []) <> Raise ZeroDivisionError)
  /\
  (forall doc,
      recipes doc = [] ->
      snd (validate_body (json_dump doc) []) = Raise ZeroDivisionError /\
      validate_json (Some (json_dump doc))
      = ([ValidJson 0; AllRequiredFields; Statistics; TotalRecipes 0;
          TotalIngredients 0; TotalSteps 0; ErrorValidating ZeroDivisionError],
         None)).
Proof.
  split; [|split].
  - intros doc Hne. cbv zeta.
    destruct (check_loop_dump (recipes doc) 0 []) as (found & Hloop).
    unfold validate_json. rewrite (validate_body_dump doc found Hloop).
    cbv zeta. destruct (recipes doc) as [|r rs] eqn:Er; [congruence|].
    cbn [List.length py_truediv].
    split; [reflexivity|]. split; [reflexivity|].
    eexists. eexists. split; [reflexivity|].
    cbn [stats avg_ingredients avg_steps].
    split; [reflexivity|]. split; [reflexivity|].
    split; apply in_or_app; right; cbn; auto.
  - exact validate_body_no_zero_division.
  - intros doc He. unfold validate_json.
    rewrite (validate_body_dump doc []) by (rewrite He; reflexivity).
    cbv zeta. rewrite He. split; reflexivity.
Qed.

Lemma validate_json_averages_witness :
  exists out report,
    validate_json (Some (json_dump soup_doc)) = (out, Some report) /\
    avg_ingredients (stats report) = Qmake 2 1 /\
    avg_steps (stats report) = Qmake 2 1.
Proof.
  assert (Hne : recipes soup_doc <> []) by discriminate.
  destruct (proj1 validate_json_averages soup_doc Hne)
    as (_ & _ & out & report & Hv & Ha & Hb & _).
  exists out, report. split; [exact Hv|]. split; [exact Ha|exact Hb].
Defined.

(* ================================================================== *)
(** * generate_recipe_id: further properties *)
(* ================================================================== *)

Lemma lower_char_idem c : lower_char (lower_char c) = lower_char c.
Proof. each_char c. Qed.

Lemma lower_idem s : lower (lower s) = lower s.
Proof.
  induction s as [|c s IH]; cbn [lower]; [reflexivity|].
  now rewrite lower_char_idem, IH.
Qed.

Lemma lower_fixed s :
  all (fun c => negb (is_upper c)) s = true -> lower s = s.
Proof.
  induction s as [|c s IH]; cbn [lower all]; [reflexivity|].
  rewrite andb_true_iff. intros [Hc Hs]. rewrite (IH Hs).
  unfold lower_char. apply negb_true_iff in Hc. now rewrite Hc.
Qed.

Lemma filter_fixed p s : all p s = true -> str_filter p s = s.
Proof.
  induction s as [|c s IH]; cbn [str_filter all]; [reflexivity|].
  rewrite andb_true_iff. intros [Hc Hs]. now rewrite Hc, IH.
Qed.

Lemma collapse_fixed s :
  all (fun c => negb (is_space c)) s = true ->
  no_hyphen_pair s = true ->
  collapse false s = s /\
  (head_is (is_char hyphen) s = false -> collapse true s = s).
Proof.
  induction s as [|c s IH]; [now split|].
  cbn [all]. rewrite andb_true_iff. intros [Hc Hs] Hp.
  rewrite no_hyphen_pair_cons in Hp. apply andb_true_iff in Hp as [Hch Hp].
  destruct (IH Hs Hp) as [IH1 IH2].
  cbn [collapse head_is]. unfold hyphen_or_space.
  apply negb_true_iff in Hc. rewrite Hc, orb_false_r.
  destruct (is_char hyphen c) eqn:Eh.
  - cbn [andb] in Hch. apply negb_true_iff in Hch.
    unfold is_char in Eh. apply Ascii.eqb_eq in Eh. subst c.
    split; [|discriminate]. now rewrite IH2.
  - split; [|intros _]; now rewrite IH1.
Qed.

Lemma lstrip_fixed p s : head_is p s = false -> lstrip_by p s = s.
Proof. destruct s as [|c s]; cbn; [reflexivity|]. now intros ->. Qed.

Lemma rstrip_fixed p s : last_is p s = false -> rstrip_by p s = s.
Proof.
  induction s as [|c s IH]; [reflexivity|]. intros Hl.
  destruct s as [|d s].
  - cbn in *. now rewrite Hl.
  - change (rstrip_by p (String c (String d s)))
      with (match rstrip_by p (String d s) with
            | "" => if p c then "" else String c ""
            | r => String c r
            end).
    now rewrite (IH Hl).
Qed.

Lemma strip_by_fixed p s :
  head_is p s = false -> last_is p s = false -> strip_by p s = s.
Proof.
  intros Hh Hl. unfold strip_by. rewrite (lstrip_fixed p s Hh).
  now apply rstrip_fixed.
Qed.

Lemma slug_char_facts c :
  slug_char c = true ->
  is_upper c = false /\ non_slug_char c = false /\ is_space c = false.
Proof. each_char c. Qed.

(** The shape of an identifier, as boolean facts. *)
Lemma generate_recipe_id_shape title :
  let id := generate_recipe_id title in
  all slug_char id = true /\
  head_is is_hyphen id = false /\
  last_is is_hyphen id = false /\
  no_hyphen_pair id = true.
Proof.
  cbv zeta. rewrite generate_recipe_id_unfold.
  set (kept := str_filter (fun c => negb (non_slug_char c)) (lower title)).
  repeat split.
  - apply strip_chars_all, collapse_chars; [reflexivity|].
    eapply all_impl; [exact kept_char_slug|].
    apply all_and; [apply all_filter|].
    apply all_filter_keeps, all_lower_not_upper.
  - apply head_rstrip, head_lstrip.
  - apply last_rstrip.
  - apply no_hyphen_pair_rstrip, no_hyphen_pair_lstrip, collapse_no_pair.
Qed.

Lemma head_is_ext p q s :
  (forall c, p c = q c) -> head_is p s = head_is q s.
Proof. intros H. destruct s; cbn; auto. Qed.

(** X1: an identifier is its own identifier: applying
    [generate_recipe_id] to one of its results changes nothing. *)
Theorem generate_recipe_id_idempotent (title : string) :
  generate_recipe_id (generate_recipe_id title) = generate_recipe_id title.
Proof.
  destruct (generate_recipe_id_shape title) as (Hs & Hh & Hl & Hp).
  set (id := generate_recipe_id title) in *.
  rewrite generate_recipe_id_unfold.
  assert (Hup : all (fun c => negb (is_upper c)) id = true).
  { eapply all_impl; [|exact Hs]. intros c Hc.
    apply slug_char_facts in Hc as (-> & _). reflexivity. }
  assert (Hkeep : all (fun c => negb (non_slug_char c)) id = true).
  { eapply all_impl; [|exact Hs]. intros c Hc.
    apply slug_char_facts in Hc as (_ & -> & _). reflexivity. }
  assert (Hsp : all (fun c => negb (is_space c)) id = true).
  { eapply all_impl; [|exact Hs]. intros c Hc.
    apply slug_char_facts in Hc as (_ & _ & ->). reflexivity. }
  rewrite (lower_fixed _ Hup), (filter_fixed _ _ Hkeep).
  rewrite (proj1 (collapse_fixed _ Hsp Hp)).
  now apply strip_by_fixed.
Qed.

Lemma is_word_lower c : is_word (lower_char c) = is_word c.
Proof. each_char c. Qed.

Lemma not_word_lower s : all not_word (lower s) = all not_word s.
Proof.
  induction s as [|c s IH]; cbn [lower all]; [reflexivity|].
  unfold not_word at 1 3. now rewrite is_word_lower, IH.
Qed.

Lemma not_word_filter s :
  all not_word (str_filter (fun c => negb (non_slug_char c)) s)
  = all not_word s.
Proof.
  induction s as [|c s IH]; cbn [str_filter all]; [reflexivity|].
  destruct (non_slug_char c) eqn:E; cbn [negb all]; [|now rewrite IH].
  rewrite IH. unfold not_word at 2. unfold non_slug_char in E.
  apply negb_true_iff, orb_false_iff in E as [E _].
  apply orb_false_iff in E as [-> _]. reflexivity.
Qed.

Lemma run_char_not_word c : hyphen_or_space c = true -> not_word c = true.
Proof. each_char c. Qed.

Lemma not_word_collapse b s : all not_word (collapse b s) = all not_word s.
Proof.
  revert b; induction s as [|c s IH]; intros b; cbn [collapse all];
    [reflexivity|].
  destruct (hyphen_or_space c) eqn:E.
  - rewrite (run_char_not_word c E). cbn [andb].
    destruct b; [apply IH|]. cbn [all]. now rewrite IH.
  - cbn [all]. now rewrite IH.
Qed.

Lemma not_word_lstrip p s :
  (forall c, p c = true -> not_word c = true) ->
  all not_word (lstrip_by p s) = all not_word s.
Proof.
  intros Hp. induction s as [|c s IH]; cbn [lstrip_by all]; [reflexivity|].
  destruct (p c) eqn:E; [|reflexivity]. now rewrite (Hp c E), IH.
Qed.

Lemma not_word_rstrip p s :
  (forall c, p c = true -> not_word c = true) ->
  all not_word (rstrip_by p s) = all not_word s.
Proof.
  intros Hp. induction s as [|c s IH]; [reflexivity|].
  cbn [rstrip_by all]. rewrite <- IH.
  destruct (rstrip_by p s) as [|d r].
  - destruct (p c) eqn:E; cbn [all]; [now rewrite (Hp c E)|].
    now rewrite andb_true_r.
  - reflexivity.
Qed.

Lemma hyphen_not_word c : is_hyphen c = true -> not_word c = true.
Proof. each_char c. Qed.

Lemma not_word_id title :
  all not_word (generate_recipe_id title) = all not_word title.
Proof.
  rewrite generate_recipe_id_unfold. unfold strip_chars, strip_by.
  rewrite (not_word_rstrip _ _ hyphen_not_word).
  rewrite (not_word_lstrip _ _ hyphen_not_word).
  now rewrite not_word_collapse, not_word_filter, not_word_lower.
Qed.

Lemma slug_not_word_hyphen c :
  slug_char c = true -> not_word c = true -> is_hyphen c = true.
Proof. each_char c. Qed.

(** X2: the identifier is empty exactly when the title has no word
    character (no letter, digit or underscore). *)
Theorem generate_recipe_id_empty_iff (title : string) :
  generate_recipe_id title = "" <-> all not_word title = true.
Proof.
  rewrite <- not_word_id. split; [intros ->; reflexivity|].
  destruct (generate_recipe_id_shape title) as (Hs & Hh & _).
  destruct (generate_recipe_id title) as [|c id]; [reflexivity|].
  cbn [all head_is] in *. rewrite !andb_true_iff.
  intros [Hc _]. apply andb_true_iff in Hs as [Hs _].
  rewrite (slug_not_word_hyphen c Hs Hc) in Hh. discriminate.
Qed.

Lemma generate_recipe_id_empty_iff_witness :
  all not_word "?! -" = true /\ generate_recipe_id "?! -" = "".
Proof.
  split; [reflexivity|].
  apply (proj2 (generate_recipe_id_empty_iff "?! -")). reflexivity.
Defined.

(** X3: identifiers ignore letter case: two titles with the same
    lower-case form get the same identifier. *)
Theorem generate_recipe_id_ignores_case (title1 title2 : string) :
  lower title1 = lower title2 ->
  generate_recipe_id title1 = generate_recipe_id title2.
Proof. intros H. rewrite !generate_recipe_id_unfold. now rewrite H. Qed.

Lemma generate_recipe_id_ignores_case_witness :
  lower "Lemon PIE" = lower "lemon pie" /\
  generate_recipe_id "Lemon PIE" = generate_recipe_id "lemon pie".
Proof.
  split; [reflexivity|].
  apply (generate_recipe_id_ignores_case "Lemon PIE" "lemon pie").
  reflexivity.
Defined.

(* ================================================================== *)
(** * parse_title_and_metadata: what every result looks like *)
(* ================================================================== *)

Lemma split_no_newline s :
  Forall (fun l => all not_newline l = true) (split NLc s).
Proof.
  induction s as [|c s IH]; cbn [split].
  - repeat constructor.
  - destruct (Ascii.eqb c NLc) eqn:E.
    + constructor; [reflexivity|exact IH].
    + destruct (split NLc s) as [|h t]; inversion IH; subst.
      * repeat constructor. cbn. unfold not_newline. now rewrite E.
      * constructor; [|assumption]. cbn [all]. unfold not_newline at 1.
        rewrite E. assumption.
Qed.

Lemma all_strip q s : all q s = true -> all q (strip s) = true.
Proof. intros H. apply all_rstrip, all_lstrip, H. Qed.

Lemma strip_head s : head_is is_space (strip s) = false.
Proof. apply head_rstrip, head_lstrip. Qed.

(** The loop either finds nothing or reads the metadata after a line of
    the text that is longer than 20 characters. *)
Lemma title_loop_cases lines :
  title_loop lines = Ok no_meta \/
  exists line next,
    In line lines /\ Nat.ltb 20 (String.length (strip line)) = true /\
    title_loop lines = read_metadata (strip line) (strip next).
Proof.
  induction lines as [|l rest IH]; [now left|].
  assert (Hrest : title_loop rest = Ok no_meta \/
                  exists line next,
                    In line (l :: rest) /\
                    Nat.ltb 20 (String.length (strip line)) = true /\
                    title_loop rest = read_metadata (strip line) (strip next)).
  { destruct IH as [IH|(line & next & Hin & Hlen & IH)]; [now left|].
    right. exists line, next. repeat split; auto. now right. }
  cbn [title_loop].
  destruct (Nat.ltb 20 (String.length (strip l))) eqn:E1; cbn [andb];
    [|exact Hrest].
  destruct (negb (startswith (strip l) "Find cookware")); [|exact Hrest].
  destruct rest as [|n rest']; [exact Hrest|].
  destruct (contains "minutes" (strip n) && contains "servings" (strip n));
    [|exact Hrest].
  right. exists l, n. repeat split; auto. now left.
Qed.

Lemma or_int_positive x d : d <> 0%N -> or_int x d <> 0%N.
Proof. destruct x as [[|p]|]; cbn; auto; discriminate. Qed.

(** What [parse_title_and_metadata] returns when it returns: the
    defaults, or the values read after a line of the text. *)
Lemma parse_title_and_metadata_ok text md :
  parse_title_and_metadata text = Ok md ->
  md = mkMetadata "Unknown Recipe" "30 minutes" 2 \/
  exists line next vars,
    In line (split NLc text) /\ 20 < String.length (strip line) /\
    read_metadata (strip line) (strip next) = Ok vars /\
    md = mkMetadata (strip line)
                    (or_str (v_cook_time vars) "30 minutes")
                    (or_int (v_servings vars) 2).
Proof.
  unfold parse_title_and_metadata.
  destruct (title_loop_cases (split NLc text))
    as [->|(line & next & Hin & Hlen & ->)].
  - intros H. injection H as <-. now left.
  - destruct (read_metadata (strip line) (strip next)) as [vars|e] eqn:E;
      [|discriminate].
    intros H. injection H as <-. right. exists line, next, vars.
    apply Nat.ltb_lt in Hlen.
    destruct (read_metadata_ok _ _ _ E) as (Ht & _).
    rewrite Ht, or_str_some
      by (intros E0; rewrite E0 in Hlen; cbn in Hlen; lia).
    auto.
Qed.

(** X4: whatever the text, the metadata returned is well formed: the
    title is not empty, has no white space at its ends and no newline, and
    is either "Unknown Recipe" or longer than 20 characters; the servings
    are at least 1; the cook time is a number followed by " minutes".
    Cook time and servings are only ever read together with a title: with
    the title "Unknown Recipe" they are the defaults. *)
Theorem parse_title_and_metadata_well_formed (text : string) (md : Metadata) :
  parse_title_and_metadata text = Ok md ->
  meta_title md <> "" /\
  head_is is_space (meta_title md) = false /\
  last_is is_space (meta_title md) = false /\
  all not_newline (meta_title md) = true /\
  (meta_title md = "Unknown Recipe" \/ 20 < String.length (meta_title md)) /\
  (meta_title md = "Unknown Recipe" ->
   md = mkMetadata "Unknown Recipe" "30 minutes" 2) /\
  meta_servings md <> 0%N /\
  exists d, d <> "" /\ all is_digit d = true /\
            meta_cookTime md = d ++ " minutes".
Proof.
  intros Hmd.
  destruct (parse_title_and_metadata_ok _ _ Hmd)
    as [->|(line & next & vars & Hin & Hlong & Hread & ->)].
  - cbn. repeat split; try discriminate; auto.
    exists "30". repeat split; auto; discriminate.
  - cbn [meta_title meta_cookTime meta_servings].
    assert (Hne : strip line <> "").
    { intros E. rewrite E in Hlong. cbn in Hlong. lia. }
    destruct (read_metadata_ok _ _ _ Hread) as (_ & Hct & _).
    repeat split.
    + exact Hne.
    + apply strip_head.
    + apply strip_last.
    + apply all_strip.
      pose proof (split_no_newline text) as Hall.
      rewrite Forall_forall in Hall. now apply Hall.
    + now right.
    + intros E. rewrite E in Hlong. cbn in Hlong. lia.
    + apply or_int_positive. discriminate.
    + rewrite Hct.
      destruct (re_search re_time (strip next)) as [m|] eqn:E.
      * destruct (search_time_some _ _ E) as (_ & _ & _ & _ & Hd & Hdig & _).
        exists (group 1 m). repeat split; auto.
        apply or_str_some. destruct (group 1 m); discriminate.
      * exists "30". repeat split; auto; discriminate.
Qed.

Lemma parse_title_and_metadata_well_formed_witness :
  parse_title_and_metadata soup_text
  = Ok (mkMetadata "Creamy Tomato Basil Soup" "25 minutes" 4) /\
  20 < String.length "Creamy Tomato Basil Soup".
Proof.
  split; [reflexivity|].
  destruct (parse_title_and_metadata_well_formed soup_text _ eq_refl)
    as (_ & _ & _ & _ & [E|H] & _); [discriminate E|exact H].
Defined.

(** X5: a text in which no line is longer than 20 characters (white space
    at the ends not counted) has no title for the parser, and the result
    is the three defaults even if the text has a line with its minutes and
    servings. *)
Theorem parse_title_and_metadata_short_lines (text : string) :
  (forall line, In line (split NLc text) ->
                String.length (strip line) <= 20) ->
  parse_title_and_metadata text
  = Ok (mkMetadata "Unknown Recipe" "30 minutes" 2).
Proof.
  intros Hshort. unfold parse_title_and_metadata.
  destruct (title_loop_cases (split NLc text))
    as [->|(line & next & Hin & Hlen & _)]; [reflexivity|].
  apply Nat.ltb_lt in Hlen. specialize (Hshort line Hin). lia.
Qed.

Lemma parse_title_and_metadata_short_lines_witness :
  parse_title_and_metadata (join NL ["Beef Stew"; "5 minutes 2 servings"])
  = Ok (mkMetadata "Unknown Recipe" "30 minutes" 2).
Proof.
  apply parse_title_and_metadata_short_lines.
  intros line [<-|[<-|[]]]; vm_compute; lia.
Defined.

(* ================================================================== *)
(** * The section parsers: which part of the text they read *)
(* ================================================================== *)

Lemma split_app_le (a : string) : forall b c d,
  a ++ b = c ++ d -> String.length a <= String.length c ->
  exists x, c = a ++ x /\ b = x ++ d.
Proof.
  induction a as [|h a IH]; intros b c d E Hlen.
  - exists c. auto.
  - destruct c as [|h' c]; [cbn in Hlen; lia|].
    cbn [append] in E. injection E as <- E.
    cbn [String.length] in Hlen.
    destruct (IH b c d E ltac:(lia)) as (x & -> & ->).
    exists x. auto.
Qed.

Lemma app_same_length (a : string) : forall b c d,
  a ++ b = c ++ d -> String.length a = String.length c -> a = c /\ b = d.
Proof.
  intros b c d E Hlen.
  destruct (split_app_le a b c d E ltac:(lia)) as (x & -> & ->).
  rewrite length_append in Hlen. destruct x; [|cbn in Hlen; lia].
  now rewrite append_nil_r.
Qed.

Lemma search_from_at r s : forall pos m,
  search_from r pos s = Some m ->
  exists pre post,
    s = pre ++ post /\
    match_at r (pos + String.length pre) post = Some m /\
    forall pre' post',
      s = pre' ++ post' -> String.length pre' < String.length pre ->
      match_at r (pos + String.length pre') post' = None.
Proof.
  induction s as [|c s IH]; intros pos m H; cbn [search_from] in H.
  - exists "", "". cbn [append String.length]. rewrite Nat.add_0_r.
    destruct (match_at r pos ""); [|discriminate].
    repeat split; auto. intros ? ? _ Hlt. inversion Hlt.
  - destruct (match_at r pos (String c s)) eqn:E.
    + exists "", (String c s). cbn [append String.length].
      rewrite Nat.add_0_r. injection H as <-.
      repeat split; auto. intros ? ? _ Hlt. inversion Hlt.
    + destruct (IH _ _ H) as (pre & post & -> & Hm & Hleft).
      exists (String c pre), post. cbn [append String.length].
      rewrite Nat.add_succ_r. repeat split; auto.
      intros pre' post' E' Hlt. destruct pre' as [|c' pre'].
      * cbn [append String.length] in *. subst post'.
        now rewrite Nat.add_0_r.
      * cbn [append String.length] in *. injection E' as _ E'.
        rewrite Nat.add_succ_r. apply Hleft; [exact E'|lia].
Qed.

Lemma search_from_none_at r s : forall pos,
  search_from r pos s = None ->
  forall pre post, s = pre ++ post ->
                   match_at r (pos + String.length pre) post = None.
Proof.
  induction s as [|c s IH]; intros pos H pre post E;
    cbn [search_from] in H;
    destruct (match_at r pos _) eqn:Em; try discriminate.
  - destruct pre; [|discriminate]. cbn [append String.length] in *.
    subst post. now rewrite Nat.add_0_r.
  - destruct pre as [|c' pre]; cbn [append String.length] in *.
    + subst post. now rewrite Nat.add_0_r.
    + injection E as _ E. rewrite Nat.add_succ_r. now apply (IH _ H).
Qed.

Section LazyFirst.
Variable A : Type.

(** A lazy repetition stops at the first length its continuation
    accepts. *)
Lemma star_lazy_first p (k : cont A) s : forall pos g x,
  star_lazy p k pos s g = Some x ->
  exists m rest,
    s = m ++ rest /\ all p m = true /\
    k (pos + String.length m) rest g = Some x /\
    forall m' rest',
      s = m' ++ rest' -> String.length m' < String.length m ->
      k (pos + String.length m') rest' g = None.
Proof.
  induction s as [|c s IH]; intros pos g x H; cbn [star_lazy] in H.
  - exists "", "". rewrite Nat.add_0_r.
    destruct (k pos "" g); [|discriminate].
    repeat split; auto. intros ? ? _ Hlt. inversion Hlt.
  - destruct (k pos (String c s) g) eqn:Hk.
    + exists "", (String c s). rewrite Nat.add_0_r, Hk.
      repeat split; auto. intros ? ? _ Hlt. inversion Hlt.
    + destruct (p c) eqn:Hc; [|discriminate].
      destruct (IH _ _ _ H) as (m & rest & -> & Hm & Hk' & Hmin).
      exists (String c m), rest. cbn [append all String.length].
      rewrite Hc, Hm, Nat.add_succ_r. repeat split; auto.
      intros m' rest' E' Hlt. destruct m' as [|c' m'].
      * cbn [append String.length] in *. subst rest'.
        now rewrite Nat.add_0_r.
      * cbn [append String.length] in *. injection E' as _ E'.
        rewrite Nat.add_succ_r. apply Hmin; [exact E'|lia].
Qed.

Lemma run_lit_inv w (k : cont A) pos s g x :
  run (lit w) k pos s g = Some x ->
  exists rest, s = w ++ rest /\ k (pos + String.length w) rest g = Some x.
Proof.
  intros H. apply run_sound in H as (m & rest & gs & -> & M & H).
  apply Matches_lit_inv in M as [-> ->]. eauto.
Qed.
End LazyFirst.

Lemma all_any_char s : all any_char s = true.
Proof. induction s; cbn; auto. Qed.

Section SectionSearch.
Variables (anchor : string) (tail : regex) (ends : string -> Prop).
Hypothesis tail_spec : forall pos s,
  (exists mt rest gs, s = mt ++ rest /\ Matches tail pos mt rest gs)
  <-> ends s.
Hypothesis tail_no_groups : forall pos mt rest gs,
  Matches tail pos mt rest gs -> gs = [].

Lemma Matches_section pos sec mt rest gs :
  Matches tail (pos + String.length anchor + String.length NL
                + String.length sec) mt rest gs ->
  Matches (re_section anchor tail) pos
          (anchor ++ NL ++ sec ++ mt) rest (gs ++ [(1, sec)])%list.
Proof.
  intros M. unfold re_section.
  eapply (MSeq' _ _ _ _ anchor (NL ++ sec ++ mt)).
  - apply Matches_lit.
  - eapply (MSeq' _ _ _ _ NL (sec ++ mt)).
    + apply MCls. reflexivity.
    + eapply (MSeq' _ _ _ _ sec mt).
      * apply MGrp, MStar, all_any_char.
      * exact M.
      * reflexivity.
      * reflexivity.
    + reflexivity.
    + reflexivity.
  - reflexivity.
  - now rewrite !app_nil_r.
Qed.

Lemma match_at_section_none pos s :
  match_at (re_section anchor tail) pos s = None ->
  forall sec rest, s = anchor ++ NL ++ sec ++ rest -> ~ ends rest.
Proof.
  intros H sec rest -> He.
  apply (tail_spec (pos + String.length anchor + String.length NL
                    + String.length sec)) in He
    as (mt & rest' & gs & -> & M).
  apply (match_at_complete _ _ _ H (anchor ++ NL ++ sec ++ mt) rest'
                           (gs ++ [(1, sec)])%list).
  - now rewrite !append_assoc_s.
  - now apply Matches_section.
Qed.

Lemma match_at_section_some pos s m :
  match_at (re_section anchor tail) pos s = Some m ->
  exists sec rest,
    s = anchor ++ NL ++ sec ++ rest /\ ends rest /\ group 1 m = sec /\
    forall sec' rest', sec ++ rest = sec' ++ rest' -> ends rest' ->
                       String.length sec <= String.length sec'.
Proof.
  unfold match_at, re_section. intros H.
  change (run (lit anchor)
              (run (Seq (Cls (is_char NLc))
                        (Seq (Grp 1 (Star false any_char)) tail))
                   (fun pos' _ g => Some (mkMatch pos pos' g)))
              pos s [] = Some m) in H.
  apply run_lit_inv in H as (s1 & -> & H).
  cbn [run] in H. destruct s1 as [|c s2]; [discriminate|].
  destruct (is_char NLc c) eqn:Ec; [|discriminate].
  unfold is_char in Ec. apply Ascii.eqb_eq in Ec. subst c.
  apply star_lazy_first in H as (sec & rest & -> & _ & Hk & Hmin).
  exists sec, rest. split; [reflexivity|].
  pose proof Hk as Hk'.
  apply run_sound in Hk' as (mt & rest' & gs & E & M & Hfin).
  split; [eapply (proj1 (tail_spec _ rest)); exists mt, rest', gs; split; [exact E|exact M]|]. split.
  - rewrite (tail_no_groups _ _ _ _ M) in Hfin. injection Hfin as <-.
    unfold group. cbn [m_groups app lookup Nat.eqb].
    match goal with |- substring 0 ?n _ = _ =>
      replace n with (String.length sec) by lia end.
    apply take_app.
  - intros sec' rest'' E' He.
    destruct (Nat.le_gt_cases (String.length sec) (String.length sec'))
      as [Hle|Hgt]; [exact Hle|exfalso].
    specialize (Hmin sec' rest'' E' Hgt).
    apply (tail_spec (S (pos + String.length anchor) + String.length sec'))
      in He as (mt' & r' & gs' & Er & M').
    pose proof (run_complete _ _ _ _ _ _ Hmin _ _ _ Er M') as Hnone.
    discriminate.
Qed.

Lemma search_section_some text m :
  re_search (re_section anchor tail) text = Some m ->
  section_of anchor ends text (group 1 m).
Proof.
  intros H. apply search_from_at in H as (pre & post & -> & Hm & Hleft).
  apply match_at_section_some in Hm as (sec & rest & -> & He & -> & Hmin).
  exists pre, rest. repeat split; auto.
  intros pre' post' E.
  destruct (Nat.le_gt_cases (String.length pre) (String.length pre'))
    as [Hle|Hgt]; [exact Hle|exfalso].
  specialize (Hleft pre' (anchor ++ NL ++ post') E Hgt).
  assert (E2 : (pre' ++ anchor ++ NL) ++ post'
               = (pre ++ anchor ++ NL ++ sec) ++ rest).
  { rewrite !append_assoc_s. symmetry. exact E. }
  apply split_app_le in E2 as (x & _ & ->).
  - exact (match_at_section_none _ _ Hleft x rest eq_refl He).
  - rewrite !length_append. lia.
Qed.

Lemma search_section_none text :
  re_search (re_section anchor tail) text = None ->
  no_section anchor ends text.
Proof.
  intros H pre sec rest E.
  pose proof (search_from_none_at _ _ _ H pre _ E) as Hm.
  exact (match_at_section_none _ _ Hm sec rest eq_refl).
Qed.

Lemma section_of_unique text sec1 sec2 :
  section_of anchor ends text sec1 -> section_of anchor ends text sec2 ->
  sec1 = sec2.
Proof.
  intros (pre1 & rest1 & E1 & He1 & Hf1 & Hm1)
         (pre2 & rest2 & E2 & He2 & Hf2 & Hm2).
  pose proof (Hf1 pre2 _ E2) as Hle1. pose proof (Hf2 pre1 _ E1) as Hle2.
  rewrite E1 in E2.
  apply app_same_length in E2 as [_ E2]; [|lia].
  assert (E3 : sec1 ++ rest1 = sec2 ++ rest2).
  { assert (E4 : (anchor ++ NL) ++ sec1 ++ rest1
                 = (anchor ++ NL) ++ sec2 ++ rest2)
      by now rewrite !append_assoc_s.
    now apply app_same_length in E4 as [_ E4]. }
  pose proof (Hm1 _ _ E3 He2). pose proof (Hm2 _ _ (eq_sym E3) He1).
  now apply app_same_length in E3 as [E3 _]; [|lia].
Qed.
End SectionSearch.

Lemma Matches_newline_inv pos m rest gs :
  Matches (Cls (is_char NLc)) pos m rest gs -> m = NL /\ gs = [].
Proof.
  intros M. apply Matches_cls_inv in M as (c & -> & Hc & ->).
  unfold is_char in Hc. apply Ascii.eqb_eq in Hc. now subst c.
Qed.

Lemma Matches_newline pos rest : Matches (Cls (is_char NLc)) pos NL rest [].
Proof. apply MCls. reflexivity. Qed.

Lemma cookware_tail_spec pos s :
  (exists mt rest gs, s = mt ++ rest /\ Matches re_cookware_tail pos mt rest gs)
  <-> cookware_ends s.
Proof.
  unfold cookware_ends, re_cookware_tail. split.
  - intros (mt & rest & gs & -> & M).
    apply Matches_seq_inv in M as (m1 & m2 & g1 & g2 & -> & -> & M1 & M2).
    apply Matches_newline_inv in M1 as [-> _].
    apply Matches_lit_inv in M2 as [-> _].
    exists rest. now rewrite !append_assoc_s.
  - intros (post & ->). exists (NL ++ "Grab ingredients"), post, [].
    split; [now rewrite !append_assoc_s|].
    eapply (MSeq' _ _ _ _ NL "Grab ingredients");
      [apply Matches_newline|apply Matches_lit|reflexivity|reflexivity].
Qed.

Lemma cookware_tail_no_groups pos mt rest gs :
  Matches re_cookware_tail pos mt rest gs -> gs = [].
Proof.
  unfold re_cookware_tail. intros M.
  apply Matches_seq_inv in M as (m1 & m2 & g1 & g2 & -> & -> & M1 & M2).
  apply Matches_newline_inv in M1 as [_ ->].
  now apply Matches_lit_inv in M2 as [_ ->].
Qed.

Lemma ingredients_tail_spec pos s :
  (exists mt rest gs,
      s = mt ++ rest /\ Matches re_ingredients_tail pos mt rest gs)
  <-> ingredients_ends s.
Proof.
  unfold ingredients_ends, re_ingredients_tail. split.
  - intros (mt & rest & gs & -> & M).
    apply Matches_seq_inv in M as (m1 & m2 & g1 & g2 & -> & -> & M1 & M2).
    apply Matches_newline_inv in M1 as [-> _].
    apply Matches_alt_inv in M2 as [M2|M2].
    + apply Matches_lit_inv in M2 as [-> _].
      exists ("Cook & enjoy" ++ rest). split; [now rewrite !append_assoc_s|].
      left. eauto.
    + apply Matches_eol_inv in M2 as (He & -> & _).
      exists rest. split; [now rewrite append_nil_r|]. now right.
  - intros (r & -> & [(post & ->)|He]).
    + exists (NL ++ "Cook & enjoy"), post, [].
      split; [now rewrite !append_assoc_s|].
      eapply (MSeq' _ _ _ _ NL "Cook & enjoy");
        [apply Matches_newline|apply MAltL, Matches_lit
        |reflexivity|reflexivity].
    + exists NL, r, []. split; [reflexivity|].
      eapply (MSeq' _ _ _ _ NL "");
        [apply Matches_newline|apply MAltR, MEol, He
        |reflexivity|reflexivity].
Qed.

Lemma ingredients_tail_no_groups pos mt rest gs :
  Matches re_ingredients_tail pos mt rest gs -> gs = [].
Proof.
  unfold re_ingredients_tail. intros M.
  apply Matches_seq_inv in M as (m1 & m2 & g1 & g2 & -> & -> & M1 & M2).
  apply Matches_newline_inv in M1 as [_ ->].
  apply Matches_alt_inv in M2 as [M2|M2].
  - now apply Matches_lit_inv in M2 as [_ ->].
  - now apply Matches_eol_inv in M2 as (_ & _ & ->).
Qed.

Lemma Matches_space_inv pos m rest gs :
  Matches (Cls is_space) pos m rest gs ->
  exists w, m = String w "" /\ is_space w = true /\ gs = [].
Proof. apply Matches_cls_inv. Qed.

Lemma Matches_footer_inv pos mt rest gs :
  Matches re_footer pos mt rest gs ->
  gs = [] /\
  exists d1 w1 w2 d2,
    mt = NL ++ d1 ++ String w1 ("of" ++ String w2 d2) /\
    d1 <> "" /\ all is_digit d1 = true /\
    is_space w1 = true /\ is_space w2 = true /\
    d2 <> "" /\ all is_digit d2 = true.
Proof.
  unfold re_footer. cbn [seqs]. intros M.
  apply Matches_seq_inv in M as (m1 & m2 & g1 & g2 & -> & -> & M1 & M).
  apply Matches_newline_inv in M1 as [-> ->].
  apply Matches_seq_inv in M as (d1 & m3 & gd1 & g3 & -> & -> & Md1 & M).
  apply Matches_plus_inv in Md1 as (Hne1 & Hd1 & ->).
  apply Matches_seq_inv in M as (s1 & m4 & gs1 & g4 & -> & -> & Ms1 & M).
  apply Matches_space_inv in Ms1 as (w1 & -> & Hw1 & ->).
  apply Matches_seq_inv in M as (o & m5 & go & g5 & -> & -> & Mo & M).
  apply Matches_lit_inv in Mo as [-> ->].
  apply Matches_seq_inv in M as (s2 & d2 & gs2 & gd2 & -> & -> & Ms2 & Md2).
  apply Matches_space_inv in Ms2 as (w2 & -> & Hw2 & ->).
  apply Matches_plus_inv in Md2 as (Hne2 & Hd2 & ->).
  split; [reflexivity|]. exists d1, w1, w2, d2. repeat split; auto.
Qed.

Lemma Matches_footer pos d1 w1 w2 d2 rest :
  d1 <> "" -> all is_digit d1 = true ->
  is_space w1 = true -> is_space w2 = true ->
  d2 <> "" -> all is_digit d2 = true ->
  Matches re_footer pos (NL ++ d1 ++ String w1 ("of" ++ String w2 d2)) rest [].
Proof.
  intros Hne1 Hd1 Hw1 Hw2 Hne2 Hd2. unfold re_footer. cbn [seqs].
  eapply (MSeq' _ _ _ _ NL (d1 ++ String w1 ("of" ++ String w2 d2))).
  - apply Matches_newline.
  - eapply (MSeq' _ _ _ _ d1 (String w1 ("of" ++ String w2 d2))).
    + now apply Matches_plus.
    + eapply (MSeq' _ _ _ _ (String w1 "") ("of" ++ String w2 d2)).
      * now apply MCls.
      * eapply (MSeq' _ _ _ _ "of" (String w2 d2)).
        -- apply Matches_lit.
        -- eapply (MSeq' _ _ _ _ (String w2 "") d2).
           ++ now apply MCls.
           ++ now apply Matches_plus.
           ++ reflexivity.
           ++ reflexivity.
        -- reflexivity.
        -- reflexivity.
      * reflexivity.
      * reflexivity.
    + reflexivity.
    + reflexivity.
  - reflexivity.
  - reflexivity.
Qed.

Lemma instructions_tail_spec pos s :
  (exists mt rest gs,
      s = mt ++ rest /\ Matches re_instructions_tail pos mt rest gs)
  <-> instructions_ends s.
Proof.
  unfold instructions_ends, re_instructions_tail, page_footer. split.
  - intros (mt & rest & gs & -> & M).
    apply Matches_alt_inv in M as [M|M].
    + apply Matches_footer_inv in M
        as (_ & d1 & w1 & w2 & d2 & -> & H1 & H2 & H3 & H4 & H5 & H6).
      left. exists d1, w1, w2, d2, rest. repeat split; auto.
      cbn [append]; repeat (rewrite append_assoc_s; cbn [append]); reflexivity.
    + apply Matches_eol_inv in M as (He & -> & _). now right.
  - intros [(d1 & w1 & w2 & d2 & post & -> & H1 & H2 & H3 & H4 & H5 & H6)|He].
    + exists (NL ++ d1 ++ String w1 ("of" ++ String w2 d2)), post, [].
      split.
      * cbn [append]; repeat (rewrite append_assoc_s; cbn [append]); reflexivity.
      * apply MAltL. now apply Matches_footer.
    + exists "", s, []. split; [reflexivity|]. apply MAltR. now apply MEol.
Qed.

Lemma instructions_tail_no_groups pos mt rest gs :
  Matches re_instructions_tail pos mt rest gs -> gs = [].
Proof.
  unfold re_instructions_tail. intros M.
  apply Matches_alt_inv in M as [M|M].
  - now apply Matches_footer_inv in M as (-> & _).
  - now apply Matches_eol_inv in M as (_ & _ & ->).
Qed.

(** X6: the cookware parser reads the lines between the first
    "Find cookware" line break and the nearest following line break that
    is followed by "Grab ingredients"; when the text has no such pair it
    returns the empty list.  The section it reads is determined by the
    text. *)
Theorem parse_cookware_section (text : string) :
  ((exists sec,
       section_of "Find cookware" cookware_ends text sec /\
       parse_cookware text = cookware_loop (split NLc sec))
   \/ (no_section "Find cookware" cookware_ends text /\
       parse_cookware text = []))
  /\
  (forall sec1 sec2,
      section_of "Find cookware" cookware_ends text sec1 ->
      section_of "Find cookware" cookware_ends text sec2 -> sec1 = sec2).
Proof.
  split.
  - unfold parse_cookware.
    change re_cookware with (re_section "Find cookware" re_cookware_tail).
    destruct (re_search _ text) as [m|] eqn:E.
    + left. exists (group 1 m). split; [|reflexivity].
      exact (search_section_some _ _ _ cookware_tail_spec
                                 cookware_tail_no_groups _ _ E).
    + right. split; [|reflexivity].
      exact (search_section_none _ _ _ cookware_tail_spec _ E).
  - apply section_of_unique.
Qed.

(** X7: the ingredient parser reads the lines between the first
    "Grab ingredients" line break and the nearest following line break
    that is followed by "Cook & enjoy" or by the end of the text; when the
    text has no such part it returns the empty list. *)
Theorem parse_ingredients_section (text : string) :
  ((exists sec,
       section_of "Grab ingredients" ingredients_ends text sec /\
       parse_ingredients text = ingredients_loop (split NLc sec))
   \/ (no_section "Grab ingredients" ingredients_ends text /\
       parse_ingredients text = []))
  /\
  (forall sec1 sec2,
      section_of "Grab ingredients" ingredients_ends text sec1 ->
      section_of "Grab ingredients" ingredients_ends text sec2 -> sec1 = sec2).
Proof.
  split.
  - unfold parse_ingredients.
    change re_ingredients
      with (re_section "Grab ingredients" re_ingredients_tail).
    destruct (re_search _ text) as [m|] eqn:E.
    + left. exists (group 1 m). split; [|reflexivity].
      exact (search_section_some _ _ _ ingredients_tail_spec
                                 ingredients_tail_no_groups _ _ E).
    + right. split; [|reflexivity].
      exact (search_section_none _ _ _ ingredients_tail_spec _ E).
  - apply section_of_unique.
Qed.

(** X8: the instruction parser reads the text after the first
    "Cook & enjoy" line break up to the nearest page footer ("<n> of <m>"
    at the start of a line) or, without one, up to the end of the text (a
    last newline left out) and runs its step loop on the lines of that
    text; when "Cook & enjoy" and a newline do not occur it returns the
    empty list. *)
Theorem parse_instructions_section (text : string) :
  ((exists sec,
       section_of "Cook & enjoy" instructions_ends text sec /\
       parse_instructions text = instruction_steps (split NLc sec))
   \/ (no_section "Cook & enjoy" instructions_ends text /\
       parse_instructions text = Ok []))
  /\
  (forall sec1 sec2,
      section_of "Cook & enjoy" instructions_ends text sec1 ->
      section_of "Cook & enjoy" instructions_ends text sec2 -> sec1 = sec2).
Proof.
  split.
  - unfold parse_instructions.
    change re_instructions
      with (re_section "Cook & enjoy" re_instructions_tail).
    destruct (re_search _ text) as [m|] eqn:E.
    + left. exists (group 1 m). split; [|reflexivity].
      exact (search_section_some _ _ _ instructions_tail_spec
                                 instructions_tail_no_groups _ _ E).
    + right. split; [|reflexivity].
      exact (search_section_none _ _ _ instructions_tail_spec _ E).
  - apply section_of_unique.
Qed.

(* ================================================================== *)
(** * parse_ingredients: what every record looks like *)
(* ================================================================== *)

Lemma lstrip_decomp p s :
  exists t, s = t ++ lstrip_by p s /\ all p t = true.
Proof.
  induction s as [|c s (t & E & Ht)]; [exists ""; auto|].
  cbn [lstrip_by]. destruct (p c) eqn:Hc.
  - exists (String c t). cbn [append all]. now rewrite Hc, Ht, <- E.
  - exists "". auto.
Qed.

Lemma last_is_all p s : all p s = true -> s <> "" -> last_is p s = true.
Proof.
  induction s as [|c s IH]; [congruence|]. cbn [all].
  rewrite andb_true_iff. intros [Hc Hs] _.
  destruct s as [|d s]; [exact Hc|]. apply IH; [exact Hs|discriminate].
Qed.

Lemma head_is_all p s : all p s = true -> s <> "" -> head_is p s = true.
Proof.
  destruct s as [|c s]; [congruence|]. cbn. rewrite andb_true_iff. tauto.
Qed.

Lemma last_lstrip p s :
  last_is p s = false -> last_is p (lstrip_by p s) = false.
Proof.
  induction s as [|c s IH]; [reflexivity|]. intros Hl.
  cbn [lstrip_by]. destruct (p c) eqn:Hc; [|exact Hl].
  destruct s as [|d s]; [reflexivity|]. now apply IH.
Qed.

(** [strip] when one end is already clean. *)
Lemma strip_clean_head s :
  head_is is_space s = false -> strip s = rstrip_by is_space s.
Proof. intros H. unfold strip, strip_by. now rewrite lstrip_fixed. Qed.

Lemma strip_clean_last s :
  last_is is_space s = false -> strip s = lstrip_by is_space s.
Proof.
  intros H. unfold strip, strip_by. apply rstrip_fixed. now apply last_lstrip.
Qed.

Lemma strip_nonempty s :
  s <> "" -> last_is is_space s = false -> strip s <> "".
Proof.
  intros Hne Hl E. rewrite (strip_clean_last s Hl) in E.
  destruct (lstrip_decomp is_space s) as (t & Es & Ht).
  rewrite E, append_nil_r in Es. subst t.
  rewrite (last_is_all _ _ Ht Hne) in Hl. discriminate.
Qed.

Lemma lower_nonempty s : s <> "" -> lower s <> "".
Proof. destruct s; [congruence|discriminate]. Qed.

Lemma categorize_in_categories s : In (categorize_ingredient s) categories.
Proof.
  unfold categorize_ingredient, categories.
  destruct (any_in produce_words (lower s)), (any_in protein_words (lower s)),
    (any_in dairy_words (lower s)), (any_in spices_words (lower s));
    cbn; tauto.
Qed.

Lemma head_is_app p a b : a <> "" -> head_is p (a ++ b) = head_is p a.
Proof. destruct a; [congruence|reflexivity]. Qed.

(** The lines the ingredient loop turns into records. *)
Lemma in_parse_ingredients text ing :
  In ing (parse_ingredients text) ->
  exists line0,
    all not_newline line0 = true /\
    skip_ingredient_line (strip line0) = false /\
    ing = ingredient_of_line (strip line0).
Proof.
  unfold parse_ingredients.
  destruct (re_search re_ingredients text) as [m|]; [|intros []].
  rewrite ingredients_loop_map, in_map_iff.
  intros (line & <- & Hin). apply filter_In in Hin as [Hin Hskip].
  apply in_map_iff in Hin as (line0 & <- & Hin0).
  exists line0. repeat split.
  - pose proof (split_no_newline (group 1 m)) as Hall.
    rewrite Forall_forall in Hall. now apply Hall.
  - now apply negb_true_iff in Hskip.
Qed.

(** How quantity and name sit in a stripped line. *)
Lemma ingredient_of_line_parts line :
  line <> "" ->
  head_is is_space line = false -> last_is is_space line = false ->
  let ing := ingredient_of_line line in
  exists ws rest,
    line = ing_quantity ing ++ ws ++ rest /\
    all is_space ws = true /\
    ing_name ing = lower rest /\ rest <> "" /\
    (ing_quantity ing <> "" -> ws <> "" /\
                               head_is starts_number line = true) /\
    (ing_quantity ing = "" -> rest = line) /\
    head_is is_space (ing_quantity ing) = false /\
    last_is is_space (ing_quantity ing) = false.
Proof.
  intros Hne Hh Hl. cbv zeta. unfold ingredient_of_line.
  destruct (re_match re_quantity line) as [m|] eqn:E;
    cbn [ing_quantity ing_name].
  - destruct (re_quantity_some _ _ Hl E)
      as (sep & Eline & Hq & Hsne & Hsep & Hnne & Hnm).
    set (q := group 1 m) in *. set (nm := group 2 m) in *.
    destruct Hq as (num & par & wsq & unit & s & Eq & Hnum & Hnumc & _).
    assert (Hqne : q <> "").
    { rewrite Eq. destruct num; [congruence|discriminate]. }
    assert (Hqh : head_is is_space q = false).
    { rewrite Eline, head_is_app in Hh; assumption. }
    assert (Hnl : last_is is_space nm = false).
    { rewrite Eline, <- append_assoc_s, last_is_app_keep in Hl; assumption. }
    rewrite (strip_clean_head q Hqh), (strip_clean_last nm Hnl).
    destruct (rstrip_decomp is_space q) as (t1 & Eq1 & Ht1).
    destruct (lstrip_decomp is_space nm) as (t2 & En2 & Ht2).
    exists (t1 ++ sep ++ t2), (lstrip_by is_space nm).
    assert (Hnum1 : head_is numeric_char line = true).
    { rewrite Eline, head_is_app, Eq, head_is_app by assumption.
      now apply head_is_all. }
    repeat split.
    + rewrite Eline at 1. rewrite Eq1 at 1. rewrite En2 at 1.
      now rewrite !append_assoc_s.
    + now rewrite !all_app, Ht1, Hsep, Ht2.
    + rewrite <- (strip_clean_last nm Hnl). now apply strip_nonempty.
    + destruct t1, sep, t2; try discriminate. congruence.
    + destruct line as [|c line]; [congruence|]. cbn [head_is] in *.
      unfold numeric_char in Hnum1. unfold starts_number.
      rewrite Hh, orb_false_r in Hnum1. exact Hnum1.
    + intros Hq0. exfalso. rewrite Hq0 in Eq1. cbn [append] in Eq1.
      rewrite <- Eq1 in Ht1.
      rewrite (head_is_all _ _ Ht1 Hqne) in Hqh. discriminate.
    + rewrite <- (strip_clean_head q Hqh). apply strip_head.
    + apply last_rstrip.
  - exists "", line. repeat split; auto; congruence.
Qed.

Lemma ingredient_of_line_fields line :
  ing_original (ingredient_of_line line) = line /\
  ing_category (ingredient_of_line line) = categorize_ingredient line.
Proof.
  unfold ingredient_of_line.
  destruct (re_match re_quantity line); split; reflexivity.
Qed.

Lemma not_skipped line :
  skip_ingredient_line line = false ->
  line <> "" /\ startswith line "Grab" = false /\ 3 <= String.length line.
Proof.
  unfold skip_ingredient_line. intros H.
  apply orb_false_iff in H as [H H3]. apply orb_false_iff in H as [H0 Hg].
  repeat split; auto.
  - intros ->. discriminate.
  - apply Nat.ltb_ge in H3. exact H3.
Qed.

(** X9: every record the ingredient parser returns is well formed: its
    [original] is a stripped line of at least 3 characters that does not
    start with "Grab", its category is one of the five and is the category
    of [original], its name is not empty and is a lower-cased text
    ([lower] leaves it unchanged), and its quantity has no white space at
    its ends. *)
Theorem parse_ingredients_records (text : string) (ing : Ingredient) :
  In ing (parse_ingredients text) ->
  3 <= String.length (ing_original ing) /\
  startswith (ing_original ing) "Grab" = false /\
  head_is is_space (ing_original ing) = false /\
  last_is is_space (ing_original ing) = false /\
  all not_newline (ing_original ing) = true /\
  ing_category ing = categorize_ingredient (ing_original ing) /\
  In (ing_category ing) categories /\
  ing_name ing <> "" /\
  lower (ing_name ing) = ing_name ing /\
  head_is is_space (ing_quantity ing) = false /\
  last_is is_space (ing_quantity ing) = false.
Proof.
  intros Hin.
  destruct (in_parse_ingredients _ _ Hin) as (line0 & Hnl & Hskip & ->).
  destruct (not_skipped _ Hskip) as (Hne & Hg & H3).
  destruct (ingredient_of_line_fields (strip line0)) as [-> ->].
  destruct (ingredient_of_line_parts (strip line0) Hne
              (strip_head line0) (strip_last line0))
    as (ws & rest & _ & _ & -> & Hrest & _ & _ & Hqh & Hql).
  repeat split; auto.
  - apply strip_head.
  - apply strip_last.
  - now apply all_strip.
  - apply categorize_in_categories.
  - now apply lower_nonempty.
  - apply lower_idem.
Qed.

Lemma parse_ingredients_records_witness :
  exists ing,
    In ing (parse_ingredients flour_text) /\ ing_name ing <> "" /\
    lower (ing_name ing) = ing_name ing.
Proof.
  destruct (parse_ingredients_records flour_text
              (mkIngredient "flour" "1 cup" "pantry" "1 cup flour"))
    as (_ & _ & _ & _ & _ & _ & _ & Hn & Hl & _).
  - left. reflexivity.
  - eexists. split; [left; reflexivity|]. split; [exact Hn|exact Hl].
Defined.

(** X10: a line that does not start with a digit, a slash or a dot gets
    no quantity: the whole line, lowercased, is the name. *)
Theorem parse_ingredients_no_number (text : string) (ing : Ingredient) :
  In ing (parse_ingredients text) ->
  head_is starts_number (ing_original ing) = false ->
  ing_quantity ing = "" /\ ing_name ing = lower (ing_original ing).
Proof.
  intros Hin.
  destruct (in_parse_ingredients _ _ Hin) as (line0 & _ & Hskip & ->).
  destruct (not_skipped _ Hskip) as (Hne & _ & _).
  destruct (ingredient_of_line_fields (strip line0)) as [-> _].
  destruct (ingredient_of_line_parts (strip line0) Hne
              (strip_head line0) (strip_last line0))
    as (ws & rest & _ & _ & Hname & _ & Hq & Hq0 & _).
  intros Hstart.
  destruct (string_dec (ing_quantity (ingredient_of_line (strip line0))) "")
    as [E|E].
  - split; [exact E|]. now rewrite Hname, (Hq0 E).
  - destruct (Hq E) as [_ Hs]. congruence.
Qed.

Lemma parse_ingredients_no_number_witness :
  exists ing,
    In ing (parse_ingredients
              (join NL ["Grab ingredients"; "Sea Salt"; "Cook & enjoy"])) /\
    ing_quantity ing = "" /\ ing_name ing = "sea salt".
Proof.
  eexists. split; [left; reflexivity|].
  refine (parse_ingredients_no_number
            (join NL ["Grab ingredients"; "Sea Salt"; "Cook & enjoy"]) _ _ _).
  - left. reflexivity.
  - reflexivity.
Defined.

(** X11: quantity and name are the two ends of the stripped line: the
    line is the quantity, then white space (not empty when there is a
    quantity), then the text whose lower-case form is the name. *)
Theorem parse_ingredients_reassemble (text : string) (ing : Ingredient) :
  In ing (parse_ingredients text) ->
  exists ws rest,
    ing_original ing = ing_quantity ing ++ ws ++ rest /\
    all is_space ws = true /\
    ing_name ing = lower rest /\
    (ing_quantity ing <> "" -> ws <> "").
Proof.
  intros Hin.
  destruct (in_parse_ingredients _ _ Hin) as (line0 & _ & Hskip & ->).
  destruct (not_skipped _ Hskip) as (Hne & _ & _).
  destruct (ingredient_of_line_fields (strip line0)) as [-> _].
  destruct (ingredient_of_line_parts (strip line0) Hne
              (strip_head line0) (strip_last line0))
    as (ws & rest & E & Hws & Hname & _ & Hq & _).
  exists ws, rest. repeat split; auto. intros Hq1. now apply Hq.
Qed.

Lemma parse_ingredients_reassemble_witness :
  exists ing ws rest,
    In ing (parse_ingredients flour_text) /\
    ing_original ing = ing_quantity ing ++ ws ++ rest /\
    ing_name ing = lower rest.
Proof.
  destruct (parse_ingredients_reassemble flour_text
              (mkIngredient "flour" "1 cup" "pantry" "1 cup flour"))
    as (ws & rest & E & _ & Hn & _).
  - left. reflexivity.
  - eexists. exists ws, rest. split; [left; reflexivity|]. split; assumption.
Defined.

(* ================================================================== *)
(** * parse_instructions: what every step looks like *)
(* ================================================================== *)

Lemma join_nonempty sep x r : x <> "" -> join sep (x :: r) <> "".
Proof.
  intros Hx. destruct r; cbn [join]; [exact Hx|].
  destruct x; [congruence|discriminate].
Qed.

Lemma join_head p sep x r :
  x <> "" -> head_is p (join sep (x :: r)) = head_is p x.
Proof.
  intros Hx. destruct r; cbn [join]; [reflexivity|]. now apply head_is_app.
Qed.

Lemma join_last p sep parts :
  Forall (fun l => l <> "") parts -> parts <> [] ->
  last_is p (join sep parts) = last_is p (last parts "").
Proof.
  induction 1 as [|x r Hx Hr IH]; [congruence|]. intros _.
  destruct r as [|y r]; [reflexivity|].
  change (join sep (x :: y :: r)) with (x ++ sep ++ join sep (y :: r)).
  change (last (x :: y :: r) "") with (last (y :: r) "").
  inversion Hr; subst.
  assert (Hj : join sep (y :: r) <> "") by now apply join_nonempty.
  rewrite <- IH by discriminate.
  rewrite last_is_app_keep.
  - now apply last_is_app_keep.
  - destruct sep; [exact Hj|discriminate].
Qed.

Lemma join_all q sep parts :
  all q sep = true -> Forall (fun l => all q l = true) parts ->
  all q (join sep parts) = true.
Proof.
  intros Hs. induction 1 as [|x r Hx Hr IH]; [reflexivity|].
  destruct r as [|y r]; [exact Hx|].
  change (join sep (x :: y :: r)) with (x ++ sep ++ join sep (y :: r)).
  now rewrite !all_app, Hx, Hs, IH.
Qed.

Lemma in_body_text l body :
  In l (body_text body) ->
  exists x, In x body /\ blank x = false /\ l = strip x.
Proof.
  unfold body_text. rewrite in_map_iff. intros (x & <- & Hin).
  apply filter_In in Hin as [Hin Hb]. apply negb_true_iff in Hb. eauto.
Qed.

Lemma parse_instructions_blocks text steps :
  parse_instructions text = Ok steps ->
  exists blocks,
    steps = flat_map steps_of_block blocks /\
    forall b x, In b blocks -> In x (snd b) -> all not_newline x = true.
Proof.
  unfold parse_instructions.
  destruct (re_search re_instructions text) as [m|].
  - pose proof (split_no_newline (group 1 m)) as Hall.
    destruct (lines_as_blocks (split NLc (group 1 m)))
      as (pre & blocks & E & Hpre & Hb).
    rewrite E in *. rewrite (instruction_steps_blocks _ _ Hpre Hb).
    destruct (existsb long_step blocks); [discriminate|].
    intros H. injection H as <-. exists blocks. split; [reflexivity|].
    intros b x Hin Hx. rewrite Forall_forall in Hall. apply Hall.
    apply in_or_app. right. apply in_concat.
    exists (render_block b). split; [now apply in_map|]. now right.
  - intros H. injection H as <-. exists []. split; [reflexivity|].
    intros ? ? [].
Qed.

(** X12: every step the instruction parser returns has a text: it is the
    step's non-blank lines, stripped and joined by single spaces, and at
    least one line; so the text is never empty, has no white space at its
    ends and no newline (the final [strip] changes nothing). *)
Theorem parse_instructions_step_text
        (text0 : string) (steps : list InstructionStep)
        (st : InstructionStep) :
  parse_instructions text0 = Ok steps ->
  In st steps ->
  (exists ls, ls <> [] /\ Forall clean_line ls /\ text st = join " " ls) /\
  clean_line (text st).
Proof.
  intros Hsteps Hin.
  destruct (parse_instructions_blocks text0 steps Hsteps)
    as (blocks & E & Hnl).
  rewrite E in Hin. apply in_flat_map in Hin as (b & Hb & Hin).
  unfold steps_of_block in Hin.
  destruct (body_text (snd b)) as [|l ls] eqn:Eb; [destruct Hin|].
  destruct Hin as [<-|[]]. cbn [text].
  assert (Hclean : Forall clean_line (l :: ls)).
  { rewrite Forall_forall. intros y Hy. rewrite <- Eb in Hy.
    apply in_body_text in Hy as (x & Hx & Hblank & ->).
    unfold blank in Hblank. apply String.eqb_neq in Hblank.
    repeat split; auto using strip_head, strip_last.
    apply all_strip. eapply Hnl; eauto. }
  assert (Hne : Forall (fun y => y <> "") (l :: ls)).
  { eapply Forall_impl; [|exact Hclean]. intros y Hy. apply Hy. }
  assert (Hj : clean_line (join " " (l :: ls))).
  { repeat split.
    - apply join_nonempty. now inversion Hne.
    - rewrite join_head by now inversion Hne.
      inversion Hclean as [|? ? Hl _]; subst. apply Hl.
    - rewrite join_last by (auto; discriminate).
      rewrite Forall_forall in Hclean.
      apply (Hclean (last (l :: ls) "")).
      destruct (@exists_last _ (l :: ls) ltac:(discriminate)) as (r & z & Ez).
      rewrite Ez, last_last. apply in_or_app. right. now left.
    - apply join_all; [reflexivity|].
      eapply Forall_impl; [|exact Hclean]. intros y Hy. apply Hy. }
  assert (Hs : strip (join " " (l :: ls)) = join " " (l :: ls)).
  { apply strip_by_fixed; apply Hj. }
  rewrite Hs. split; [|exact Hj].
  exists (l :: ls). repeat split; auto. discriminate.
Qed.

Lemma parse_instructions_step_text_witness :
  parse_instructions oven_text
  = Ok [mkStep 1 "Preheat oven."; mkStep 2 "Bake for 20 minutes."] /\
  clean_line "Preheat oven.".
Proof.
  split; [reflexivity|].
  exact (proj2 (parse_instructions_step_text oven_text _
                  (mkStep 1 "Preheat oven.") eq_refl
                  (or_introl eq_refl))).
Defined.

(* ================================================================== *)
(** * process_directory: the order of the files *)
(* ================================================================== *)

Lemma leb_iff a b :
  String.leb a b = true <-> a = b \/ OrderedTypeEx.String_as_OT.lt a b.
Proof.
  unfold String.leb.
  pose proof (OrderedTypeEx.String_as_OT.cmp_eq a b) as Heq.
  pose proof (OrderedTypeEx.String_as_OT.cmp_lt a b) as Hlt.
  unfold OrderedTypeEx.String_as_OT.cmp in *.
  destruct (String.compare a b) eqn:E.
  - split; auto. left. now apply Heq.
  - split; auto. right. now apply Hlt.
  - split; [discriminate|]. intros [H|H].
    + apply Heq in H. discriminate.
    + apply Hlt in H. discriminate.
Qed.

Lemma leb_trans a b c :
  String.leb a b = true -> String.leb b c = true -> String.leb a c = true.
Proof.
  rewrite !leb_iff. intros [->|H1] [->|H2]; auto.
  right. eapply OrderedTypeEx.String_as_OT.lt_trans; eauto.
Qed.

Lemma insert_sorted_perm x l : Permutation (insert_sorted x l) (x :: l).
Proof.
  induction l as [|y l IH]; cbn [insert_sorted]; [reflexivity|].
  destruct (String.leb x y); [reflexivity|].
  rewrite IH. apply perm_swap.
Qed.

Lemma sorted_perm l : Permutation (sorted l) l.
Proof.
  unfold sorted. induction l as [|x l IH]; cbn [fold_right]; [reflexivity|].
  rewrite insert_sorted_perm. now constructor.
Qed.

Lemma insert_sorted_ascending x l :
  ascending l -> ascending (insert_sorted x l).
Proof.
  induction l as [|y l IH]; cbn [insert_sorted ascending].
  - intros _. split; [constructor|exact I].
  - intros [Hy Hl]. destruct (String.leb x y) eqn:E; cbn [ascending].
    + split; [|split; assumption].
      constructor; [exact E|].
      eapply Forall_impl; [|exact Hy]. intros z Hz. eapply leb_trans; eauto.
    + split; [|now apply IH].
      destruct (String.leb_total x y) as [H|H]; [congruence|].
      rewrite Forall_forall. intros z Hz.
      apply (Permutation_in _ (insert_sorted_perm x l)) in Hz.
      destruct Hz as [<-|Hz]; [exact H|].
      rewrite Forall_forall in Hy. now apply Hy.
Qed.

Lemma sorted_ascending l : ascending (sorted l).
Proof.
  unfold sorted. induction l as [|x l IH]; cbn [fold_right]; [exact I|].
  now apply insert_sorted_ascending.
Qed.

Lemma ascending_unique l1 : forall l2,
  ascending l1 -> ascending l2 -> Permutation l1 l2 -> l1 = l2.
Proof.
  induction l1 as [|x r1 IH]; intros l2 H1 H2 Hp.
  - apply Permutation_nil in Hp. now subst.
  - destruct l2 as [|y r2];
      [apply Permutation_sym, Permutation_nil in Hp; discriminate|].
    destruct H1 as [Hx H1], H2 as [Hy H2].
    assert (Exy : x = y).
    { assert (Hxin : In x (y :: r2))
        by (eapply Permutation_in; [exact Hp|now left]).
      assert (Hyin : In y (x :: r1))
        by (eapply Permutation_in;
            [apply Permutation_sym; exact Hp|now left]).
      destruct Hxin as [->|Hxin]; [reflexivity|].
      destruct Hyin as [->|Hyin]; [reflexivity|].
      rewrite Forall_forall in Hx, Hy.
      apply String.leb_antisym; auto. }
    subst y. f_equal. apply IH; auto.
    now apply Permutation_cons_inv in Hp.
Qed.

Lemma sorted_of_perm l1 l2 : Permutation l1 l2 -> sorted l1 = sorted l2.
Proof.
  intros Hp. apply ascending_unique; try apply sorted_ascending.
  rewrite !sorted_perm. exact Hp.
Qed.

(** X13: the outcome of [process_directory] does not depend on the order
    in which the directory lists its files: two listings of the same
    files give the same document, the same failed files and the same
    output.  The files are handled in ascending order of their names:
    the recipes of the document, the failed files and the lines printed
    for each file all follow that order. *)
Theorem process_directory_order_independent
        (extract str_path : string -> string) (dir_exists : bool)
        (files1 files2 : list string) (input_dir output_file : string) :
  Permutation files1 files2 ->
  let out := process_directory extract str_path dir_exists files1
                               input_dir output_file in
  out = process_directory extract str_path dir_exists files2
                          input_dir output_file /\
  exists order,
    ascending order /\ Permutation order files1 /\
    forall doc,
      written out = Some doc ->
      recipes doc
      = flat_map (fun f => option_list (recipe_of extract str_path f)) order /\
      failed_files out
      = filter (fun f => negb (gives_recipe extract str_path f)) order /\
      printed out
      = ([Found (List.length files1)]
         ++ flat_map (file_events extract str_path) order
         ++ [Processed (List.length (recipes doc))]
         ++ match failed_files out with
            | [] => []
            | _ :: _ => [FailedFiles (failed_files out)]
            end
         ++ [OutputWritten output_file])%list.
Proof.
  intros Hp. cbv zeta. split.
  - unfold process_directory. destruct (negb dir_exists); [reflexivity|].
    destruct files1 as [|f1 r1], files2 as [|f2 r2]; try reflexivity.
    + apply Permutation_nil in Hp. discriminate.
    + apply Permutation_sym, Permutation_nil in Hp. discriminate.
    + now rewrite (sorted_of_perm _ _ Hp), (Permutation_length Hp).
  - exists (sorted files1).
    split; [apply sorted_ascending|]. split; [apply sorted_perm|].
    intros doc Hw. destruct dir_exists; [|discriminate].
    assert (Hne : files1 <> []) by (intros ->; discriminate).
    destruct (process_directory_written extract str_path files1 input_dir
                                        output_file Hne) as (Hw' & Hf & Hpr).
    rewrite Hw' in Hw. injection Hw as <-. cbn [recipes].
    rewrite Hpr, Hf. repeat split.
Qed.

Lemma process_directory_order_independent_witness :
  process_directory soup_extract in_dir true ["soup.pdf"; "scan.pdf"]
                    "in" "out.json"
  = process_directory soup_extract in_dir true ["scan.pdf"; "soup.pdf"]
                      "in" "out.json" /\
  failed_files (process_directory soup_extract in_dir true
                  ["soup.pdf"; "scan.pdf"] "in" "out.json") = ["scan.pdf"].
Proof.
  split; [|reflexivity].
  apply (process_directory_order_independent soup_extract in_dir true
           ["soup.pdf"; "scan.pdf"] ["scan.pdf"; "soup.pdf"]).
  apply perm_swap.
Defined.

(* ================================================================== *)
(** * The recipes of a written document *)
(* ================================================================== *)

Lemma parse_title_and_metadata_cases text md :
  parse_title_and_metadata text = Ok md ->
  md = mkMetadata "Unknown Recipe" "30 minutes" 2 \/
  (20 < String.length (meta_title md) /\ meta_servings md <> 0%N).
Proof.
  intros Hmd.
  destruct (parse_title_and_metadata_ok _ _ Hmd)
    as [->|(line & next & vars & _ & Hlong & _ & ->)]; [now left|right].
  cbn [meta_title meta_servings]. split; [exact Hlong|].
  apply or_int_positive. discriminate.
Qed.

Lemma recipe_of_some extract str_path f r :
  recipe_of extract str_path f = Some r ->
  snd (parse_recipe_pdf extract (str_path f)) = Ok (Some r).
Proof.
  unfold recipe_of.
  destruct (snd (parse_recipe_pdf extract (str_path f))) as [[r'|]|e];
    try discriminate.
  intros H. now injection H as <-.
Qed.

Lemma in_written_recipes extract str_path dir_exists pdf_files input_dir
      output_file doc r :
  written (process_directory extract str_path dir_exists pdf_files
                             input_dir output_file) = Some doc ->
  In r (recipes doc) ->
  exists f, In f pdf_files /\ recipe_of extract str_path f = Some r.
Proof.
  intros Hw Hin. destruct dir_exists; [|discriminate].
  assert (Hne : pdf_files <> []) by (intros ->; discriminate).
  destruct (process_directory_written extract str_path pdf_files input_dir
                                      output_file Hne) as (Hw' & _).
  rewrite Hw' in Hw. injection Hw as <-. cbn [recipes] in Hin.
  apply in_flat_map in Hin as (f & Hf & Hin).
  exists f. split; [now apply in_sorted|].
  destruct (recipe_of extract str_path f) as [r'|]; [|destruct Hin].
  now destruct Hin as [<-|[]].
Qed.

(** X14: every recipe of a document written by [process_directory] comes
    from a file whose text could be extracted, and is well formed: its id
    is the identifier of its title, the title is not empty, the servings
    are at least 1 and there are no tags.  A recipe whose title was not
    detected is "Unknown Recipe" with the id "unknown-recipe", 30 minutes
    and 2 servings, so all such recipes share one id. *)
Theorem written_recipes_well_formed
        (extract str_path : string -> string) (dir_exists : bool)
        (pdf_files : list string) (input_dir output_file : string)
        (doc : OutputDocument) (r : Recipe) :
  written (process_directory extract str_path dir_exists pdf_files
                             input_dir output_file) = Some doc ->
  In r (recipes doc) ->
  (exists f, In f pdf_files /\ extract (str_path f) <> "" /\
             r_cookware r = parse_cookware (extract (str_path f)) /\
             r_ingredients r = parse_ingredients (extract (str_path f)) /\
             parse_instructions (extract (str_path f))
             = Ok (r_instructions r)) /\
  r_id r = generate_recipe_id (r_title r) /\
  r_title r <> "" /\
  r_servings r <> 0%N /\
  r_tags r = [] /\
  (r_title r = "Unknown Recipe" \/ 20 < String.length (r_title r)) /\
  (r_title r = "Unknown Recipe" ->
   r_id r = "unknown-recipe" /\ r_cookTime r = "30 minutes" /\
   r_servings r = 2%N).
Proof.
  intros Hw Hin.
  destruct (in_written_recipes _ _ _ _ _ _ _ _ Hw Hin) as (f & Hf & Hr).
  apply recipe_of_some, parse_recipe_pdf_recipe in Hr
    as (Ht & md & steps & Hmd & Hsteps & ->).
  pose proof (parse_title_and_metadata_cases _ _ Hmd) as Hc.
  cbn [r_id r_title r_cookTime r_servings r_cookware r_ingredients
       r_instructions r_tags].
  split.
  { exists f. repeat split; auto. now apply has_text_spec. }
  destruct Hc as [E|[Hlen Hs]].
  - rewrite E. cbn. repeat split; auto; discriminate.
  - split; [reflexivity|].
    split; [intros E; rewrite E in Hlen; cbn in Hlen; lia|].
    split; [exact Hs|]. split; [reflexivity|]. split; [now right|].
    intros E. rewrite E in Hlen. cbn in Hlen. lia.
Qed.

Lemma written_recipes_well_formed_witness :
  exists r,
    In r (recipes soup_doc) /\
    r_id r = generate_recipe_id (r_title r) /\ r_title r <> "".
Proof.
  assert (Hw : written (process_directory soup_extract in_dir true
                                          ["soup.pdf"]
                                          "in" "out.json") = Some soup_doc)
    by reflexivity.
  assert (Hin : In (nth 0 (recipes soup_doc)
                        (mkRecipe "" "" "" 0 [] [] [] []))
                   (recipes soup_doc)) by (left; reflexivity).
  destruct (written_recipes_well_formed _ _ _ _ _ _ _ _ Hw Hin)
    as (_ & Hid & Ht & _).
  eexists. split; [exact Hin|]. split; assumption.
Defined.

(* ================================================================== *)
(** * validate_json: which recipes it reports *)
(* ================================================================== *)

Lemma check_recipe_dump_eq i r :
  check_recipe i (json_of_recipe r)
  = Ok (match missing_fields r with
        | [] => None
        | _ :: _ => Some (issue_for i r)
        end).
Proof.
  unfold check_recipe, json_of_recipe, issue_for, missing_fields. cbn.
  destruct (r_title r), (r_ingredients r), (r_instructions r); reflexivity.
Qed.

Lemma check_loop_dump_eq rs : forall i acc,
  check_loop i (map json_of_recipe rs) acc
  = Ok (acc ++ expected_issues i rs)%list.
Proof.
  induction rs as [|r rs IH]; intros i acc; cbn [map check_loop expected_issues].
  - now rewrite app_nil_r.
  - rewrite check_recipe_dump_eq.
    destruct (missing_fields r); rewrite IH; [reflexivity|].
    now rewrite <- app_assoc.
Qed.

Lemma in_expected_issues rs : forall i iss,
  In iss (expected_issues i rs) <->
  exists k r, nth_error rs k = Some r /\ missing_fields r <> [] /\
              iss = issue_for (i + k) r.
Proof.
  induction rs as [|r rs IH]; intros i iss; cbn [expected_issues].
  - split; [intros []|]. intros (k & r & H & _). destruct k; discriminate.
  - rewrite in_app_iff, IH. split.
    + intros [H|(k & r' & Hk & Hm & ->)].
      * exists 0, r. rewrite Nat.add_0_r.
        destruct (missing_fields r) eqn:E; [destruct H|].
        destruct H as [<-|[]]. repeat split; auto. discriminate.
      * exists (S k), r'. rewrite Nat.add_succ_r. auto.
    + intros ([|k] & r' & Hk & Hm & ->).
      * cbn in Hk. injection Hk as <-. left. rewrite Nat.add_0_r.
        destruct (missing_fields r); [congruence|now left].
      * right. exists k, r'. rewrite Nat.add_succ_r. auto.
Qed.

Lemma missing_fields_complete r : missing_fields r = [] <-> complete r.
Proof.
  unfold missing_fields, complete.
  destruct (String.eqb_spec (r_title r) ""), (r_ingredients r),
    (r_instructions r); cbn; split; try discriminate; try tauto;
    try (intros _; repeat split; congruence);
    intros (? & ? & ?); congruence.
Qed.



Lemma written_title_nonempty extract str_path dir_exists pdf_files input_dir
      output_file doc r :
  written (process_directory extract str_path dir_exists pdf_files
                             input_dir output_file) = Some doc ->
  In r (recipes doc) -> r_title r <> "".
Proof.
  intros Hw Hin.
  destruct (in_written_recipes _ _ _ _ _ _ _ _ Hw Hin) as (f & _ & Hr).
  apply recipe_of_some, parse_recipe_pdf_recipe in Hr
    as (_ & md & steps & Hmd & _ & ->).
  cbn [r_title].
  destruct (parse_title_and_metadata_cases _ _ Hmd) as [->|[Hlen _]];
    [discriminate|].
  intros E. rewrite E in Hlen. cbn in Hlen. lia.
Qed.

(** The warning is only printed with a count that is zero. *)
Lemma parse_recipe_pdf_warn extract pdf_path p n m :
  In (WarnMissing p n m) (fst (parse_recipe_pdf extract pdf_path)) ->
  n = 0 \/ m = 0.
Proof.
  unfold parse_recipe_pdf.
  destruct (String.eqb (extract pdf_path) "").
  { cbn. intros [H|[H|[]]]; discriminate. }
  destruct (parse_title_and_metadata (extract pdf_path)) as [md|e].
  2:{ cbn. intros [H|[]]; discriminate. }
  destruct (parse_instructions (extract pdf_path)) as [steps|e].
  2:{ cbn. intros [H|[]]; discriminate. }
  cbn [fst].
  destruct (parse_ingredients (extract pdf_path)) as [|i ings],
    steps as [|st steps]; cbn;
    intros H; repeat (destruct H as [H|H]; try discriminate);
    try (injection H as _ <- <-); auto; destruct H.
Qed.

Lemma printed_warn extract str_path dir_exists pdf_files input_dir
      output_file p n m :
  In (WarnMissing p n m)
     (printed (process_directory extract str_path dir_exists pdf_files
                                 input_dir output_file)) ->
  n = 0 \/ m = 0.
Proof.
  destruct dir_exists; [|cbn; intros [H|[]]; discriminate].
  destruct pdf_files as [|f0 files] eqn:Ef;
    [cbn; intros [H|[]]; discriminate|].
  rewrite <- Ef.
  assert (Hne : pdf_files <> []) by (rewrite Ef; discriminate).
  destruct (process_directory_written extract str_path pdf_files input_dir
                                      output_file Hne) as (_ & _ & ->).
  rewrite !in_app_iff. intros [H|[H|[H|[H|H]]]].
  - destruct H as [H|[]]; discriminate.
  - apply in_flat_map in H as (g & _ & H). unfold file_events in H.
    pose proof (parse_recipe_pdf_warn extract (str_path g) p n m) as Hw.
    destruct (parse_recipe_pdf extract (str_path g)) as [out [o|e]];
      cbn [fst] in Hw; [now apply Hw|].
    apply in_app_iff in H as [H|[H|[]]]; [now apply Hw|discriminate].
  - destruct H as [H|[]]; discriminate.
  - destruct (filter _ _); [destruct H|destruct H as [H|[]]; discriminate].
  - destruct H as [H|[]]; discriminate.
Qed.

Lemma printed_file_events extract str_path pdf_files input_dir output_file
      f e :
  In f pdf_files ->
  In e (fst (parse_recipe_pdf extract (str_path f))) ->
  In e (printed (process_directory extract str_path true pdf_files
                                   input_dir output_file)).
Proof.
  intros Hf He.
  assert (Hne : pdf_files <> [])
    by (destruct pdf_files; [destruct Hf|discriminate]).
  destruct (process_directory_written extract str_path pdf_files input_dir
                                      output_file Hne) as (_ & _ & ->).
  apply in_or_app. right. apply in_or_app. left.
  apply in_flat_map. exists f. split; [now apply in_sorted|].
  unfold file_events.
  destruct (parse_recipe_pdf extract (str_path f)) as [out [o|e']];
    cbn [fst] in He; [exact He|].
  apply in_or_app. now left.
Qed.

Lemma titled_incomplete r :
  r_title r <> "" ->
  (~ complete r <-> incomplete r) /\ ~ In "title" (missing_fields r).
Proof.
  unfold complete, incomplete, missing_fields. intros Ht.
  destruct (String.eqb_spec (r_title r) ""); [congruence|].
  destruct (r_ingredients r), (r_instructions r); cbn; split;
    try (split; [auto|intros _ (_ & ? & ?); congruence]);
    try (intros [H|[H|H]]; try discriminate; destruct H);
    try (intros [H|H]; try discriminate; destruct H); auto.
  split; [|intros [?|?]; discriminate].
  intros H. exfalso. apply H. repeat split; auto; discriminate.
Qed.

Lemma issue_for_inj k1 r1 k2 r2 :
  issue_for k1 r1 = issue_for k2 r2 -> k1 = k2.
Proof. unfold issue_for. intros H. injection H as H _ _. lia. Qed.

Lemma length_zero_iff_nil {A} (l : list A) : List.length l = 0 <-> l = [].
Proof. destruct l; cbn; split; intros H; try discriminate; reflexivity. Qed.

(** X16: on a document written by [process_directory] the validator
    reports exactly the incomplete recipes (no ingredients or no
    instructions), and these are the recipes for which the pipeline
    printed its warning: the recipe at index [k] is reported if and only
    if the output of [process_directory] holds the warning of a file that
    gave this recipe.  A title is never among the missing fields, because
    the pipeline always sets one. *)
Theorem written_document_issues
        (extract str_path : string -> string) (dir_exists : bool)
        (pdf_files : list string) (input_dir output_file : string)
        (doc : OutputDocument) :
  let outcome := process_directory extract str_path dir_exists pdf_files
                                   input_dir output_file in
  written outcome = Some doc ->
  recipes doc <> [] ->
  exists out report,
    validate_json (Some (json_dump doc)) = (out, Some report) /\
    (forall iss,
        In iss (issues report) <->
        exists k r, nth_error (recipes doc) k = Some r /\ incomplete r /\
                    iss = issue_for k r) /\
    (forall k r,
        nth_error (recipes doc) k = Some r ->
        (In (issue_for k r) (issues report) <->
         exists f, In f pdf_files /\
                   recipe_of extract str_path f = Some r /\
                   In (WarnMissing (str_path f)
                                   (List.length (r_ingredients r))
                                   (List.length (r_instructions r)))
                      (printed outcome))) /\
    (forall iss, In iss (issues report) -> ~ In "title" (issue_missing iss)).
Proof.
  cbv zeta. intros Hw Hne. unfold validate_json.
  rewrite (validate_body_dump doc (expected_issues 0 (recipes doc)))
    by apply (check_loop_dump_eq _ 0 []).
  cbv zeta.
  assert (Ht : forall k r, nth_error (recipes doc) k = Some r ->
                           r_title r <> "").
  { intros k r Hk. apply nth_error_In in Hk.
    eapply written_title_nonempty; eauto. }
  assert (Hiff : forall iss,
             In iss (expected_issues 0 (recipes doc)) <->
             exists k r, nth_error (recipes doc) k = Some r /\
                         incomplete r /\ iss = issue_for k r).
  { intros iss. rewrite in_expected_issues.
    split; intros (k & r & Hk & Hm & ->); exists k, r; repeat split; auto.
    + apply (titled_incomplete r (Ht _ _ Hk)).
      now rewrite <- missing_fields_complete.
    + rewrite missing_fields_complete.
      now apply (titled_incomplete r (Ht _ _ Hk)). }
  destruct (recipes doc) as [|r0 rs] eqn:Er; [congruence|].
  cbn [List.length]. eexists. eexists. split; [reflexivity|].
  cbn [issues]. rewrite <- Er in *. split; [exact Hiff|]. split.
  - intros k r Hk. rewrite Hiff. split.
    + intros (k' & r' & Hk' & Hinc & E).
      apply issue_for_inj in E. subst k'.
      rewrite Hk in Hk'. injection Hk' as <-.
      destruct (in_written_recipes _ _ _ _ _ _ _ _ Hw
                  (nth_error_In _ _ Hk)) as (f & Hf & Hr).
      exists f. split; [exact Hf|]. split; [exact Hr|].
      destruct dir_exists; [|discriminate].
      apply (printed_file_events _ _ _ _ _ f); [exact Hf|].
      apply recipe_of_some in Hr.
      destruct (parse_recipe_pdf_recipe _ _ _ Hr)
        as (Htext & md & steps & Hmd & Hsteps & ->).
      apply (parse_recipe_pdf_some _ _ md steps Htext Hmd Hsteps).
      exact Hinc.
    + intros (f & _ & _ & Hwarn). exists k, r. split; [exact Hk|].
      split; [|reflexivity].
      apply printed_warn in Hwarn. unfold incomplete.
      now rewrite <- !length_zero_iff_nil.
  - intros iss Hin. apply in_expected_issues in Hin as (k & r & Hk & _ & ->).
    cbn [issue_for issue_missing].
    apply (titled_incomplete r (Ht _ _ Hk)).
Qed.

Lemma written_document_issues_witness :
  exists out report,
    validate_json
      (Some (json_dump
               (mkDocument
                  (flat_map
                     (fun f => option_list (recipe_of bare_extract in_dir f))
                     ["bare.pdf"])
                  (mkDocMetadata 1 "Generated by pdf_to_json.py" "in"))))
    = (out, Some report) /\
    List.length (issues report) = 1 /\
    In (WarnMissing "in/bare.pdf" 0 0)
       (printed (process_directory bare_extract in_dir true ["bare.pdf"]
                                   "in" "out.json")).
Proof.
  destruct (written_document_issues bare_extract in_dir true ["bare.pdf"]
              "in" "out.json" _ eq_refl) as (out & report & Hv & _).
  - discriminate.
  - exists out, report. split; [exact Hv|].
    vm_compute in Hv. injection Hv as _ <-.
    split; [reflexivity|]. vm_compute. auto.
Defined.

(* ================================================================== *)
(** * validate_json: fields of the wrong type *)
(* ================================================================== *)

Lemma check_recipe_dict i v :
  is_dict v -> exists o, check_recipe i v = Ok o.
Proof.
  destruct v; cbn [is_dict]; try tauto. intros _.
  unfold check_recipe. cbn [py_get].
  destruct (assoc "title" l), (assoc "ingredients" l),
    (assoc "instructions" l), (assoc "id" l);
    repeat match goal with
           | |- context [if ?b then _ else _] => destruct b
           end; cbn; eauto.
Qed.

Lemma check_loop_dicts items : forall i acc,
  Forall is_dict items -> exists found, check_loop i items acc = Ok found.
Proof.
  induction items as [|v items IH]; intros i acc H; cbn [check_loop]; eauto.
  inversion H; subst.
  destruct (check_recipe_dict i v) as ([issue|] & ->); auto.
Qed.

Lemma sum_len_unsized key items : forall acc,
  Forall is_dict items ->
  (exists r v, In r items /\ py_get r key (JList []) = Ok v /\ unsized v) ->
  sum_len key items acc = Raise TypeError.
Proof.
  induction items as [|x items IH]; intros acc Hd (r & v & Hin & Hget & Hv).
  - destruct Hin.
  - inversion Hd as [|? ? Hx Hrest]; subst. cbn [sum_len].
    destruct x as [| | | | |d]; cbn [is_dict] in Hx; try tauto.
    cbn [py_get].
    assert (Hcase : forall w, py_len w = Raise TypeError \/
                              exists n, py_len w = Ok n)
      by (destruct w; cbn; eauto).
    set (w := match assoc key d with Some x => x | None => JList [] end).
    assert (Ew : match assoc key d with
                 | Some x => Ok x
                 | None => Ok (JList [])
                 end = Ok w)
      by (unfold w; destruct (assoc key d); reflexivity).
    rewrite Ew. destruct (Hcase w) as [Hw|(n & Hw)]; rewrite Hw;
      [reflexivity|].
    apply IH; [assumption|]. destruct Hin as [<-|Hin].
    + exfalso. cbn [py_get] in Hget. rewrite Ew in Hget.
      injection Hget as <-. unfold unsized in Hv. congruence.
    + eauto.
Qed.

Lemma sum_len_dicts key items : forall acc,
  Forall is_dict items ->
  (exists n, sum_len key items acc = Ok n) \/
  sum_len key items acc = Raise TypeError.
Proof.
  induction items as [|x items IH]; intros acc Hd; cbn [sum_len]; eauto.
  inversion Hd as [|? ? Hx Hrest]; subst.
  destruct x as [| | | | |d]; cbn [is_dict] in Hx; try tauto.
  cbn [py_get].
  destruct (assoc key d) as [w|]; cbn [py_len]; auto.
  destruct w; cbn [py_len]; auto.
Qed.

(** X17: when every recipe is a [dict] but one of them has an
    "ingredients" or "instructions" field that is [null], a boolean or a
    number, the validator stops with a [TypeError] after the
    required-field check: it prints no statistics and returns no report.
    (A recipe that lacks the key altogether counts as 0 instead.) *)
Theorem validate_json_unsized_field (data : json) (rs : list json) :
  py_get data "recipes" (JList []) = Ok (JList rs) ->
  Forall is_dict rs ->
  (exists r v, In r rs /\ unsized v /\
               (py_get r "ingredients" (JList []) = Ok v \/
                py_get r "instructions" (JList []) = Ok v)) ->
  exists out,
    validate_json (Some data) = ((out ++ [ErrorValidating TypeError])%list, None)
    /\ ~ In Statistics out.
Proof.
  intros Hget Hd (r & v & Hin & Hv & Hfield).
  unfold validate_json, validate_body, bind, lift, print, ret.
  rewrite Hget. cbn [py_len py_iter].
  destruct (check_loop_dicts rs 0 [] Hd) as (found & ->).
  assert (Hsum :
    (sum_len "ingredients" rs 0 = Raise TypeError) \/
    (exists n, sum_len "ingredients" rs 0 = Ok n /\
               sum_len "instructions" rs 0 = Raise TypeError)).
  { destruct Hfield as [Hf|Hf].
    - left. apply sum_len_unsized; eauto.
    - destruct (sum_len_dicts "ingredients" rs 0 Hd) as [(n & Hn)|Hn];
        [right|now left].
      exists n. split; [exact Hn|]. apply sum_len_unsized; eauto. }
  assert (Hnot : forall l : list vevent,
             (forall e, In e l -> e <> Statistics) -> ~ In Statistics l).
  { intros l Hl Hs. now apply (Hl _ Hs). }
  destruct found as [|issue found];
    [|destruct (Nat.ltb 10 (List.length (issue :: found)))];
    destruct Hsum as [->|(n & -> & ->)];
    (eexists; split; [reflexivity|]);
    apply Hnot; cbn; intros e He;
    repeat (destruct He as [<-|He]; [discriminate|]); destruct He.
Qed.

Lemma validate_json_unsized_field_witness :
  exists out,
    validate_json
      (Some (JDict [("recipes",
                     JList [JDict [("title", JStr "Soup");
                                   ("ingredients", JNull)]])]))
    = ((out ++ [ErrorValidating TypeError])%list, None).
Proof.
  destruct (validate_json_unsized_field
              (JDict [("recipes",
                       JList [JDict [("title", JStr "Soup");
                                     ("ingredients", JNull)]])])
              [JDict [("title", JStr "Soup"); ("ingredients", JNull)]])
    as (out & Hv & _).
  - reflexivity.
  - repeat constructor.
  - eexists. exists JNull. split; [left; reflexivity|].
    split; [reflexivity|left; reflexivity].
  - exists out. exact Hv.
Defined.

(* ================================================================== *)
(** * extract_text_from_pdf: when a text comes out *)
(* ================================================================== *)

Lemma pages_loop_some texts : forall text,
  pages_loop (map Some texts) text = Some (text ++ pages_text texts).
Proof.
  induction texts as [|t texts IH]; intros text; cbn [map pages_loop pages_text].
  - now rewrite append_nil_r.
  - rewrite IH. now rewrite !append_assoc_s.
Qed.

Lemma pages_loop_cases pages : forall text,
  (exists texts, pages = map Some texts) \/ pages_loop pages text = None.
Proof.
  induction pages as [|[t|] pages IH]; intros text; cbn [pages_loop].
  - left. now exists [].
  - destruct (IH (text ++ t ++ NL)) as [(texts & ->)|H]; [left|now right].
    now exists (t :: texts).
  - now right.
Qed.

Lemma pages_text_nonempty texts : texts <> [] -> pages_text texts <> "".
Proof.
  destruct texts as [|t texts]; [congruence|]. intros _. cbn [pages_text].
  destruct t; discriminate.
Qed.

Lemma pages_text_last texts :
  texts <> [] -> last_is (is_char NLc) (pages_text texts) = true.
Proof.
  induction texts as [|t texts IH]; [congruence|]. intros _.
  cbn [pages_text]. destruct texts as [|t' texts].
  - cbn [pages_text]. rewrite append_nil_r.
    now rewrite last_is_app_keep by discriminate.
  - rewrite <- append_assoc_s, last_is_app_keep.
    + apply IH. discriminate.
    + apply pages_text_nonempty. discriminate.
Qed.

Lemma extract_text_from_pdf_nonempty (reader : pdf) :
  (extract_text_from_pdf reader <> "" -> readable reader) /\
  (readable reader -> extract_text_from_pdf reader <> "").
Proof.
  split.
  - unfold extract_text_from_pdf, readable.
    destruct reader as [pages|]; [|congruence].
    destruct (pages_loop_cases pages "") as [(texts & ->)| ->]; [|congruence].
    rewrite pages_loop_some. cbn [append]. intros Hne.
    exists texts. split; [|reflexivity]. intros ->. now apply Hne.
  - intros (texts & Hne & ->). unfold extract_text_from_pdf.
    rewrite pages_loop_some. cbn [append]. now apply pages_text_nonempty.
Qed.

(** X18: [extract_text_from_pdf] returns a text exactly for a file that
    opens, has at least one page and whose pages can all be read: the
    text is then the page texts, each followed by a newline, so it is not
    empty and ends with a newline even when the pages are blank.  In every
    other case (the file does not open, it has no page, or one page
    fails) the result is the empty text: a failing page discards the
    text of all pages. *)
Theorem extract_text_from_pdf_cases (reader : pdf) :
  (forall texts, reader = Some (map Some texts) ->
                 extract_text_from_pdf reader = pages_text texts) /\
  (extract_text_from_pdf reader <> "" <-> readable reader) /\
  (extract_text_from_pdf reader <> "" ->
   last_is (is_char NLc) (extract_text_from_pdf reader) = true) /\
  (forall pages, reader = Some pages -> In None pages ->
                 extract_text_from_pdf reader = "").
Proof.
  assert (H1 : forall texts, reader = Some (map Some texts) ->
                             extract_text_from_pdf reader = pages_text texts).
  { intros texts ->. unfold extract_text_from_pdf.
    now rewrite pages_loop_some. }
  assert (H2 : extract_text_from_pdf reader <> "" -> readable reader).
  { unfold extract_text_from_pdf, readable.
    destruct reader as [pages|]; [|congruence].
    destruct (pages_loop_cases pages "") as [(texts & ->)| ->]; [|congruence].
    rewrite pages_loop_some. cbn [append]. intros Hne.
    exists texts. split; [|reflexivity]. intros ->. now apply Hne. }
  repeat split.
  - exact H1.
  - exact H2.
  - intros (texts & Hne & E). rewrite (H1 _ E).
    now apply pages_text_nonempty.
  - intros Hne. destruct (H2 Hne) as (texts & Hne' & E).
    rewrite (H1 _ E). now apply pages_text_last.
  - intros pages -> Hin. unfold extract_text_from_pdf.
    destruct (pages_loop_cases pages "") as [(texts & ->)| ->]; [|reflexivity].
    apply in_map_iff in Hin as (t & Ht & _). discriminate.
Qed.

Lemma extract_text_from_pdf_cases_witness :
  extract_text_from_pdf (Some [Some "Soup"; Some ""])
  = pages_text ["Soup"; ""] /\
  extract_text_from_pdf (Some [Some "Soup"; None]) = "".
Proof.
  split.
  - exact (proj1 (extract_text_from_pdf_cases (Some [Some "Soup"; Some ""]))
                 ["Soup"; ""] eq_refl).
  - refine (proj2 (proj2 (proj2
      (extract_text_from_pdf_cases (Some [Some "Soup"; None]))))
      _ eq_refl _).
    right. left. reflexivity.
Defined.

(** X19: with the text extractor in place, a file that opens and has at
    least one page, all of them readable, always has a text, even if its
    pages are blank.  Such a file fails only when a parser raises: when
    [parse_title_and_metadata] and [parse_instructions] return, the file
    yields a recipe and is not listed among the failed files; when one of
    them raises, [parse_recipe_pdf] raises the [ValueError] and the file
    is listed as failed.  A file that is not readable in this sense is
    listed as failed and yields no recipe. *)
Theorem process_directory_readable
        (library : string -> pdf) (str_path : string -> string)
        (pdf_files : list string) (input_dir output_file pdf_file : string) :
  In pdf_file pdf_files ->
  let extract := fun path => extract_text_from_pdf (library path) in
  let text := extract (str_path pdf_file) in
  let run := parse_recipe_pdf extract (str_path pdf_file) in
  let out := process_directory extract str_path true pdf_files
                               input_dir output_file in
  (readable (library (str_path pdf_file)) ->
   text <> "" /\
   ((exists md steps, parse_title_and_metadata text = Ok md /\
                      parse_instructions text = Ok steps) ->
    (exists recipe, snd run = Ok (Some recipe)) /\
    ~ In pdf_file (failed_files out)) /\
   ((exists e, parse_title_and_metadata text = Raise e) \/
    (exists e, parse_instructions text = Raise e) ->
    snd run = Raise ValueError /\ In pdf_file (failed_files out))) /\
  (~ readable (library (str_path pdf_file)) ->
   snd run = Ok None /\ In pdf_file (failed_files out)).
Proof.
  intros Hin. cbv zeta.
  set (extract := fun path => extract_text_from_pdf (library path)).
  assert (Hne : pdf_files <> [])
    by (destruct pdf_files; [destruct Hin|discriminate]).
  pose proof (in_failed_files extract str_path pdf_files input_dir
                              output_file pdf_file Hne) as Hf.
  destruct (extract_text_from_pdf_nonempty (library (str_path pdf_file)))
    as [Hr Hr'].
  split.
  - intros Hread.
    assert (Htext : extract (str_path pdf_file) <> "") by now apply Hr'.
    assert (Ht : has_text extract (str_path pdf_file) = true)
      by now apply has_text_spec.
    split; [exact Htext|]. split.
    + intros (md & steps & Hmd & Hsteps).
      destruct (parse_recipe_pdf_some extract _ md steps Ht Hmd Hsteps)
        as [Hs _]. cbv zeta in Hs.
      split; [eauto|]. rewrite Hf. unfold gives_recipe, recipe_of.
      rewrite Hs. intros [_ ?]. discriminate.
    + intros Hraise.
      rewrite (parse_recipe_pdf_raises extract _ Ht Hraise).
      split; [reflexivity|]. rewrite Hf. split; [exact Hin|].
      unfold gives_recipe, recipe_of.
      now rewrite (parse_recipe_pdf_raises extract _ Ht Hraise).
  - intros Hnot.
    assert (Ht : has_text extract (str_path pdf_file) = false).
    { unfold has_text, extract. apply negb_false_iff, String.eqb_eq.
      destruct (string_dec
                  (extract_text_from_pdf (library (str_path pdf_file))) "")
        as [E|E]; [exact E|]. now apply Hr in E. }
    rewrite (parse_recipe_pdf_none extract _ Ht). split; [reflexivity|].
    rewrite Hf. split; [exact Hin|]. unfold gives_recipe, recipe_of.
    now rewrite (parse_recipe_pdf_none extract _ Ht).
Qed.

Lemma process_directory_readable_witness :
  readable (blank_library (in_dir "blank.pdf")) /\
  exists recipe,
    snd (parse_recipe_pdf
           (fun path => extract_text_from_pdf (blank_library path))
           (in_dir "blank.pdf")) = Ok (Some recipe).
Proof.
  assert (Hread : readable (blank_library (in_dir "blank.pdf")))
    by (exists [""]; split; [discriminate|reflexivity]).
  split; [exact Hread|].
  refine (proj1 (proj1 (proj2 (proj1
            (process_directory_readable blank_library in_dir
               ["blank.pdf"] "in" "out.json" "blank.pdf"
               (or_introl eq_refl)) Hread)) _)).
  eexists. eexists. split; reflexivity.
Defined.

(* ================================================================== *)
(** * parse_cookware: the "(optional)" marker *)
(* ================================================================== *)

Lemma sub_from_no_match r repl s : forall pos,
  (forall pre post, s = pre ++ post ->
                    match_at r (pos + String.length pre) post = None) ->
  sub_from r repl pos 0 s = s.
Proof.
  induction s as [|c s IH]; intros pos H; cbn [sub_from].
  - pose proof (H "" "" eq_refl) as H0. cbn in H0.
    rewrite Nat.add_0_r in H0. now rewrite H0.
  - pose proof (H "" (String c s) eq_refl) as H0. cbn in H0.
    rewrite Nat.add_0_r in H0. rewrite H0. f_equal. apply IH.
    intros pre post E.
    specialize (H (String c pre) post). cbn [append String.length] in H.
    rewrite Nat.add_succ_r in H. apply H. now rewrite E.
Qed.

Lemma sub_from_skip r repl s : forall pos rest,
  sub_from r repl pos (String.length s) (s ++ rest)
  = sub_from r repl (pos + String.length s) 0 rest.
Proof.
  induction s as [|c s IH]; intros pos rest; cbn [append String.length].
  - now rewrite Nat.add_0_r.
  - cbn [sub_from]. rewrite IH. now rewrite Nat.add_succ_r.
Qed.

Lemma Matches_optional_inv pos mt rest gs :
  Matches re_optional pos mt rest gs ->
  exists ws, mt = ws ++ "(optional)" /\ all is_space ws = true.
Proof.
  unfold re_optional. cbn [seqs]. intros M.
  apply Matches_seq_inv in M as (ws & m2 & g1 & g2 & -> & -> & M1 & M2).
  apply Matches_star_inv in M1 as [Hws _].
  apply Matches_lit_inv in M2 as [-> _]. eauto.
Qed.

Lemma Matches_optional pos ws rest :
  all is_space ws = true ->
  Matches re_optional pos (ws ++ "(optional)") rest [].
Proof.
  intros Hws. unfold re_optional. cbn [seqs].
  eapply (MSeq' _ _ _ _ ws "(optional)");
    [now apply MStar|apply Matches_lit|reflexivity|reflexivity].
Qed.

Lemma occurs_in_middle w a b c : occurs_in w b -> occurs_in w (a ++ b ++ c).
Proof.
  intros (pre & post & ->). exists (a ++ pre), (post ++ c).
  now rewrite !append_assoc_s.
Qed.

Lemma match_optional_occurs pos s m :
  match_at re_optional pos s = Some m -> occurs_in "(optional)" s.
Proof.
  intros H. apply match_at_sound in H as (mt & rest & -> & M & _).
  apply Matches_optional_inv in M as (ws & -> & _).
  exists ws, rest. now rewrite !append_assoc_s.
Qed.

Lemma re_sub_no_marker item :
  ~ occurs_in "(optional)" item -> re_sub re_optional "" item = item.
Proof.
  intros Hno. unfold re_sub. apply sub_from_no_match.
  intros pre post ->.
  destruct (match_at re_optional _ post) as [m|] eqn:E; [|reflexivity].
  exfalso. apply Hno. apply match_optional_occurs in E.
  rewrite <- (append_nil_r post). now apply occurs_in_middle.
Qed.

(** Text without "(" and not ending in white space cannot start like
    white space followed by "(". *)
Lemma no_marker_start name ws' x y :
  name <> "" -> all not_paren name = true ->
  last_is is_space name = false -> all is_space ws' = true ->
  name ++ y <> ws' ++ String "("%char x.
Proof.
  intros Hne Hnp Hl Hws E.
  destruct (Nat.le_gt_cases (String.length ws') (String.length name))
    as [Hle|Hgt].
  - symmetry in E. apply split_app_le in E as (z & -> & E); [|exact Hle].
    destruct z as [|c z].
    + rewrite append_nil_r in *.
      rewrite (last_is_all _ _ Hws Hne) in Hl. discriminate.
    + cbn [append] in E. injection E as <- _.
      rewrite all_app in Hnp. cbn in Hnp.
      rewrite andb_false_r in Hnp. discriminate.
  - apply split_app_le in E as (z & -> & _); [|lia].
    rewrite all_app in Hws. apply andb_true_iff in Hws as [Hws _].
    rewrite (last_is_all _ _ Hws Hne) in Hl. discriminate.
Qed.

Lemma match_optional_none pos name y :
  name <> "" -> all not_paren name = true ->
  last_is is_space name = false ->
  match_at re_optional pos (name ++ y) = None.
Proof.
  intros Hne Hnp Hl.
  destruct (match_at re_optional pos (name ++ y)) as [m|] eqn:E;
    [exfalso|reflexivity].
  apply match_at_sound in E as (mt & rest & E & M & _).
  apply Matches_optional_inv in M as (ws' & -> & Hws).
  rewrite append_assoc_s in E.
  exact (no_marker_start name ws' _ y Hne Hnp Hl Hws E).
Qed.

Lemma match_optional_marker pos ws :
  all is_space ws = true ->
  exists m, match_at re_optional pos (ws ++ "(optional)") = Some m /\
            m_end m = pos + String.length (ws ++ "(optional)").
Proof.
  intros Hws.
  destruct (match_at re_optional pos (ws ++ "(optional)")) as [m|] eqn:E.
  - exists m. split; [reflexivity|].
    apply match_at_sound in E as (mt & rest & E & M & _ & He).
    apply Matches_optional_inv in M as (ws' & -> & Hws').
    rewrite He. f_equal.
    assert (El : String.length ws' = String.length ws).
    { destruct (Nat.lt_trichotomy (String.length ws') (String.length ws))
        as [Hlt|[Heq|Hgt]]; [exfalso|exact Heq|exfalso].
      - rewrite append_assoc_s in E. symmetry in E.
        apply split_app_le in E as (z & -> & E); [|lia].
        destruct z as [|c z]; [rewrite append_nil_r in Hlt; lia|].
        cbn [append] in E. injection E as <- _.
        rewrite all_app in Hws. cbn in Hws. rewrite andb_false_r in Hws.
        discriminate.
      - rewrite append_assoc_s in E.
        apply split_app_le in E as (z & -> & E); [|lia].
        destruct z as [|c z]; [rewrite append_nil_r in Hgt; lia|].
        cbn [append] in E. injection E as <- _.
        rewrite all_app in Hws'. cbn in Hws'. rewrite andb_false_r in Hws'.
        discriminate. }
    rewrite append_assoc_s in E.
    apply app_same_length in E as [-> _]; [reflexivity|now symmetry].
  - exfalso.
    apply (match_at_complete _ _ _ E (ws ++ "(optional)") "" []).
    + now rewrite append_nil_r.
    + now apply Matches_optional.
Qed.

Lemma sub_optional_marker ws : forall pos,
  all is_space ws = true ->
  sub_from re_optional "" pos 0 (ws ++ "(optional)") = "".
Proof.
  intros pos Hws.
  destruct (match_optional_marker pos ws Hws) as (m & Hm & He).
  destruct (ws ++ "(optional)") as [|c s] eqn:Es.
  - destruct ws; discriminate.
  - cbn [sub_from]. rewrite Hm, He. cbn [String.length].
    replace (pos + S (String.length s) - pos) with (S (String.length s))
      by lia.
    cbn [append].
    rewrite <- (append_nil_r s) at 2. rewrite sub_from_skip.
    reflexivity.
Qed.

Lemma sub_optional_name name : forall ws pos,
  all not_paren name = true -> last_is is_space name = false ->
  all is_space ws = true ->
  sub_from re_optional "" pos 0 (name ++ ws ++ "(optional)") = name.
Proof.
  induction name as [|c name IH]; intros ws pos Hnp Hl Hws.
  - now apply sub_optional_marker.
  - cbn [append sub_from].
    change (String c (name ++ ws ++ "(optional)"))
      with (String c name ++ ws ++ "(optional)").
    rewrite match_optional_none by (auto; discriminate).
    f_equal. cbn [all] in Hnp. apply andb_true_iff in Hnp as [_ Hnp].
    apply IH; auto.
    destruct name as [|d name]; [reflexivity|exact Hl].
Qed.

Lemma cookware_loop_app a b :
  cookware_loop (a ++ b) = (cookware_loop a ++ cookware_loop b)%list.
Proof.
  induction a as [|x a IH]; [reflexivity|]. cbn [app cookware_loop].
  destruct (negb (String.eqb (strip x) "") && negb (startswith (strip x) "Find")
            && Nat.ltb 2 (String.length (strip x))); cbn [app]; congruence.
Qed.

Lemma split_nonempty sep s : split sep s <> [].
Proof.
  destruct s as [|c s]; cbn [split]; [discriminate|].
  destruct (Ascii.eqb c sep); [discriminate|].
  destruct (split sep s); discriminate.
Qed.

(** Joining the pieces of a split gives the text back. *)
Lemma join_split sep s : join (String sep "") (split sep s) = s.
Proof.
  induction s as [|c s IH]; [reflexivity|]. cbn [split].
  pose proof (split_nonempty sep s) as Hne.
  destruct (split sep s) as [|h t]; [congruence|].
  destruct (Ascii.eqb c sep) eqn:E.
  - apply Ascii.eqb_eq in E. subst c.
    change (join (String sep "") ("" :: h :: t))
      with ("" ++ String sep "" ++ join (String sep "") (h :: t)).
    now rewrite IH.
  - assert (Hc : join (String sep "") (String c h :: t)
                 = String c (join (String sep "") (h :: t)))
      by (destruct t; reflexivity).
    now rewrite Hc, IH.
Qed.

Lemma join_in sep parts l :
  In l parts -> exists a b, join sep parts = a ++ l ++ b.
Proof.
  induction parts as [|x parts IH]; [intros []|].
  destruct parts as [|y parts].
  - intros [<-|[]]. exists "", "". cbn. now rewrite append_nil_r.
  - change (join sep (x :: y :: parts))
      with (x ++ sep ++ join sep (y :: parts)).
    intros [<-|Hin].
    + now exists "", (sep ++ join sep (y :: parts)).
    + destruct (IH Hin) as (a & b & ->).
      exists (x ++ sep ++ a), b. now rewrite !append_assoc_s.
Qed.

Lemma split_in sep s l :
  In l (split sep s) -> exists a b, s = a ++ l ++ b.
Proof.
  intros Hin. destruct (join_in (String sep "") _ l Hin) as (a & b & E).
  rewrite join_split in E. eauto.
Qed.

Lemma occurs_in_strip w l : occurs_in w (strip l) -> occurs_in w l.
Proof.
  intros H. unfold strip, strip_by in H.
  destruct (lstrip_decomp is_space l) as (t1 & E1 & _).
  destruct (rstrip_decomp is_space (lstrip_by is_space l)) as (t2 & E2 & _).
  rewrite E1, E2. now apply occurs_in_middle.
Qed.

Lemma cookware_loop_unmarked lines :
  (forall l, In l lines -> ~ occurs_in "(optional)" l) ->
  cookware_loop lines = filter kept_item (map strip lines).
Proof.
  induction lines as [|x lines IH]; intros H; [reflexivity|].
  cbn [cookware_loop map filter]. unfold kept_item at 1.
  rewrite IH by (intros l Hl; apply H; now right).
  destruct (negb (String.eqb (strip x) "") && negb (startswith (strip x) "Find")
            && Nat.ltb 2 (String.length (strip x))); [|reflexivity].
  rewrite re_sub_no_marker; [reflexivity|].
  intros Ho. apply (H x (or_introl eq_refl)). now apply occurs_in_strip.
Qed.

(** X20: when the text has no "(optional)" marker, the cookware parser
    returns the lines of the cookware section unchanged apart from the
    stripping, in their order, leaving out the lines that are empty, have
    one or two characters or start with "Find". *)
Theorem parse_cookware_unmarked (text : string) :
  ~ occurs_in "(optional)" text ->
  (exists sec,
      section_of "Find cookware" cookware_ends text sec /\
      parse_cookware text = filter kept_item (map strip (split NLc sec)))
  \/ (no_section "Find cookware" cookware_ends text /\
      parse_cookware text = []).
Proof.
  intros Hno. unfold parse_cookware.
  change re_cookware with (re_section "Find cookware" re_cookware_tail).
  destruct (re_search _ text) as [m|] eqn:E.
  - left. exists (group 1 m).
    pose proof (search_section_some _ _ _ cookware_tail_spec
                                    cookware_tail_no_groups _ _ E) as Hm.
    split; [exact Hm|].
    apply cookware_loop_unmarked. intros l Hl Ho. apply Hno.
    destruct Hm as (pre & rest & -> & _).
    apply split_in in Hl as (a & b & ->).
    apply occurs_in_middle with (a := a) (c := b) in Ho.
    apply occurs_in_middle with (a := pre ++ "Find cookware" ++ NL)
                                (c := rest) in Ho.
    rewrite !append_assoc_s in Ho. rewrite !append_assoc_s. exact Ho.
  - right. split; [|reflexivity].
    exact (search_section_none _ _ _ cookware_tail_spec _ E).
Qed.

Lemma parse_cookware_unmarked_witness :
  (exists sec,
      section_of "Find cookware" cookware_ends
        (join NL ["Find cookware"; "Pot"; " Knife "; "Grab ingredients"]) sec /\
      parse_cookware
        (join NL ["Find cookware"; "Pot"; " Knife "; "Grab ingredients"])
      = filter kept_item (map strip (split NLc sec)))
  \/ (no_section "Find cookware" cookware_ends
        (join NL ["Find cookware"; "Pot"; " Knife "; "Grab ingredients"]) /\
      parse_cookware
        (join NL ["Find cookware"; "Pot"; " Knife "; "Grab ingredients"]) = []).
Proof.
  apply parse_cookware_unmarked.
  intros H. apply contains_spec in H. vm_compute in H. discriminate.
Defined.

(** X21: a cookware line that reads a name, white space and
    "(optional)" and does not start with "Find" is listed under the name
    alone (a line that starts with "Find" is dropped).  The name is any
    text without "(" that has no white space at its ends. *)
Theorem cookware_loop_optional
        (before after : list string) (name ws : string) :
  name <> "" ->
  head_is is_space name = false -> last_is is_space name = false ->
  all not_paren name = true ->
  all is_space ws = true ->
  startswith (name ++ ws ++ "(optional)") "Find" = false ->
  cookware_loop (before ++ (name ++ ws ++ "(optional)") :: after)
  = (cookware_loop before ++ name :: cookware_loop after)%list.
Proof.
  intros Hne Hh Hl Hnp Hws Hfind.
  rewrite cookware_loop_app. f_equal. cbn [cookware_loop].
  set (item := name ++ ws ++ "(optional)") in *.
  assert (Hstrip : strip item = item).
  { apply strip_by_fixed.
    - unfold item. now rewrite head_is_app.
    - unfold item. rewrite <- append_assoc_s.
      now rewrite last_is_app_keep by discriminate. }
  rewrite Hstrip, Hfind.
  assert (Hlen : 2 < String.length item).
  { unfold item. rewrite !length_append. cbn. lia. }
  apply Nat.ltb_lt in Hlen. rewrite Hlen.
  assert (Hitem : String.eqb item "" = false).
  { apply String.eqb_neq. unfold item. destruct name; [congruence|discriminate]. }
  rewrite Hitem. cbn [negb andb]. f_equal.
  unfold re_sub, item. now apply sub_optional_name.
Qed.

Lemma cookware_loop_optional_witness :
  cookware_loop ["Pot"; "Knife (optional)"; "Pan"] = ["Pot"; "Knife"; "Pan"].
Proof.
  apply (cookware_loop_optional ["Pot"] ["Pan"] "Knife" " ");
    try reflexivity. discriminate.
Defined.

(* ================================================================== *)
(** * generate_recipe_id on titles made of words *)
(* ================================================================== *)

Lemma lower_app a b : lower (a ++ b) = lower a ++ lower b.
Proof. induction a as [|c a IH]; cbn [append lower]; congruence. Qed.

Lemma lower_join sep parts :
  lower (join sep parts) = join (lower sep) (map lower parts).
Proof.
  induction parts as [|x parts IH]; [reflexivity|].
  destruct parts as [|y parts]; [reflexivity|].
  change (join sep (x :: y :: parts)) with (x ++ sep ++ join sep (y :: parts)).
  rewrite !lower_app, IH. reflexivity.
Qed.

Lemma ascii_word_char_lower c :
  ascii_word_char c = true -> ascii_word_char (lower_char c) = true.
Proof. each_char c. Qed.

Lemma word_lower w : word w -> word (lower w).
Proof.
  intros [Hne Hw]. split; [now apply lower_nonempty|].
  clear Hne. induction w as [|c w IH]; [reflexivity|].
  cbn [lower all] in *. apply andb_true_iff in Hw as [Hc Hw].
  now rewrite (ascii_word_char_lower c Hc), IH.
Qed.

Lemma word_char_facts c :
  ascii_word_char c = true ->
  hyphen_or_space c = false /\ non_slug_char c = false /\ is_hyphen c = false.
Proof. each_char c. Qed.

Lemma collapse_word w : forall b rest,
  word w -> collapse b (w ++ rest) = w ++ collapse false rest.
Proof.
  intros b rest [Hne Hw]. revert b.
  induction w as [|c w IH]; intros b; [congruence|].
  cbn [all] in Hw. apply andb_true_iff in Hw as [Hc Hw].
  cbn [append collapse].
  destruct (word_char_facts c Hc) as (-> & _). f_equal.
  destruct w as [|d w]; [reflexivity|]. apply IH; [discriminate|exact Hw].
Qed.

Lemma collapse_words ws :
  Forall word ws ->
  collapse false (join " " ws) = join "-" ws.
Proof.
  induction 1 as [|w ws Hw Hws IH]; [reflexivity|].
  destruct ws as [|w' ws].
  - cbn [join]. rewrite <- (append_nil_r w) at 1.
    rewrite collapse_word by assumption. cbn. now rewrite append_nil_r.
  - change (join " " (w :: w' :: ws)) with (w ++ " " ++ join " " (w' :: ws)).
    change (join "-" (w :: w' :: ws)) with (w ++ "-" ++ join "-" (w' :: ws)).
    rewrite collapse_word by assumption. f_equal.
    cbn [append collapse]. change (hyphen_or_space " "%char) with true.
    cbv iota. change (String hyphen ?x) with ("-" ++ x). f_equal.
    rewrite <- IH.
    inversion Hws as [|? ? Hw' _]; subst.
    assert (Hj : exists rest, join " " (w' :: ws) = w' ++ rest).
    { destruct ws; [exists ""; now rewrite append_nil_r|].
      eexists; reflexivity. }
    destruct Hj as (rest & ->).
    now rewrite !collapse_word by assumption.
Qed.

Lemma filter_words ws :
  Forall word ws ->
  str_filter (fun c => negb (non_slug_char c)) (join " " ws) = join " " ws.
Proof.
  intros H. apply filter_fixed. apply join_all; [reflexivity|].
  eapply Forall_impl; [|exact H]. intros w [_ Hw].
  eapply all_impl; [|exact Hw]. intros c Hc.
  now destruct (word_char_facts c Hc) as (_ & -> & _).
Qed.

(** X22: for a title made of words of ASCII letters, digits and
    underscores, separated by single spaces, the identifier is the
    lower-case words joined by hyphens. *)
Theorem generate_recipe_id_words (words : list string) :
  words <> [] -> Forall word words ->
  generate_recipe_id (join " " words) = join "-" (map lower words).
Proof.
  intros Hne Hw.
  assert (Hlw : Forall word (map lower words)).
  { rewrite Forall_forall in *. intros w Hin.
    apply in_map_iff in Hin as (w0 & <- & Hin). now apply word_lower, Hw. }
  rewrite generate_recipe_id_unfold, lower_join.
  change (lower " ") with " ".
  rewrite filter_words, collapse_words by assumption.
  assert (Hne' : map lower words <> [])
    by (destruct words; [congruence|discriminate]).
  assert (Hnonempty : Forall (fun l => l <> "") (map lower words)).
  { eapply Forall_impl; [|exact Hlw]. now intros w [? _]. }
  apply strip_by_fixed.
  - destruct (map lower words) as [|w ws] eqn:E; [congruence|].
    inversion Hlw as [|? ? [Hwne Hwc] _]; subst.
    rewrite join_head by assumption.
    destruct w as [|c w]; [congruence|]. cbn [head_is all] in *.
    apply andb_true_iff in Hwc as [Hc _].
    destruct (word_char_facts c Hc) as (_ & _ & Hh). exact Hh.
  - rewrite join_last by assumption.
    destruct (@exists_last _ (map lower words) Hne') as (r & z & Ez).
    rewrite Ez, last_last.
    assert (Hz : word z).
    { rewrite Forall_forall in Hlw. apply Hlw. rewrite Ez.
      apply in_or_app. right. now left. }
    destruct Hz as [Hzne Hzc].
    destruct (last_is (fun c => mem_char c "-") z) eqn:El; [|reflexivity].
    apply last_is_true_inv in El as (z0 & c & -> & Hc).
    rewrite all_app in Hzc. apply andb_true_iff in Hzc as [_ Hzc].
    cbn [all] in Hzc. rewrite andb_true_r in Hzc.
    destruct (word_char_facts c Hzc) as (_ & _ & Hh).
    unfold is_hyphen in Hh. congruence.
Qed.

Lemma generate_recipe_id_words_witness :
  generate_recipe_id (join " " ["Lemon"; "Chicken"; "Soup"])
  = join "-" (map lower ["Lemon"; "Chicken"; "Soup"]).
Proof.
  apply generate_recipe_id_words; [discriminate|].
  repeat constructor; discriminate.
Defined.

(* ================================================================== *)
(** * categorize_ingredient: more text never lowers the priority *)
(* ================================================================== *)

Lemma any_in_grows words s a b :
  any_in words (lower s) = true ->
  any_in words (lower (a ++ s ++ b)) = true.
Proof.
  rewrite !any_in_spec. intros (w & Hin & Ho). exists w. split; [exact Hin|].
  rewrite !lower_app. now apply occurs_in_middle.
Qed.

(** X23: the category depends on the lower-case text only, and putting
    text before or after an ingredient never moves it down in the order
    produce, protein, dairy, spices, pantry: what is produce stays
    produce. *)
Theorem categorize_ingredient_monotone (a s b : string) :
  categorize_ingredient (lower s) = categorize_ingredient s /\
  category_rank (categorize_ingredient (a ++ s ++ b))
  <= category_rank (categorize_ingredient s) /\
  (categorize_ingredient s = "produce" ->
   categorize_ingredient (a ++ s ++ b) = "produce").
Proof.
  split; [unfold categorize_ingredient; now rewrite lower_idem|].
  pose proof (any_in_grows produce_words s a b) as H1.
  pose proof (any_in_grows protein_words s a b) as H2.
  pose proof (any_in_grows dairy_words s a b) as H3.
  pose proof (any_in_grows spices_words s a b) as H4.
  unfold categorize_ingredient.
  destruct (any_in produce_words (lower s)),
    (any_in protein_words (lower s)),
    (any_in dairy_words (lower s)),
    (any_in spices_words (lower s));
    try rewrite (H1 eq_refl); try rewrite (H2 eq_refl);
    try rewrite (H3 eq_refl); try rewrite (H4 eq_refl);
    destruct (any_in produce_words (lower (a ++ s ++ b))),
      (any_in protein_words (lower (a ++ s ++ b))),
      (any_in dairy_words (lower (a ++ s ++ b))),
      (any_in spices_words (lower (a ++ s ++ b)));
    (split; [cbn; lia|intros E; try reflexivity; discriminate E]).
Qed.

Lemma categorize_ingredient_monotone_witness :
  categorize_ingredient "carrot" = "produce" /\
  categorize_ingredient ("2 medium " ++ "carrot" ++ "s, diced") = "produce".
Proof.
  split; [reflexivity|].
  apply (proj2 (proj2
    (categorize_ingredient_monotone "2 medium " "carrot" "s, diced"))).
  reflexivity.
Defined.
